(** * Markdown Link Indexer: link extraction, broken-link detection,
      candidate search and link rewriting (src/parser.ts, src/extension.ts)

    A shallow embedding of the TypeScript sources.  JavaScript strings are
    modelled by their UTF-8 bytes ([string]); exceptions by a [result] type;
    the services the code obtains from its host (markdown-it, [JSON.parse],
    [fs.statSync], [vscode.workspace.findFiles], the quick pick) are the
    fields of the class [Host]. *)

From Stdlib Require Import List String Ascii Bool Arith PeanoNat Lia.
Import ListNotations.

Set Warnings "-register-all".

Local Open Scope string_scope.
Local Open Scope list_scope.

Infix "+++" := String.append (right associativity, at level 60).

(* ================================================================= *)
(** ** Exceptions *)

Inductive js_error : Type :=
| URIError
| TypeError
| SyntaxError
| HostError (message : string).

Inductive result (A : Type) : Type :=
| Ok (value : A)
| Throw (error : js_error).

Arguments Ok {A} value.
Arguments Throw {A} error.

Definition bind {A B : Type} (r : result A) (k : A -> result B) : result B :=
  match r with
  | Ok a => k a
  | Throw e => Throw e
  end.

Notation "x <- r ;; k" := (bind r (fun x => k))
  (at level 61, r at next level, right associativity).

(** [try { body } catch { handler }] *)
Definition try_catch {A : Type} (body : result A) (handler : js_error -> A) : A :=
  match body with
  | Ok a => a
  | Throw e => handler e
  end.

Fixpoint mapM {A B : Type} (f : A -> result B) (l : list A) : result (list B) :=
  match l with
  | [] => Ok []
  | a :: r => b <- f a ;; bs <- mapM f r ;; Ok (b :: bs)
  end.

Definition is_ok {A : Type} (r : result A) : bool :=
  match r with Ok _ => true | Throw _ => false end.

(* ================================================================= *)
(** ** JavaScript string operations used by the sources *)

Module JS.

Definition chars := list_ascii_of_string.
Definition str := string_of_list_ascii.

Definition startsWith (s p : string) : bool := String.prefix p s.

Definition endsWith (s p : string) : bool :=
  String.prefix (str (rev (chars p))) (str (rev (chars s))).

(** [s.indexOf(p)], [None] for -1. *)
Fixpoint indexOf (s p : string) : option nat :=
  if String.prefix p s then Some 0
  else match s with
       | EmptyString => None
       | String _ r => option_map S (indexOf r p)
       end.

Definition includes (s p : string) : bool :=
  match indexOf s p with Some _ => true | None => false end.

(** [s.split(sep)] for a one-character separator. *)
Fixpoint split (sep : ascii) (s : string) : list string :=
  match s with
  | EmptyString => [EmptyString]
  | String c r =>
      if Ascii.eqb c sep then EmptyString :: split sep r
      else match split sep r with
           | [] => [String c EmptyString]
           | h :: t => String c h :: t
           end
  end.

(** [l.join(sep)] on a list of strings. *)
Definition join (sep : string) (l : list string) : string := String.concat sep l.

(** [s.replace(/c/g, d)] for single characters [c], [d]. *)
Fixpoint replaceChar (c d : ascii) (s : string) : string :=
  match s with
  | EmptyString => EmptyString
  | String a r => String (if Ascii.eqb a c then d else a) (replaceChar c d r)
  end.

Fixpoint dropWhile {A : Type} (p : A -> bool) (l : list A) : list A :=
  match l with
  | [] => []
  | a :: r => if p a then dropWhile p r else l
  end.

Fixpoint takeWhile {A : Type} (p : A -> bool) (l : list A) : list A :=
  match l with
  | [] => []
  | a :: r => if p a then a :: takeWhile p r else []
  end.

(** Whether the character [c] occurs in [s]. *)
Fixpoint containsChar (c : ascii) (s : string) : bool :=
  match s with
  | EmptyString => false
  | String a r => Ascii.eqb a c || containsChar c r
  end.

Definition substr_from (n : nat) (s : string) : string :=
  String.substring n (String.length s - n) s.

(** The expansion of a replacement template in [String.prototype.replace]
    with a string pattern (GetSubstitution without captures): [$$], [$&],
    [$`] and [$'] are special, every other character stands for itself. *)
Fixpoint getSubstitution (matched before after : string) (template : string) : string :=
  match template with
  | EmptyString => EmptyString
  | String "$" (String "$" r) => String "$" (getSubstitution matched before after r)
  | String "$" (String "&" r) => matched +++ getSubstitution matched before after r
  | String "$" (String "`" r) => before +++ getSubstitution matched before after r
  | String "$" (String "'" r) => after +++ getSubstitution matched before after r
  | String c r => String c (getSubstitution matched before after r)
  end.

(** [s.replace(pattern, replacement)] with a string pattern: the first
    occurrence only. *)
Definition replaceFirst (s pattern replacement : string) : string :=
  match indexOf s pattern with
  | None => s
  | Some i =>
      let before := String.substring 0 i s in
      let after := substr_from (i + String.length pattern) s in
      before +++ getSubstitution pattern before after replacement +++ after
  end.

End JS.

(* ================================================================= *)
(** ** Node's [path] module, POSIX flavour *)

Module Path.

Definition sep : string := "/".

Definition isSlash (c : ascii) : bool := Ascii.eqb c "/".
Definition notSlash (c : ascii) : bool := negb (isSlash c).

Definition isAbsolute (p : string) : bool :=
  match p with
  | String c _ => isSlash c
  | EmptyString => false
  end.

(** [normalizeString] read segment by segment: empty and [.] segments are
    dropped, [..] removes the segment before it when there is one that is
    not itself [..]; a [..] that cannot be resolved is kept only when
    [allowAboveRoot].  [res] is the stack of kept segments, last first. *)
Fixpoint normalizeSegments (allowAboveRoot : bool) (segs res : list string)
  : list string :=
  match segs with
  | [] => rev res
  | s :: r =>
      if (s =? "")%string then normalizeSegments allowAboveRoot r res
      else if (s =? ".")%string then normalizeSegments allowAboveRoot r res
      else if (s =? "..")%string then
        match res with
        | top :: res' =>
            if (top =? "..")%string then
              normalizeSegments allowAboveRoot r
                (if allowAboveRoot then ".." :: res else res)
            else normalizeSegments allowAboveRoot r res'
        | [] =>
            normalizeSegments allowAboveRoot r
              (if allowAboveRoot then [".."] else [])
        end
      else normalizeSegments allowAboveRoot r (s :: res)
  end.

Definition normalizeString (p : string) (allowAboveRoot : bool) : string :=
  JS.join "/" (normalizeSegments allowAboveRoot (JS.split "/" p) []).

(** The loop of [path.resolve], from the last argument to the first, until
    an absolute one has been prepended. *)
Fixpoint resolveLoop (argsRev : list string) (resolvedPath : string)
  : string * bool :=
  match argsRev with
  | [] => (resolvedPath, false)
  | p :: r =>
      if (p =? "")%string then resolveLoop r resolvedPath
      else
        let resolvedPath' := p +++ "/" +++ resolvedPath in
        if isAbsolute p then (resolvedPath', true)
        else resolveLoop r resolvedPath'
  end.

(** [path.resolve(...args)]; [cwd] is [process.cwd()], used when no argument
    is absolute. *)
Definition resolve (cwd : string) (args : list string) : string :=
  let '(resolvedPath, resolvedAbsolute) := resolveLoop (rev (cwd :: args)) "" in
  let normalized := normalizeString resolvedPath (negb resolvedAbsolute) in
  if resolvedAbsolute then "/" +++ normalized
  else if (normalized =? "")%string then "." else normalized.

(** [path.resolve(...args)] with [process.cwd()] as the call it is: [cwd]
    is its outcome, an exception when the working directory no longer
    exists.  The loop reads it only after every argument has been
    prepended and none of them was absolute. *)
Definition resolveIn (cwd : result string) (args : list string) : result string :=
  let '(resolvedPath, resolvedAbsolute) := resolveLoop (rev args) "" in
  if resolvedAbsolute then Ok ("/" +++ normalizeString resolvedPath false)
  else
    c <- cwd ;;
    let '(resolvedPath', resolvedAbsolute') := resolveLoop [c] resolvedPath in
    let normalized := normalizeString resolvedPath' (negb resolvedAbsolute') in
    Ok (if resolvedAbsolute' then "/" +++ normalized
        else if (normalized =? "")%string then "." else normalized).

(** [path.normalize(p)] *)
Definition normalize (p : string) : string :=
  if (p =? "")%string then "."
  else
    let isAbs := isAbsolute p in
    let trailingSeparator := JS.endsWith p "/" in
    let n := normalizeString p (negb isAbs) in
    if (n =? "")%string then
      (if isAbs then "/" else if trailingSeparator then "./" else ".")
    else
      let n' := if trailingSeparator then n +++ "/" else n in
      if isAbs then "/" +++ n' else n'.

(** [path.join(...args)] *)
Definition join (args : list string) : string :=
  match filter (fun a => negb (a =? "")%string) args with
  | [] => "."
  | parts => normalize (JS.join "/" parts)
  end.

(** [path.dirname(p)]: the scan runs from the end of the string down to
    index 1, over trailing slashes, then over the last component, and stops
    at the slash before it. *)
Definition dirname (p : string) : string :=
  match p with
  | EmptyString => "."
  | String c0 t =>
      let hasRoot := isSlash c0 in
      let r1 := JS.dropWhile isSlash (rev (JS.chars t)) in
      match JS.dropWhile notSlash r1 with
      | [] => if hasRoot then "/" else "."
      | _ :: r3 =>
          match r3 with
          | [] => if hasRoot then "//" else String c0 EmptyString
          | _ => String c0 (JS.str (rev r3))
          end
      end
  end.

(** [path.basename(p)] without suffix argument. *)
Definition basename (p : string) : string :=
  let r1 := JS.dropWhile isSlash (rev (JS.chars p)) in
  JS.str (rev (JS.takeWhile notSlash r1)).

Record ParsedPath : Type := {
  root : string;
  dir : string;
  base : string;
  ext : string;
  name : string
}.

(** The extension scan of [path.parse] over the characters of the last
    component taken right to left: [k] counts the characters met before the
    first dot, [startDot] says whether a dot has been met, [preDotState] is
    the source's variable of that name (0, 1, or -1 coded as 2). *)
Fixpoint extScan (revBase : list ascii) (startDot : option nat) (k : nat)
  (preDotState : nat) : option nat * nat :=
  match revBase with
  | [] => (startDot, preDotState)
  | c :: r =>
      if Ascii.eqb c "." then
        match startDot with
        | None => extScan r (Some k) k preDotState
        | Some _ => extScan r startDot k 1
        end
      else
        match startDot with
        | None => extScan r None (S k) preDotState
        | Some _ => extScan r startDot k 2
        end
  end.

(** [path.parse(p)] *)
Definition parse (p : string) : ParsedPath :=
  match p with
  | EmptyString => {| root := ""; dir := ""; base := ""; ext := ""; name := "" |}
  | String c0 t =>
      let isAbs := isSlash c0 in
      let rt := if isAbs then "/" else "" in
      let scanned := if isAbs then t else p in
      let r1 := JS.dropWhile isSlash (rev (JS.chars scanned)) in
      let revBase := JS.takeWhile notSlash r1 in
      let r2 := JS.dropWhile notSlash r1 in
      let slashFound := match r2 with [] => false | _ => true end in
      let d :=
        match r2 with
        | [] => rt
        | _ :: r3 => rt +++ JS.str (rev r3)
        end in
      match revBase with
      | [] => {| root := rt; dir := d; base := ""; ext := ""; name := "" |}
      | _ =>
          let b := JS.str (rev revBase) in
          let '(startDot, preDotState) := extScan revBase None 0 0 in
          match startDot with
          | None => {| root := rt; dir := d; base := b; ext := ""; name := b |}
          | Some k =>
              let exactlyDotDot :=
                Nat.eqb preDotState 1 && Nat.eqb k 0 && Nat.eqb (String.length b) 2
                && negb (isAbs && negb slashFound) in
              if Nat.eqb preDotState 0 || exactlyDotDot then
                {| root := rt; dir := d; base := b; ext := ""; name := b |}
              else
                let n := String.length b - (k + 1) in
                {| root := rt; dir := d; base := b;
                   ext := JS.substr_from n b;
                   name := String.substring 0 n b |}
          end
      end
  end.

(** The components of a path produced by [resolve]. *)
Definition segments (p : string) : list string :=
  filter (fun s => negb (s =? "")%string) (JS.split "/" p).

Fixpoint commonPrefixLength (a b : list string) : nat :=
  match a, b with
  | x :: a', y :: b' => if (x =? y)%string then S (commonPrefixLength a' b') else 0
  | _, _ => 0
  end.

(** [path.relative(from, to)]: both paths are resolved, the components they
    share from the root are dropped, every remaining component of [from]
    becomes [..], and the remaining components of [to] follow. *)
Definition relative (cwd : string) (from to : string) : string :=
  if (from =? to)%string then ""
  else
    let from' := resolve cwd [from] in
    let to' := resolve cwd [to] in
    if (from' =? to')%string then ""
    else
      let fs := segments from' in
      let ts := segments to' in
      let c := commonPrefixLength fs ts in
      JS.join "/" (repeat ".." (List.length fs - c) ++ skipn c ts).

End Path.

(* ================================================================= *)
(** ** [decodeURIComponent] *)

Module URI.

Local Open Scope nat_scope.

Definition hexDigit (c : ascii) : option nat :=
  let n := nat_of_ascii c in
  if (48 <=? n) && (n <=? 57) then Some (n - 48)
  else if (65 <=? n) && (n <=? 70) then Some (n - 55)
  else if (97 <=? n) && (n <=? 102) then Some (n - 87)
  else None.

Definition hexOctet (a b : ascii) : option nat :=
  match hexDigit a, hexDigit b with
  | Some x, Some y => Some (16 * x + y)
  | _, _ => None
  end.

(** The number of leading 1 bits of an octet of 128 or more. *)
Definition leadingOnes (B : nat) : nat :=
  if B <? 192 then 1 else if B <? 224 then 2 else if B <? 240 then 3
  else if B <? 248 then 4 else 5.

Definition isContinuation (b : nat) : bool := (128 <=? b) && (b <=? 191).

(** Whether the octets are the UTF-8 encoding of one code point (no
    overlong form, no surrogate, nothing above U+10FFFF). *)
Definition validUtf8 (octets : list nat) : bool :=
  match octets with
  | [b0; b1] => (194 <=? b0) && (b0 <=? 223) && isContinuation b1
  | [b0; b1; b2] =>
      isContinuation b2 &&
      (if b0 =? 224 then (160 <=? b1) && (b1 <=? 191)
       else if b0 =? 237 then (128 <=? b1) && (b1 <=? 159)
       else (225 <=? b0) && (b0 <=? 239) && isContinuation b1)
  | [b0; b1; b2; b3] =>
      isContinuation b2 && isContinuation b3 &&
      (if b0 =? 240 then (144 <=? b1) && (b1 <=? 191)
       else if b0 =? 244 then (128 <=? b1) && (b1 <=? 143)
       else (241 <=? b0) && (b0 <=? 243) && isContinuation b1)
  | _ => false
  end.

(** [n] further escapes [%XX], the continuation octets of a sequence. *)
Fixpoint readContinuations (n : nat) (l : list ascii) : option (list nat) :=
  match n with
  | O => Some []
  | S m =>
      match l with
      | "%"%char :: a :: b :: l' =>
          match hexOctet a b, readContinuations m l' with
          | Some o, Some os => Some (o :: os)
          | _, _ => None
          end
      | _ => None
      end
  end.

(** What follows a [%]: the octets of one decoded code point and the number
    of characters read after the [%], or [None] where Decode throws. *)
Definition decodeEscape (l : list ascii) : option (list nat * nat) :=
  match l with
  | a :: b :: l' =>
      match hexOctet a b with
      | None => None
      | Some B =>
          if B <? 128 then Some ([B], 2)
          else
            let n := leadingOnes B in
            if (n =? 1) || (4 <? n) then None
            else
              match readContinuations (n - 1) l' with
              | None => None
              | Some conts =>
                  if validUtf8 (B :: conts) then Some (B :: conts, 2 + 3 * (n - 1))
                  else None
              end
      end
  | _ => None
  end.

(** The loop of Decode; [skip] characters were already consumed by the
    escape sequence before them. *)
Fixpoint decodeFrom (l : list ascii) (skip : nat) : result (list ascii) :=
  match l with
  | [] => Ok []
  | c :: r =>
      match skip with
      | S k => decodeFrom r k
      | O =>
          if Ascii.eqb c "%" then
            match decodeEscape r with
            | None => Throw URIError
            | Some (octets, used) =>
                rest <- decodeFrom r used ;;
                Ok (map ascii_of_nat octets ++ rest)
            end
          else
            rest <- decodeFrom r 0 ;;
            Ok (c :: rest)
      end
  end.

Definition decodeURIComponent (s : string) : result string :=
  l <- decodeFrom (JS.chars s) 0 ;; Ok (JS.str l).

End URI.

(* ================================================================= *)
(** ** markdown-it tokens *)

Inductive token : Type :=
| Token (type : string) (attrs : list (string * string)) (children : list token).

Definition token_type (t : token) : string :=
  match t with Token ty _ _ => ty end.

Definition token_attrs (t : token) : list (string * string) :=
  match t with Token _ a _ => a end.

Definition token_children (t : token) : list token :=
  match t with Token _ _ c => c end.

(** [token.attrGet(name)]: the value of the first attribute of that name,
    [None] for [null]. *)
Fixpoint attrLookup (name : string) (attrs : list (string * string)) : option string :=
  match attrs with
  | [] => None
  | (k, v) :: r => if (k =? name)%string then Some v else attrLookup name r
  end.

Definition attrGet (t : token) (name : string) : option string :=
  attrLookup name (token_attrs t).

(** [a || b] on values that are a string or [null]. *)
Definition orElse (a b : option string) : option string :=
  match a with
  | Some s => if (s =? "")%string then b else a
  | None => b
  end.

(* ================================================================= *)
(** ** JSON values *)

(** A number as far as the code observes it: its [String(n)] text, whether
    it is finite and whether it is zero. *)
Record number : Type := {
  num_text : string;
  num_finite : bool;
  num_zero : bool
}.

Inductive json : Type :=
| JNull
| JBool (b : bool)
| JNumber (n : number)
| JString (s : string)
| JArray (items : list json)
| JObject (fields : list (string * json)).

(* ================================================================= *)
(** ** File system probes *)

Inductive file_kind : Type :=
| RegularFile
| Directory
| SymbolicLink
| BlockDevice
| CharacterDevice
| FIFO
| Socket.

Record Stats : Type := { kind : file_kind }.

Definition isFile (s : Stats) : bool :=
  match kind s with RegularFile => true | _ => false end.

Definition isDirectory (s : Stats) : bool :=
  match kind s with Directory => true | _ => false end.

(** The outcome of [fs.statSync]: a [Stats] object, or an exception whose
    [code] is given. *)
Inductive stat_outcome : Type :=
| StatOk (s : Stats)
| StatThrows (code : string).

(* ================================================================= *)
(** ** The host *)

Record BrokenLinkInfo : Type := {
  filePath : string;
  brokenLink : string;
  originalLink : string
}.

Class Host : Type := {
  (** [process.cwd()] is an absolute path: a slash and [cwd_tail]. *)
  cwd_tail : string;
  (** [md.parse(text, {})] *)
  md_parse : string -> list token;
  (** [JSON.parse(content)], which throws on malformed input. *)
  JSON_parse : string -> result json;
  (** [fs.statSync(path)] on the current file system. *)
  statSync : string -> stat_outcome;
  (** [vscode.workspace.findFiles(pattern, undefined, maxResults)], the
      [fsPath] of every result. *)
  findFiles : string -> nat -> result (list string);
  (** [vscode.workspace.fs.readFile(uri)] decoded to text. *)
  readFile : string -> result string;
  (** The user's answer in the quick pick of [showReplacementSelection]. *)
  showReplacementSelection : string -> list string -> string -> option string;
  (** Whether [applyLinkRepair] completes or throws. *)
  applyLinkRepair : BrokenLinkInfo -> string -> result unit
}.

Definition process_cwd `{Host} : string := "/" +++ cwd_tail.

(* ================================================================= *)
(** ** JavaScript semantics of the JSON values the notebook code touches *)

Module Json.

Fixpoint lookup (k : string) (fields : list (string * json)) : option json :=
  match fields with
  | [] => None
  | (k', v) :: r => if (k' =? k)%string then Some v else lookup k r
  end.

(** Assignment to a property the object already has: its position stays. *)
Fixpoint setField (k : string) (v : json) (fields : list (string * json))
  : list (string * json) :=
  match fields with
  | [] => [(k, v)]
  | (k', v') :: r =>
      if (k' =? k)%string then (k, v) :: r else (k', v') :: setField k v r
  end.

Definition truthy (v : json) : bool :=
  match v with
  | JNull => false
  | JBool b => b
  | JNumber n => negb (num_zero n)
  | JString s => negb (s =? "")%string
  | JArray _ => true
  | JObject _ => true
  end.

(** [v.k] for the property names the code reads ([cells], [cell_type],
    [source]), none of which is inherited from a prototype: [None] is
    [undefined]; reading a property of [null] throws. *)
Definition getProp (v : json) (k : string) : result (option json) :=
  match v with
  | JNull => Throw TypeError
  | JObject fields => Ok (lookup k fields)
  | _ => Ok None
  end.

(** What [for (const x of v)] iterates over.  A string yields its
    characters, each a primitive string. *)
Definition iterate (v : json) : result (list json) :=
  match v with
  | JArray items => Ok items
  | JString s => Ok (map (fun c => JString (String c EmptyString)) (JS.chars s))
  | _ => Throw TypeError
  end.

Section Join.
Variable elem : json -> result string.
Variable sep : string.

(** [Array.prototype.join]: [null] elements give the empty string. *)
Fixpoint joinWith (items : list json) : result string :=
  match items with
  | [] => Ok ""
  | x :: r =>
      a <- match x with JNull => Ok "" | _ => elem x end ;;
      match r with
      | [] => Ok a
      | _ => b <- joinWith r ;; Ok (a +++ sep +++ b)
      end
  end.
End Join.

(** [String(v)].  An object parsed from JSON has no callable [toString] of
    its own: one that has a [toString] entry cannot be converted, any other
    prints as [[object Object]]. *)
Fixpoint toStringJS (v : json) : result string :=
  match v with
  | JNull => Ok "null"
  | JBool b => Ok (if b then "true" else "false")
  | JNumber n => Ok (num_text n)
  | JString s => Ok s
  | JArray items => joinWith toStringJS "," items
  | JObject fields =>
      match lookup "toString" fields with
      | Some _ => Throw TypeError
      | None => Ok "[object Object]"
      end
  end.

(** [v.join(sep)] where [v] may be [undefined] or any value. *)
Definition callJoin (v : option json) (sep : string) : result string :=
  match v with
  | Some (JArray items) => joinWith toStringJS sep items
  | _ => Throw TypeError
  end.

(** [v.map(f)] *)
Definition callMap (v : json) (f : json -> result json) : result (list json) :=
  match v with
  | JArray items => mapM f items
  | _ => Throw TypeError
  end.

Definition hexChar (n : nat) : ascii :=
  match String.get n "0123456789abcdef" with
  | Some c => c
  | None => "0"%char
  end.

(** QuoteJSONString, one character.  A string of this development is the
    UTF-8 text of a JavaScript string, so it holds no lone surrogate, the
    one other code unit QuoteJSONString writes as an escape. *)
Definition quoteChar (c : ascii) : string :=
  let n := nat_of_ascii c in
  if Nat.eqb n 34 then "\" +++ String c ""
  else if Nat.eqb n 92 then "\\"
  else if Nat.eqb n 8 then "\b"
  else if Nat.eqb n 9 then "\t"
  else if Nat.eqb n 10 then "\n"
  else if Nat.eqb n 12 then "\f"
  else if Nat.eqb n 13 then "\r"
  else if Nat.ltb n 32 then
    "\u00" +++ String (hexChar (Nat.div n 16)) (String (hexChar (Nat.modulo n 16)) "")
  else String c "".

Fixpoint quoteBody (s : string) : string :=
  match s with
  | EmptyString => EmptyString
  | String c r => quoteChar c +++ quoteBody r
  end.

Definition dquote : string := String "034"%char "".
Definition newline : string := String "010"%char "".

Definition quote (s : string) : string := dquote +++ quoteBody s +++ dquote.

(** [JSON.stringify(v, null, gap)] for a non-empty [gap]; [indent] is the
    current indentation. *)
Fixpoint serialize (gap indent : string) (v : json) : string :=
  match v with
  | JNull => "null"
  | JBool b => if b then "true" else "false"
  | JNumber n => if num_finite n then num_text n else "null"
  | JString s => quote s
  | JArray items =>
      match items with
      | [] => "[]"
      | _ =>
          let inner := indent +++ gap in
          "[" +++ newline +++ inner +++
          JS.join ("," +++ newline +++ inner) (map (serialize gap inner) items) +++
          newline +++ indent +++ "]"
      end
  | JObject fields =>
      match fields with
      | [] => "{}"
      | _ =>
          let inner := indent +++ gap in
          "{" +++ newline +++ inner +++
          JS.join ("," +++ newline +++ inner)
            ((fix members (l : list (string * json)) : list string :=
                match l with
                | [] => []
                | (k, x) :: r => (quote k +++ ": " +++ serialize gap inner x) :: members r
                end) fields) +++
          newline +++ indent +++ "}"
      end
  end.

(** [JSON.stringify(v, null, 1)] *)
Definition stringify1 (v : json) : string := serialize " " "" v.

End Json.

(* ================================================================= *)
(** ** src/parser.ts *)

Module Parser.

Section WithHost.
Context `{Host}.

(** *** Link extraction *)

Definition isUrlLink (href : string) : bool :=
  JS.startsWith href "http://" || JS.startsWith href "https://".

(** The classes of the specification; the code tests them in this order. *)
Inductive link_class : Type :=
| UrlLink | AnchorLink | MailtoLink | ProtocolLink | FileLink.

Definition classify (href : string) : link_class :=
  if isUrlLink href then UrlLink
  else if JS.startsWith href "#" then AnchorLink
  else if JS.startsWith href "mailto:" then MailtoLink
  else if JS.startsWith href "javascript:" then ProtocolLink
  else FileLink.

(** Whether [.] of a regular expression refuses some character of the
    string: LF, CR, U+2028 or U+2029 (E2 80 A8 and E2 80 A9 in UTF-8). *)
Fixpoint hasLineTerminator (l : list ascii) : bool :=
  match l with
  | [] => false
  | c :: r =>
      Ascii.eqb c "010" || Ascii.eqb c "013" ||
      match l with
      | "226"%char :: "128"%char :: c3 :: _ =>
          Ascii.eqb c3 "168" || Ascii.eqb c3 "169"
      | _ => false
      end || hasLineTerminator r
  end.

(** [href.replace(/^<(.+)>$/, '$1')] *)
Definition stripAngleBrackets (href : string) : string :=
  match JS.chars href with
  | "<"%char :: r =>
      match rev r with
      | ">"%char :: revInner =>
          match revInner with
          | [] => href
          | _ => if hasLineTerminator (rev revInner) then href
                 else JS.str (rev revInner)
          end
      | _ => href
      end
  | _ => href
  end.

(** [/^https?:\/\//.test(href)] *)
Definition hasHttpProtocol (href : string) : bool :=
  JS.startsWith href "http://" || JS.startsWith href "https://".

Definition normalizeLink (href baseDir : string) : result string :=
  if Path.isAbsolute href || hasHttpProtocol href then Ok href
  else
    decodedHref <- URI.decodeURIComponent href ;;
    Ok (Path.resolve process_cwd [baseDir; decodedHref]).

(** [walkTokens(tokens, callback)]: every token, then its children. *)
Section Walk.
Context {S : Type}.
Variable callback : token -> S -> result S.

Fixpoint walkToken (t : token) (s : S) : result S :=
  match t with
  | Token _ _ children =>
      s1 <- callback t s ;;
      (fix walkList (l : list token) (s : S) : result S :=
         match l with
         | [] => Ok s
         | t' :: r => s' <- walkToken t' s ;; walkList r s'
         end) children s1
  end.

Fixpoint walkTokens (tokens : list token) (s : S) : result S :=
  match tokens with
  | [] => Ok s
  | t :: r => s' <- walkToken t s ;; walkTokens r s'
  end.
End Walk.

(** The variables the callback of [extractMarkdownLinks] updates. *)
Record ExtractState : Type := {
  links : list string;
  urlCount : nat;
  unsupportedCount : nat
}.

Definition extractCallback (baseDir : string) (t : token) (st : ExtractState)
  : result ExtractState :=
  if (token_type t =? "link_open")%string || (token_type t =? "image")%string then
    match orElse (attrGet t "href") (attrGet t "src") with
    | None => Ok st
    | Some href0 =>
        if (href0 =? "")%string then Ok st
        else
          let href := stripAngleBrackets href0 in
          if isUrlLink href then
            Ok {| links := links st; urlCount := S (urlCount st);
                  unsupportedCount := unsupportedCount st |}
          else if JS.startsWith href "#" || JS.startsWith href "mailto:"
                  || JS.startsWith href "javascript:" then
            Ok {| links := links st; urlCount := urlCount st;
                  unsupportedCount := S (unsupportedCount st) |}
          else
            normalized <- normalizeLink href baseDir ;;
            Ok {| links := links st ++ [normalized]; urlCount := urlCount st;
                  unsupportedCount := unsupportedCount st |}
    end
  else Ok st.

(** The body of [extractMarkdownLinks] after [md.parse]. *)
Definition extractFromTokens (tokens : list token) (baseDir : string)
  : result (list string) :=
  st <- walkTokens (extractCallback baseDir) tokens
          {| links := []; urlCount := 0; unsupportedCount := 0 |} ;;
  Ok (links st).

Definition extractMarkdownLinks (text baseDir : string) : result (list string) :=
  extractFromTokens (md_parse text) baseDir.

(** *** Notebooks *)

Definition isMarkdownType (v : option json) : bool :=
  match v with
  | Some (JString s) => (s =? "markdown")%string
  | _ => false
  end.

(** [data.cells || []], as the loop iterates it. *)
Definition cellsOf (data : json) : result (list json) :=
  cells <- Json.getProp data "cells" ;;
  match cells with
  | Some v => if Json.truthy v then Json.iterate v else Ok []
  | None => Ok []
  end.

Definition extractCell (baseDir : string) (acc : list string) (cell : json)
  : result (list string) :=
  cell_type <- Json.getProp cell "cell_type" ;;
  if isMarkdownType cell_type then
    source <- Json.getProp cell "source" ;;
    text <- Json.callJoin source "" ;;
    found <- extractMarkdownLinks text baseDir ;;
    Ok (acc ++ found)
  else Ok acc.

Fixpoint foldM {A B : Type} (f : A -> B -> result A) (l : list B) (a : A) : result A :=
  match l with
  | [] => Ok a
  | b :: r => a' <- f a b ;; foldM f r a'
  end.

(** The [try] block of [extractLinksFromNotebook]. *)
Definition extractNotebookBody (content baseDir : string) : result (list string) :=
  data <- JSON_parse content ;;
  cells <- cellsOf data ;;
  foldM (extractCell baseDir) cells [].

Definition extractLinksFromNotebook (content baseDir : string) : list string :=
  try_catch (extractNotebookBody content baseDir) (fun _ => []).

(** *** Broken links *)

Definition isLinkBroken (link : string) : bool :=
  match statSync link with
  | StatOk stat =>
      if isFile stat then false
      else if isDirectory stat then false
      else true
  | StatThrows code =>
      if (code =? "ENOENT")%string then true
      else if (code =? "EACCES")%string then true
      else true
  end.

(** The index is an object from file paths to link lists; it is given by
    its entries in [Object.keys] order. *)
Definition findBrokenLinks (index : list (string * list string)) : list BrokenLinkInfo :=
  flat_map
    (fun '(file, found) =>
       map (fun link => {| filePath := file; brokenLink := link; originalLink := link |})
           (filter isLinkBroken found))
    index.

(** *** Candidate search *)

Record Candidates : Type := {
  exactFolderMatches : list string;
  looseMatches : list string
}.

Definition includesStr (l : list string) (x : string) : bool :=
  existsb (fun y => (y =? x)%string) l.

Definition alternativeExtensions (ext : string) : list string :=
  if (ext =? ".md")%string then [".ipynb"]
  else if (ext =? ".ipynb")%string then [".md"; ".markdown"]
  else [].

(** One round of the loop over the alternative extensions; its [try] block
    keeps what was pushed before a search threw. *)
Definition crossFormatStep (brokenPath : Path.ParsedPath)
  (st : list string * list string) (altExt : string) : list string * list string :=
  let '(exact, loose) := st in
  let baseWithoutExt := Path.name brokenPath in
  let exactSearch :=
    if (Path.dir brokenPath =? "")%string then Ok exact
    else
      let altLastTwo :=
        Path.basename (Path.dir brokenPath) +++ Path.sep +++ baseWithoutExt +++ altExt in
      altExactMatches <- findFiles ("**/" +++ altLastTwo) 10 ;;
      Ok (exact ++ altExactMatches) in
  match exactSearch with
  | Throw _ => (exact, loose)
  | Ok exact' =>
      match findFiles ("**/" +++ baseWithoutExt +++ altExt) 10 with
      | Throw _ => (exact', loose)
      | Ok altFilenameMatches =>
          let newMatches :=
            filter (fun c => negb (includesStr exact' c) && negb (includesStr loose c))
                   altFilenameMatches in
          (exact', loose ++ newMatches)
      end
  end.

(** Search 2: the files of that name that the exact tier does not hold. *)
Definition looseSearch (base : string) (exact : list string) : list string :=
  try_catch (filenameMatches <- findFiles ("**/" +++ base) 20 ;;
             Ok (filter (fun c => negb (includesStr exact c)) filenameMatches))
            (fun _ => []).

Definition findSmartReplacementCandidates (brokenLink : string) : Candidates :=
  let brokenPath := Path.parse brokenLink in
  (* Search 1: exact folder structure match (last two components) *)
  let exact1 :=
    if (Path.dir brokenPath =? "")%string then []
    else
      let lastTwoComponents :=
        Path.basename (Path.dir brokenPath) +++ Path.sep +++ Path.base brokenPath in
      try_catch (twoComponentMatches <- findFiles ("**/" +++ lastTwoComponents) 20 ;;
                 Ok twoComponentMatches)
                (fun _ => []) in
  (* Search 2: loose filename match *)
  let loose1 := looseSearch (Path.base brokenPath) exact1 in
  (* Search 3: cross-format alternatives *)
  let '(exact2, loose2) :=
    if (Path.ext brokenPath =? "")%string then (exact1, loose1)
    else fold_left (crossFormatStep brokenPath)
                   (alternativeExtensions (Path.ext brokenPath)) (exact1, loose1) in
  {| exactFolderMatches := filter (fun c => negb (c =? brokenLink)%string) exact2;
     looseMatches := filter (fun c => negb (c =? brokenLink)%string) loose2 |}.

(** *** Relative paths and rewriting *)

Definition calculateRelativePath (fromFile toFile : string) : string :=
  let fromDir := Path.dirname fromFile in
  let relativePath := Path.relative process_cwd fromDir toFile in
  JS.replaceChar "\" "/" relativePath.

(** A match of the link expression of [updateMarkdownLinks] (an opening
    square bracket, any characters but a closing one, a closing square
    bracket, a parenthesis, an optional [<], one or more characters other
    than [>] and the closing parenthesis, an optional [>], the closing
    parenthesis): the captures [alt], [openingBrace], [link] and
    [closingBrace]. *)
Record InlineMatch : Type := {
  m_alt : list ascii;
  m_open : bool;
  m_link : list ascii;
  m_close : bool
}.

Definition notRBracket (c : ascii) : bool := negb (Ascii.eqb c "]").
Definition linkChar (c : ascii) : bool := negb (Ascii.eqb c ">" || Ascii.eqb c ")").

(** The end of the expression at the head of [l]: the longest run of link
    characters, not empty, then a closing parenthesis, with or without a
    [>] before it. *)
Definition matchLinkTail (l : list ascii) : option (list ascii * bool) :=
  match JS.takeWhile linkChar l with
  | [] => None
  | link =>
      match JS.dropWhile linkChar l with
      | ">"%char :: ")"%char :: _ => Some (link, true)
      | ")"%char :: _ => Some (link, false)
      | _ => None
      end
  end.

(** The regular expression anchored at the head of [l]; [(<)?] is tried
    with the bracket first and without it when that fails. *)
Definition matchInlineAt (l : list ascii) : option InlineMatch :=
  match l with
  | "["%char :: r1 =>
      let alt := JS.takeWhile notRBracket r1 in
      match JS.dropWhile notRBracket r1 with
      | "]"%char :: "("%char :: r3 =>
          let withBracket :=
            match r3 with
            | "<"%char :: r4 =>
                match matchLinkTail r4 with
                | Some (link, close) =>
                    Some {| m_alt := alt; m_open := true; m_link := link; m_close := close |}
                | None => None
                end
            | _ => None
            end in
          match withBracket with
          | Some m => Some m
          | None =>
              match matchLinkTail r3 with
              | Some (link, close) =>
                  Some {| m_alt := alt; m_open := false; m_link := link; m_close := close |}
              | None => None
              end
          end
      | _ => None
      end
  | _ => None
  end.

(** The image expression: the same after a [!]. *)
Definition matchImageAt (l : list ascii) : option InlineMatch :=
  match l with
  | "!"%char :: r => matchInlineAt r
  | _ => None
  end.

Definition linkPartOf (m : InlineMatch) : string :=
  (if m_open m then "<" else "") +++ JS.str (m_link m) +++ (if m_close m then ">" else "").

(** The matched text, after the [prefix] of the expression. *)
Definition matchText (prefix : string) (m : InlineMatch) : string :=
  prefix +++ "[" +++ JS.str (m_alt m) +++ "](" +++ linkPartOf m +++ ")".

(** [text.replace(regex, replacer)] for a global expression given by its
    anchored matcher: matches are sought left to right and do not overlap;
    [skip] characters belong to the match replaced before them. *)
Fixpoint replaceMatches (matchAt : list ascii -> option InlineMatch) (prefix : string)
  (replacer : string -> InlineMatch -> result string)
  (l : list ascii) (skip : nat) : result string :=
  match l with
  | [] => Ok ""
  | c :: r =>
      match skip with
      | S k => replaceMatches matchAt prefix replacer r k
      | O =>
          match matchAt l with
          | Some m =>
              let matched := matchText prefix m in
              out <- replacer matched m ;;
              rest <- replaceMatches matchAt prefix replacer r (String.length matched - 1) ;;
              Ok (out +++ rest)
          | None =>
              rest <- replaceMatches matchAt prefix replacer r 0 ;;
              Ok (String c rest)
          end
      end
  end.

Definition isRelativeLink (link : string) : bool :=
  negb (Path.isAbsolute link) &&
  negb (JS.startsWith link "http://") &&
  negb (JS.startsWith link "https://") &&
  negb (JS.startsWith link "#") &&
  negb (JS.startsWith link "mailto:") &&
  negb (JS.startsWith link "javascript:").

(** The replacer of [updateInlineLinks]. *)
Definition rewriteMatch (oldDir dummyFile : string) (matched : string) (m : InlineMatch)
  : result string :=
  let link := JS.str (m_link m) in
  if isRelativeLink link then
    target <- normalizeLink link oldDir ;;
    let newLink := calculateRelativePath dummyFile target in
    let newLink := if JS.includes newLink " " then "<" +++ newLink +++ ">" else newLink in
    Ok (JS.replaceFirst matched (linkPartOf m) newLink)
  else Ok matched.

Definition updateInlineLinks (matchAt : list ascii -> option InlineMatch) (prefix : string)
  (oldDir dummyFile text : string) : result string :=
  replaceMatches matchAt prefix (rewriteMatch oldDir dummyFile) (JS.chars text) 0.

Definition updateMarkdownLinks (text oldDir newDir : string) : result string :=
  if (oldDir =? newDir)%string then Ok text
  else
    let dummyFile := Path.join [newDir; "dummy.md"] in
    text1 <- updateInlineLinks matchInlineAt "" oldDir dummyFile text ;;
    updateInlineLinks matchImageAt "!" oldDir dummyFile text1.

(** [updateMarkdownLinks(line, oldDir, newDir)] on an element of a source
    array, the directories being different: [line.replace] exists on
    strings only. *)
Definition updateLine (oldDir newDir : string) (line : json) : result json :=
  match line with
  | JString s => s' <- updateMarkdownLinks s oldDir newDir ;; Ok (JString s')
  | _ => Throw TypeError
  end.

(** [line !== cell.source[i]] *)
Definition lineChanged (newLine oldLine : json) : bool :=
  match newLine, oldLine with
  | JString a, JString b => negb (a =? b)%string
  | _, _ => true
  end.

Definition setSource (cell : json) (newSource : list json) : json :=
  match cell with
  | JObject fields => JObject (Json.setField "source" (JArray newSource) fields)
  | _ => cell
  end.

(** The body of the loop of [updateNotebookLinks]; the cell is returned as
    the loop leaves it. *)
Definition updateCell (oldDir newDir : string) (cell : json) : result json :=
  cell_type <- Json.getProp cell "cell_type" ;;
  if isMarkdownType cell_type then
    source <- Json.getProp cell "source" ;;
    match source with
    | None => Ok cell
    | Some src =>
        if Json.truthy src then
          newSource <- Json.callMap src (updateLine oldDir newDir) ;;
          let oldSource := match src with JArray items => items | _ => [] end in
          if existsb (fun '(n, o) => lineChanged n o) (combine newSource oldSource)
          then Ok (setSource cell newSource)
          else Ok cell
        else Ok cell
    end
  else Ok cell.

(** The cells the loop updated are the elements of the array [data.cells]. *)
Definition withCells (data : json) (cells : list json) : json :=
  match data with
  | JObject fields =>
      match Json.lookup "cells" fields with
      | Some (JArray _) => JObject (Json.setField "cells" (JArray cells) fields)
      | _ => data
      end
  | _ => data
  end.

(** The loop of [updateNotebookLinks] on the parsed value. *)
Definition updateNotebookData (data : json) (oldDir newDir : string) : result json :=
  cells <- cellsOf data ;;
  cells' <- mapM (updateCell oldDir newDir) cells ;;
  Ok (withCells data cells').

Definition updateNotebookLinks (content oldDir newDir : string) : string :=
  if (oldDir =? newDir)%string then content
  else
    try_catch (data <- JSON_parse content ;;
               data' <- updateNotebookData data oldDir newDir ;;
               Ok (Json.stringify1 data'))
              (fun _ => content).

(** *** The plain candidate search *)

(** [new Set(items)] in insertion order: an element already present is not
    added again. *)
Fixpoint addAll (set items : list string) : list string :=
  match items with
  | [] => set
  | x :: r => addAll (if includesStr set x then set else set ++ [x]) r
  end.

Definition newSet (items : list string) : list string := addAll [] items.

Definition findReplacementCandidates (brokenLink : string) : list string :=
  let brokenPath := Path.parse brokenLink in
  (* matches by filename only (last component) *)
  let candidates1 :=
    try_catch (filenameMatches <- findFiles ("**/" +++ Path.base brokenPath) 20 ;;
               Ok filenameMatches)
              (fun _ => []) in
  (* last two components (folder/filename) *)
  let candidates2 :=
    if (Path.dir brokenPath =? "")%string then candidates1
    else
      let lastTwoComponents :=
        Path.basename (Path.dir brokenPath) +++ Path.sep +++ Path.base brokenPath in
      try_catch (twoComponentMatches <- findFiles ("**/" +++ lastTwoComponents) 20 ;;
                 Ok (candidates1 ++ twoComponentMatches))
                (fun _ => candidates1) in
  filter (fun candidate => negb (candidate =? brokenLink)%string) (newSet candidates2).

End WithHost.
End Parser.

(* ================================================================= *)
(** ** The extractor and the working directory *)

(** [normalizeLink] and its callers with [process.cwd()] as the call it
    is: [cwd] is the outcome of the call, an exception when the working
    directory of the process no longer exists.  [Parser] above is the case
    in which the call returns [process_cwd]. *)
Module WithCwd.

Section WithHost.
Context `{Host}.
Variable cwd : result string.

Definition normalizeLink (href baseDir : string) : result string :=
  if Path.isAbsolute href || Parser.hasHttpProtocol href then Ok href
  else
    decodedHref <- URI.decodeURIComponent href ;;
    Path.resolveIn cwd [baseDir; decodedHref].

Definition extractCallback (baseDir : string) (t : token) (st : Parser.ExtractState)
  : result Parser.ExtractState :=
  if (token_type t =? "link_open")%string || (token_type t =? "image")%string then
    match orElse (attrGet t "href") (attrGet t "src") with
    | None => Ok st
    | Some href0 =>
        if (href0 =? "")%string then Ok st
        else
          let href := Parser.stripAngleBrackets href0 in
          if Parser.isUrlLink href then
            Ok {| Parser.links := Parser.links st;
                  Parser.urlCount := S (Parser.urlCount st);
                  Parser.unsupportedCount := Parser.unsupportedCount st |}
          else if JS.startsWith href "#" || JS.startsWith href "mailto:"
                  || JS.startsWith href "javascript:" then
            Ok {| Parser.links := Parser.links st;
                  Parser.urlCount := Parser.urlCount st;
                  Parser.unsupportedCount := S (Parser.unsupportedCount st) |}
          else
            normalized <- normalizeLink href baseDir ;;
            Ok {| Parser.links := Parser.links st ++ [normalized];
                  Parser.urlCount := Parser.urlCount st;
                  Parser.unsupportedCount := Parser.unsupportedCount st |}
    end
  else Ok st.

(** The body of [extractMarkdownLinks] after [md.parse]. *)
Definition extractFromTokens (tokens : list token) (baseDir : string)
  : result (list string) :=
  st <- Parser.walkTokens (extractCallback baseDir) tokens
          {| Parser.links := []; Parser.urlCount := 0; Parser.unsupportedCount := 0 |} ;;
  Ok (Parser.links st).

Definition extractMarkdownLinks (text baseDir : string) : result (list string) :=
  extractFromTokens (md_parse text) baseDir.

End WithHost.
End WithCwd.

(* ================================================================= *)
(** ** src/src/parser.ts, the earlier copy of the parser *)

(** This copy has no [try] and no [catch]; what [path.resolve] throws when
    it reads a working directory that is gone leaves
    [extractMarkdownLinks].  [cwd] is the outcome of [process.cwd()]. *)
Module LegacyParser.

Section WithHost.
Context `{Host}.
Variable cwd : result string.

Definition normalizeLink (href baseDir : string) : result string :=
  if Path.isAbsolute href || Parser.hasHttpProtocol href then Ok href
  else Path.resolveIn cwd [baseDir; href].

(** The callback pushes every target, whatever its form. *)
Definition extractCallback (baseDir : string) (t : token) (links : list string)
  : result (list string) :=
  if (token_type t =? "link_open")%string || (token_type t =? "image")%string then
    match orElse (attrGet t "href") (attrGet t "src") with
    | None => Ok links
    | Some href =>
        if (href =? "")%string then Ok links
        else
          normalized <- normalizeLink href baseDir ;;
          Ok (links ++ [normalized])
    end
  else Ok links.

Definition extractFromTokens (tokens : list token) (baseDir : string)
  : result (list string) :=
  Parser.walkTokens (extractCallback baseDir) tokens [].

Definition extractMarkdownLinks (text baseDir : string) : result (list string) :=
  extractFromTokens (md_parse text) baseDir.

End WithHost.
End LegacyParser.

(* ================================================================= *)
(** ** src/extension.ts *)

Module Extension.

Section WithHost.
Context `{Host}.

(** [parseFile(uri)], the registry being available; [fsPath] is
    [uri.fsPath]. *)
Definition parseFile (fsPath : string) : list string :=
  try_catch
    (text <- readFile fsPath ;;
     let baseDir := Path.dirname fsPath in
     if JS.endsWith fsPath ".md" then Parser.extractMarkdownLinks text baseDir
     else if JS.endsWith fsPath ".ipynb" then Ok (Parser.extractLinksFromNotebook text baseDir)
     else Ok [])
    (fun _ => []).

(** What [fixBrokenLinks] does that its environment can see. *)
Inductive repair_event : Type :=
| ErrorMessage (message : string)
| NoBrokenLinksMessage
| QuickPick (brokenPath : string) (candidates : list string) (sourceFile : string)
| RepairCall (info : BrokenLinkInfo) (replacement : string)
| SummaryMessage (fixed skipped : nat).

Inductive skip_type : Type := noCandidates | userSkipped.

Record SkipDetail : Type := {
  skipKind : skip_type;
  skippedLink : string;
  filesAffected : nat;
  reportedMatches : list string;
  examples : list string
}.

Record RepairState : Type := {
  totalFixed : nat;
  totalSkipped : nat;
  skipDetails : list SkipDetail;
  processed : list string;
  events : list repair_event
}.

(** [brokenLinksByPath]: a [Map] from the broken path to the records that
    carry it, in insertion order. *)
Fixpoint addToGroup (b : BrokenLinkInfo) (groups : list (string * list BrokenLinkInfo))
  : list (string * list BrokenLinkInfo) :=
  match groups with
  | [] => [(brokenLink b, [b])]
  | (k, l) :: r =>
      if (k =? brokenLink b)%string then (k, l ++ [b]) :: r
      else (k, l) :: addToGroup b r
  end.

Definition groupByPath (l : list BrokenLinkInfo) : list (string * list BrokenLinkInfo) :=
  fold_left (fun groups b => addToGroup b groups) l [].

(** The loop that applies one replacement to every record of a group:
    the calls made and [fixedCount]. *)
Definition applyToAll (selectedReplacement : string) (associatedLinks : list BrokenLinkInfo)
  : list repair_event * nat :=
  (map (fun info => RepairCall info selectedReplacement) associatedLinks,
   List.length (filter (fun info => is_ok (applyLinkRepair info selectedReplacement))
                       associatedLinks)).

Definition recordFix (st : RepairState) (brokenPath : string)
  (before : list repair_event) (selectedReplacement : string)
  (associatedLinks : list BrokenLinkInfo) : RepairState :=
  let '(calls, fixedCount) := applyToAll selectedReplacement associatedLinks in
  {| totalFixed := totalFixed st + fixedCount;
     totalSkipped := totalSkipped st;
     skipDetails := skipDetails st;
     processed := processed st ++ [brokenPath];
     events := events st ++ before ++ calls |}.

Definition recordSkip (st : RepairState) (brokenPath : string)
  (before : list repair_event) (why : skip_type) (reported : list string)
  (associatedLinks : list BrokenLinkInfo) : RepairState :=
  {| totalFixed := totalFixed st;
     totalSkipped := totalSkipped st + List.length associatedLinks;
     skipDetails := skipDetails st ++
       [{| skipKind := why; skippedLink := brokenPath;
           filesAffected := List.length associatedLinks;
           reportedMatches := reported;
           examples := map filePath associatedLinks |}];
     processed := processed st ++ [brokenPath];
     events := events st ++ before |}.

(** One round of the loop over [brokenLinksByPath.entries()]. *)
Definition processBrokenPath (st : RepairState)
  (entry : string * list BrokenLinkInfo) : RepairState :=
  let '(brokenPath, associatedLinks) := entry in
  if Parser.includesStr (processed st) brokenPath then st
  else
    let found := Parser.findSmartReplacementCandidates brokenPath in
    let exactFolderMatches := Parser.exactFolderMatches found in
    let looseMatches := Parser.looseMatches found in
    if Nat.eqb (List.length exactFolderMatches) 1 then
      recordFix st brokenPath [] (hd "" exactFolderMatches) associatedLinks
    else if Nat.eqb (List.length exactFolderMatches) 0
            && Nat.eqb (List.length looseMatches) 1 then
      recordFix st brokenPath [] (hd "" looseMatches) associatedLinks
    else if Nat.ltb 1 (List.length exactFolderMatches)
            || (Nat.eqb (List.length exactFolderMatches) 0
                && Nat.ltb 1 (List.length looseMatches)) then
      let allCandidates := exactFolderMatches ++ looseMatches in
      let sourceFile := hd "" (map filePath associatedLinks) in
      let ask := QuickPick brokenPath allCandidates sourceFile in
      match showReplacementSelection brokenPath allCandidates sourceFile with
      | None => recordSkip st brokenPath [ask] userSkipped [] associatedLinks
      | Some selectedReplacement =>
          recordFix st brokenPath [ask] selectedReplacement associatedLinks
      end
    else
      let again := Parser.findSmartReplacementCandidates brokenPath in
      recordSkip st brokenPath [] noCandidates
        (Parser.exactFolderMatches again ++ Parser.looseMatches again) associatedLinks.

(** The rounds of the loop: each entry with the state the loop has when it
    reaches it. *)
Fixpoint rounds (groups : list (string * list BrokenLinkInfo)) (st : RepairState)
  : list (RepairState * (string * list BrokenLinkInfo)) :=
  match groups with
  | [] => []
  | entry :: r => (st, entry) :: rounds r (processBrokenPath st entry)
  end.

Definition initialState : RepairState :=
  {| totalFixed := 0; totalSkipped := 0; skipDetails := []; processed := []; events := [] |}.

(** [fixBrokenLinks()]; [registry] is the link index, [None] when the
    registry is not available. *)
Definition fixBrokenLinks (registry : option (list (string * list string)))
  : RepairState :=
  match registry with
  | None =>
      {| totalFixed := 0; totalSkipped := 0; skipDetails := []; processed := [];
         events := [ErrorMessage "Registry not available. Please restart the extension."] |}
  | Some index =>
      let brokenLinks := Parser.findBrokenLinks index in
      match brokenLinks with
      | [] =>
          {| totalFixed := 0; totalSkipped := 0; skipDetails := []; processed := [];
             events := [NoBrokenLinksMessage] |}
      | _ =>
          let st := fold_left processBrokenPath (groupByPath brokenLinks) initialState in
          {| totalFixed := totalFixed st; totalSkipped := totalSkipped st;
             skipDetails := skipDetails st; processed := processed st;
             events := events st ++ [SummaryMessage (totalFixed st) (totalSkipped st)] |}
      end
  end.

(** The characters of the class of [escapeRegExp]: the syntax characters of
    a regular expression. *)
Definition isSyntaxChar (c : ascii) : bool :=
  existsb (Ascii.eqb c) (JS.chars ".*+?^${}()[]|\").

(** [string.replace(/[.*+?^${}()\[\]|\\]/ug, '\\$&')]: a backslash before
    every syntax character. *)
Fixpoint escapeRegExp (s : string) : string :=
  match s with
  | EmptyString => EmptyString
  | String c r =>
      if isSyntaxChar c then String "\" (String c (escapeRegExp r))
      else String c (escapeRegExp r)
  end.

End WithHost.
End Extension.

(* ================================================================= *)
(** ** src/registry.ts *)

Module Registry.

(** [linkIndex], an object from file paths to link lists, by its entries
    in insertion order; a file path is never an array index, so the
    entries are enumerated in that order. *)
Definition LinkIndex : Type := list (string * list string).

Fixpoint lookup (fsPath : string) (index : LinkIndex) : option (list string) :=
  match index with
  | [] => None
  | (k, v) :: r => if (k =? fsPath)%string then Some v else lookup fsPath r
  end.

(** [this.linkIndex[uri.fsPath] = links]: the entry of the path is replaced
    where it stands, a new path is added last.  [persistToDisk], which
    follows, writes the index to a file and catches its own errors; it
    leaves [linkIndex] as it is. *)
Fixpoint update (fsPath : string) (links : list string) (index : LinkIndex) : LinkIndex :=
  match index with
  | [] => [(fsPath, links)]
  | (k, v) :: r =>
      if (k =? fsPath)%string then (k, links) :: r
      else (k, v) :: update fsPath links r
  end.

(** [delete this.linkIndex[uri.fsPath]] *)
Definition remove (fsPath : string) (index : LinkIndex) : LinkIndex :=
  filter (fun entry => negb (fst entry =? fsPath)%string) index.

End Registry.

(* ================================================================= *)
(** ** Hosts for the examples *)

Module Sample.

Definition link (text href : string) : list token :=
  [Token "link_open" [("href", href)] [];
   Token "text" [] [];
   Token "link_close" [] []].

Definition image (alt src : string) : token :=
  Token "image" [("src", src); ("alt", "")] [Token "text" [] []].

Definition paragraph (inline : list token) : list token :=
  [Token "paragraph_open" [] [];
   Token "inline" [] inline;
   Token "paragraph_close" [] []].

(** The token streams of markdown-it for the documents of the examples. *)
Definition parseMarkdown (text : string) : list token :=
  if (text =? "[space](Static%20Shock.md)")%string then
    paragraph (link "space" "Static%20Shock.md")
  else if (text =? "[a](a.md)")%string then paragraph (link "a" "a.md")
  else if (text =? "[b](%FF.md)")%string then paragraph (link "b" "%FF.md")
  else if (text =? "[link](file.md)")%string then paragraph (link "link" "file.md")
  else if (text =? "[abs](/docs/Static%20Shock.md)")%string then
    paragraph (link "abs" "/docs/Static%20Shock.md")
  else if (text =? "[empty]()")%string then paragraph (link "empty" "")
  else [].

(** The tokens of [[link](https://example.com) ![image](image.png)
    [relative](../file.md)]. *)
Definition threeTargets : list token :=
  paragraph (link "link" "https://example.com"
             ++ [Token "text" [] []; image "image" "image.png"; Token "text" [] []]
             ++ link "relative" "../file.md").

Definition cell (cell_type : string) (source : list string) : json :=
  JObject [("cell_type", JString cell_type); ("source", JArray (map JString source))].

Definition notebook (cells : list json) : json := JObject [("cells", JArray cells)].

Definition q : string := Json.dquote.

Definition field (name value : string) : string := q +++ name +++ q +++ ":" +++ value.

Definition cellText (cell_type source : string) : string :=
  "{" +++ field "cell_type" (q +++ cell_type +++ q) +++ "," +++ field "source" source +++ "}".

Definition notebookText (cells : string) : string :=
  "{" +++ field "cells" ("[" +++ cells +++ "]") +++ "}".

(** The text of a notebook without cells. *)
Definition emptyNotebookText : string := notebookText "".

(** A notebook of one markdown cell and one code cell. *)
Definition mixedNotebookText : string :=
  notebookText (cellText "markdown" ("[" +++ q +++ "[link](file.md)" +++ q +++ "]") +++ ","
                +++ cellText "code" ("[" +++ q +++ "print('x')" +++ q +++ "]")).

Definition mixedNotebook : json :=
  notebook [cell "markdown" ["[link](file.md)"]; cell "code" ["print('x')"]].

(** A notebook of two markdown cells, the second with a target that is not
    the percent-encoding of anything. *)
Definition badEscapeNotebookText : string :=
  notebookText (cellText "markdown" ("[" +++ q +++ "[a](a.md)" +++ q +++ "]") +++ ","
                +++ cellText "markdown" ("[" +++ q +++ "[b](%FF.md)" +++ q +++ "]")).

Definition badEscapeNotebook : json :=
  notebook [cell "markdown" ["[a](a.md)"]; cell "markdown" ["[b](%FF.md)"]].

(** A notebook whose markdown cell gives its source as one string, as the
    notebook format allows, and not as a list of lines. *)
Definition stringSourceNotebookText : string :=
  notebookText (cellText "markdown" (q +++ "[a](a.md)" +++ q)).

Definition stringSourceNotebook : json :=
  notebook [JObject [("cell_type", JString "markdown"); ("source", JString "[a](a.md)")]].

(** [JSON.parse] on the documents of the examples. *)
Definition parseJson (content : string) : result json :=
  if (content =? emptyNotebookText)%string then Ok (notebook [])
  else if (content =? mixedNotebookText)%string then Ok mixedNotebook
  else if (content =? badEscapeNotebookText)%string then Ok badEscapeNotebook
  else if (content =? stringSourceNotebookText)%string then Ok stringSourceNotebook
  else Throw SyntaxError.

(** A workspace that holds [/w/docs/folder/name.md] and [/w/nb/name.ipynb]. *)
Definition workspaceSearch (pattern : string) (maxResults : nat) : result (list string) :=
  if (pattern =? "**/folder/name.md")%string then Ok ["/w/docs/folder/name.md"]
  else if (pattern =? "**/name.md")%string then Ok ["/w/docs/folder/name.md"]
  else if (pattern =? "**/name.ipynb")%string then Ok ["/w/nb/name.ipynb"]
  else Ok [].

Definition workspaceStat (path : string) : stat_outcome :=
  if (path =? "/w/docs/folder/name.md")%string then StatOk {| kind := RegularFile |}
  else if (path =? "/w/nb/name.ipynb")%string then StatOk {| kind := RegularFile |}
  else if (path =? "/w/docs")%string then StatOk {| kind := Directory |}
  else if (path =? "/dev/null")%string then StatOk {| kind := CharacterDevice |}
  else if (path =? "/root/secret.md")%string then StatThrows "EACCES"
  else StatThrows "ENOENT".

#[local] Instance host : Host := {|
  cwd_tail := "w";
  md_parse := parseMarkdown;
  JSON_parse := parseJson;
  statSync := workspaceStat;
  findFiles := workspaceSearch;
  readFile := fun _ => Throw (HostError "ENOENT");
  showReplacementSelection := fun _ _ _ => None;
  applyLinkRepair := fun _ _ => Ok tt
|}.



(** The record of the link to [/x/folder/name.md] in [/w/docs/index.md]. *)
Definition brokenRecord : BrokenLinkInfo :=
  {| filePath := "/w/docs/index.md";
     brokenLink := "/x/folder/name.md";
     originalLink := "/x/folder/name.md" |}.

(** The tokens of a paragraph with two links, the second with a target
    that is not the percent-encoding of anything. *)
Definition parseMarkdownMore (text : string) : list token :=
  if (text =? "[a](a.md) [b](%FF.md)")%string then
    paragraph (link "a" "a.md" ++ [Token "text" [] []] ++ link "b" "%FF.md")
  else parseMarkdown text.

(** A workspace that holds two files named [name.md]; the search returns
    no more results than asked for. *)
Definition twinSearch (pattern : string) (maxResults : nat) : result (list string) :=
  Ok (firstn maxResults
        (if (pattern =? "**/name.md")%string then ["/w/a/name.md"; "/w/b/name.md"]
         else [])).

(** The files that can be read. *)
Definition disk (fsPath : string) : result string :=
  if (fsPath =? "/w/docs/bad.md")%string then Ok "[a](a.md) [b](%FF.md)"
  else if (fsPath =? "/w/docs/good.md")%string then Ok "[a](a.md)"
  else Throw (HostError "ENOENT").

(** A user who takes the first candidate of the quick pick. *)
Definition pickFirst (brokenPath : string) (candidates : list string) (sourceFile : string)
  : option string :=
  hd_error candidates.

(** A repair that fails on one file that cannot be written. *)
Definition repairUnlessLocked (info : BrokenLinkInfo) (replacement : string) : result unit :=
  if (filePath info =? "/w/docs/locked.md")%string then Throw (HostError "EACCES")
  else Ok tt.

#[local] Instance twinHost : Host := {|
  cwd_tail := "w";
  md_parse := parseMarkdownMore;
  JSON_parse := parseJson;
  statSync := workspaceStat;
  findFiles := twinSearch;
  readFile := disk;
  showReplacementSelection := pickFirst;
  applyLinkRepair := repairUnlessLocked
|}.

(** The index of two documents that link to [/x/name.md], which does not
    exist. *)
Definition twinIndex : list (string * list string) :=
  [("/w/docs/index.md", ["/x/name.md"; "/w/docs"]);
   ("/w/docs/locked.md", ["/x/name.md"])].

End Sample.

(* ================================================================= *)
(** ** The statements' vocabulary *)

Module Spec.

Section WithHost.
Context `{Host}.

(** The tokens in the order [walkTokens] visits them. *)
Fixpoint preorder (t : token) : list token :=
  match t with
  | Token _ _ children =>
      t :: (fix go (l : list token) : list token :=
              match l with
              | [] => []
              | x :: r => preorder x ++ go r
              end) children
  end.

Definition preorderAll (tokens : list token) : list token := flat_map preorder tokens.

(** The raw target of a token, angle brackets stripped: the target of a
    link or image token that has a non-empty one. *)
Definition rawTarget (t : token) : option string :=
  if (token_type t =? "link_open")%string || (token_type t =? "image")%string then
    match orElse (attrGet t "href") (attrGet t "src") with
    | Some href => if (href =? "")%string then None
                   else Some (Parser.stripAngleBrackets href)
    | None => None
    end
  else None.

Definition targetsOf (tokens : list token) : list string :=
  flat_map (fun t => match rawTarget t with Some h => [h] | None => [] end) tokens.

(** The raw targets of a document in encounter order. *)
Definition linkTargets (tokens : list token) : list string :=
  targetsOf (preorderAll tokens).

Definition isFileClass (href : string) : bool :=
  match Parser.classify href with
  | Parser.FileLink => true
  | _ => false
  end.

(** The targets classified [file], in encounter order, duplicates kept. *)
Definition fileTargets (tokens : list token) : list string :=
  filter isFileClass (linkTargets tokens).

(** The normalized form the code gives a [file] target: an absolute target
    is kept as written, any other is percent-decoded and resolved against
    the base directory. *)
Definition normalizedAs (baseDir target normalized : string) : Prop :=
  if Path.isAbsolute target then normalized = target
  else exists decoded,
         URI.decodeURIComponent target = Ok decoded /\
         normalized = Path.resolve process_cwd [baseDir; decoded].

Fixpoint lastChar (s : string) : option ascii :=
  match s with
  | EmptyString => None
  | String c r => match r with EmptyString => Some c | _ => lastChar r end
  end.

(** A search backend that returns only paths ending with the text searched
    for, the pattern after its leading [**/]. *)
Definition honestBackend : Prop :=
  forall (query : string) (maxResults : nat) (found : list string) (p : string),
    findFiles ("**/" +++ query) maxResults = Ok found ->
    In p found ->
    exists before, p = before +++ query.

(** A segment that [normalizeSegments] keeps as it is. *)
Definition plainSegment (s : string) : Prop := s <> "" /\ s <> "." /\ s <> "..".

(** The path [resolve] normalizes for one argument, without the slash the
    loop appends. *)
Definition anchored (p : string) : string :=
  if (p =? "")%string then process_cwd
  else if Path.isAbsolute p then p
  else process_cwd +++ "/" +++ p.

(** The components of [resolve] of one argument. *)
Definition resolvedSegments (p : string) : list string :=
  Path.normalizeSegments false (JS.split "/" (anchored p)) [].

(** The two tiers share no path, and every path of the loose tier ends
    with the last character of an extension searched so far. *)
Definition tiersApart (ends : list (option ascii)) (st : list string * list string) : Prop :=
  (forall p, In p (fst st) -> In p (snd st) -> False) /\
  (forall p, In p (snd st) -> In (lastChar p) ends).

(** The links a walk has pushed, and the links it pushes after those of
    [st] for the targets it meets. *)
Definition linksOf (r : result Parser.ExtractState) : result (list string) :=
  st <- r ;; Ok (Parser.links st).

Definition pushed (baseDir : string) (st : Parser.ExtractState) (targets : list string)
  : result (list string) :=
  found <- mapM (fun h => Parser.normalizeLink h baseDir) (filter isFileClass targets) ;;
  Ok (Parser.links st ++ found).

(** [lines'] are the lines [lines], each a string rewritten by
    [updateMarkdownLinks]. *)
Definition rewrittenLines (oldDir newDir : string) (lines lines' : list json) : Prop :=
  Forall2 (fun l l' =>
             exists s s', l = JString s /\ l' = JString s' /\
                          Parser.updateMarkdownLinks s oldDir newDir = Ok s')
          lines lines'.

(** A cell after the rewrite: a markdown cell with a source array has
    every line rewritten in place, any other cell is untouched. *)
Definition rewrittenCell (oldDir newDir : string) (cell cell' : json) : Prop :=
  match cell with
  | JObject fields =>
      if Parser.isMarkdownType (Json.lookup "cell_type" fields) then
        match Json.lookup "source" fields with
        | Some (JArray lines) =>
            exists lines', rewrittenLines oldDir newDir lines lines' /\
                           cell' = JObject (Json.setField "source" (JArray lines') fields)
        | _ => cell' = cell
        end
      else cell' = cell
  | _ => cell' = cell
  end.

(** The notebook after the rewrite: the cell array keeps its length and
    its place, every other field is untouched. *)
Definition rewrittenNotebook (oldDir newDir : string) (data data' : json) : Prop :=
  match data with
  | JObject fields =>
      match Json.lookup "cells" fields with
      | Some (JArray cells) =>
          exists cells', Forall2 (rewrittenCell oldDir newDir) cells cells' /\
                         data' = JObject (Json.setField "cells" (JArray cells') fields)
      | _ => data' = data
      end
  | _ => data' = data
  end.

(** The target of a token as the earlier parser reads it: not stripped. *)
Definition rawHref (t : token) : option string :=
  if (token_type t =? "link_open")%string || (token_type t =? "image")%string then
    match orElse (attrGet t "href") (attrGet t "src") with
    | Some href => if (href =? "")%string then None else Some href
    | None => None
    end
  else None.

Definition rawHrefs (tokens : list token) : list string :=
  flat_map (fun t => match rawHref t with Some h => [h] | None => [] end)
           (preorderAll tokens).

(** SyntaxCharacter of the grammar of regular expressions: one of
    [^ $ \ . * + ? ( ) [ ] { } |]. *)
Definition syntaxCharacter (c : ascii) : bool :=
  match c with
  | "^" | "$" | "\" | "." | "*" | "+" | "?" | "(" | ")" | "[" | "]" | "{" | "}" | "|" => true
  | _ => false
  end%char.

(** The string a pattern matches when it is a sequence of PatternCharacter
    and IdentityEscape terms of that grammar, read with the [u] flag: a
    character that is not a SyntaxCharacter stands for itself, a backslash
    followed by a SyntaxCharacter or by a slash stands for the character
    that follows.  [None] for every other pattern: a bare SyntaxCharacter
    is an operator, a bracket or an error, and any other escape is a class,
    a control character or an error. *)
Fixpoint patternLiteral (pattern : string) : option string :=
  match pattern with
  | EmptyString => Some EmptyString
  | String c r =>
      if Ascii.eqb c "\" then
        match r with
        | String d r' =>
            if syntaxCharacter d || Ascii.eqb d "/"
            then option_map (String d) (patternLiteral r')
            else None
        | EmptyString => None
        end
      else if syntaxCharacter c then None
      else option_map (String c) (patternLiteral r)
  end.

(** A search backend that returns no more results than asked for. *)
Definition boundedBackend : Prop :=
  forall (pattern : string) (maxResults : nat) (found : list string),
    findFiles pattern maxResults = Ok found -> List.length found <= maxResults.

(** The quick pick returns one of the candidates it was given. *)
Definition pickIsOffered : Prop :=
  forall (brokenPath : string) (candidates : list string) (sourceFile selected : string),
    showReplacementSelection brokenPath candidates sourceFile = Some selected ->
    In selected candidates.

(** A record of [findBrokenLinks]. *)
Definition brokenRecord (doc link : string) : BrokenLinkInfo :=
  {| filePath := doc; brokenLink := link; originalLink := link |}.

(** The matches a global replacement meets in [l], left to right; [skip]
    characters belong to the match before them. *)
Fixpoint matchesIn (matchAt : list ascii -> option Parser.InlineMatch) (prefix : string)
  (l : list ascii) (skip : nat) : list Parser.InlineMatch :=
  match l with
  | [] => []
  | c :: r =>
      match skip with
      | S k => matchesIn matchAt prefix r k
      | O =>
          match matchAt l with
          | Some m =>
              m :: matchesIn matchAt prefix r
                     (String.length (Parser.matchText prefix m) - 1)
          | None => matchesIn matchAt prefix r 0
          end
      end
  end.

(** The repair calls of a run that threw. *)
Definition callFailed (e : Extension.repair_event) : bool :=
  match e with
  | Extension.RepairCall info replacement => negb (is_ok (applyLinkRepair info replacement))
  | _ => false
  end.

Definition failedCalls (events : list Extension.repair_event) : nat :=
  List.length (filter callFailed events).

(** A path that some workspace search returned. *)
Definition searchResult (p : string) : Prop :=
  exists (pattern : string) (maxResults : nat) (found : list string),
    findFiles pattern maxResults = Ok found /\ In p found.

(** A path component as a file or directory name is written: not empty,
    not [.] or [..], without slash or backslash. *)
Definition plainName (s : string) : bool :=
  negb (s =? "")%string && negb (s =? ".")%string && negb (s =? "..")%string
  && negb (JS.containsChar "/" s) && negb (JS.containsChar "\" s).

(** The absolute path of the given components. *)
Definition pathOf (segs : list string) : string := "/" +++ JS.join "/" segs.

(** The selection policy in the words of the specification: one match in
    the exact tier is selected; none there and one in the loose tier is
    selected; no candidate at all leaves the path unresolved; every other
    combination is for the user to decide. *)
Inductive selection : Type :=
| AutoSelect (chosen : string)
| Interactive (candidates : list string)
| Unresolved.

Definition policy (found : Parser.Candidates) : selection :=
  match Parser.exactFolderMatches found, Parser.looseMatches found with
  | [chosen], _ => AutoSelect chosen
  | [], [chosen] => AutoSelect chosen
  | [], [] => Unresolved
  | exact, loose => Interactive (exact ++ loose)
  end.

(** What the policy lets the flow do for a broken path and its records: a
    repair call for every record with the selected match and nothing
    before it; nothing for an unresolved path; the quick pick first, and
    then the repair calls with the user's answer if there is one, where
    the user decides. *)
Definition policyEvents (entry : string * list BrokenLinkInfo)
  : list Extension.repair_event :=
  let '(brokenPath, records) := entry in
  let calls chosen := map (fun info => Extension.RepairCall info chosen) records in
  match policy (Parser.findSmartReplacementCandidates brokenPath) with
  | AutoSelect chosen => calls chosen
  | Unresolved => []
  | Interactive candidates =>
      let sourceFile := hd "" (map filePath records) in
      Extension.QuickPick brokenPath candidates sourceFile ::
      match showReplacementSelection brokenPath candidates sourceFile with
      | Some chosen => calls chosen
      | None => []
      end
  end.

(** The records the policy leaves without repair. *)
Definition policySkipped (entry : string * list BrokenLinkInfo) : nat :=
  let '(brokenPath, records) := entry in
  match policy (Parser.findSmartReplacementCandidates brokenPath) with
  | AutoSelect _ => 0
  | Unresolved => List.length records
  | Interactive candidates =>
      match showReplacementSelection brokenPath candidates (hd "" (map filePath records)) with
      | Some _ => 0
      | None => List.length records
      end
  end.

End WithHost.
End Spec.

(* ================================================================= *)
(** ** Broken-link detection *)

Section Detection.
Context `{Host}.

(** C3: [isLinkBroken] returns false exactly when [statSync] gives the path
    a regular file or a directory; every error and every other kind of
    entry is broken. *)
Theorem isLinkBroken_false_iff (link : string) :
  Parser.isLinkBroken link = false <->
  exists stat, statSync link = StatOk stat /\
               (kind stat = RegularFile \/ kind stat = Directory).
Proof.
  unfold Parser.isLinkBroken, isFile, isDirectory.
  split.
  - destruct (statSync link) as [stat | code] eqn:E.
    + intros Hb. exists stat. split; [reflexivity |].
      destruct (kind stat); try discriminate Hb; auto.
    + destruct (code =? "ENOENT")%string; [discriminate |].
      destruct (code =? "EACCES")%string; discriminate.
  - intros (stat & -> & [K | K]); rewrite K; reflexivity.
Qed.

Lemma findBrokenLinks_In (index : list (string * list string)) (b : BrokenLinkInfo) :
  In b (Parser.findBrokenLinks index) <->
  exists found, In (filePath b, found) index /\ In (brokenLink b) found /\
                Parser.isLinkBroken (brokenLink b) = true /\
                originalLink b = brokenLink b.
Proof.
  unfold Parser.findBrokenLinks. rewrite in_flat_map. split.
  - intros ([doc found] & Hin & Hb). apply in_map_iff in Hb.
    destruct Hb as (link & <- & Hl). apply filter_In in Hl. simpl.
    exists found. tauto.
  - intros (found & Hin & Hl & Hb & Ho). exists (filePath b, found).
    split; [assumption |]. apply in_map_iff. exists (brokenLink b). split.
    + destruct b; simpl in *; subst; reflexivity.
    + apply filter_In; auto.
Qed.

End Detection.

(* ================================================================= *)
(** ** Rewriting with identical directories *)

(** C9: when the old and the new base directory are the same path, the
    markdown rewrite and the notebook rewrite return their input
    unchanged. *)
Theorem update_same_directory_noop `{Host} (text content dir : string) :
  Parser.updateMarkdownLinks text dir dir = Ok text /\
  Parser.updateNotebookLinks content dir dir = content.
Proof.
  unfold Parser.updateMarkdownLinks, Parser.updateNotebookLinks.
  rewrite String.eqb_refl. split; reflexivity.
Qed.

(* ================================================================= *)
(** ** The repair flow's selection policy *)

Section Selection.
Context `{Host}.

(** One round of the loop of [fixBrokenLinks] on a broken path not yet
    processed: one exact-tier match is applied to every record of the path
    with no question asked; no exact-tier match and one loose-tier match
    likewise; no candidate at all applies nothing and counts the records as
    skipped; every other combination opens the quick pick first and applies
    only what the user selected. *)
Theorem selection_policy (st : Extension.RepairState) (brokenPath : string)
    (associatedLinks : list BrokenLinkInfo) :
  Parser.includesStr (Extension.processed st) brokenPath = false ->
  let found := Parser.findSmartReplacementCandidates brokenPath in
  let st' := Extension.processBrokenPath st (brokenPath, associatedLinks) in
  let calls r := map (fun info => Extension.RepairCall info r) associatedLinks in
  match Parser.exactFolderMatches found, Parser.looseMatches found with
  | [m], _ => Extension.events st' = Extension.events st ++ calls m
  | [], [m] => Extension.events st' = Extension.events st ++ calls m
  | [], [] =>
      Extension.events st' = Extension.events st /\
      Extension.totalFixed st' = Extension.totalFixed st /\
      Extension.totalSkipped st' = Extension.totalSkipped st + List.length associatedLinks
  | exact, loose =>
      let candidates := exact ++ loose in
      let sourceFile := hd "" (map filePath associatedLinks) in
      let ask := Extension.QuickPick brokenPath candidates sourceFile in
      match showReplacementSelection brokenPath candidates sourceFile with
      | Some r => Extension.events st' = Extension.events st ++ ask :: calls r
      | None =>
          Extension.events st' = Extension.events st ++ [ask] /\
          Extension.totalFixed st' = Extension.totalFixed st
      end
  end.
Proof.
  intros Hnew found st' calls. subst st'.
  unfold Extension.processBrokenPath. rewrite Hnew. fold found.
  destruct (Parser.exactFolderMatches found) as [| e1 [| e2 er]] eqn:Ee;
    destruct (Parser.looseMatches found) as [| l1 [| l2 lr]] eqn:El; simpl;
    try (destruct (showReplacementSelection _ _ _));
    unfold Extension.recordFix, Extension.recordSkip, Extension.applyToAll; simpl;
    rewrite ?app_nil_r; auto.
Qed.

End Selection.

(* ================================================================= *)
(** ** Link extraction *)

Lemma bind_Ok {A B : Type} (r : result A) (k : A -> result B) (b : B) :
  bind r k = Ok b -> exists a, r = Ok a /\ k a = Ok b.
Proof. destruct r; simpl; [eauto | discriminate]. Qed.

Lemma mapM_app {A B : Type} (f : A -> result B) (l1 l2 : list A) :
  mapM f (l1 ++ l2) = (x <- mapM f l1 ;; y <- mapM f l2 ;; Ok (x ++ y)).
Proof.
  induction l1 as [| a l1 IH]; simpl.
  - destruct (mapM f l2); reflexivity.
  - destruct (f a); simpl; [| reflexivity].
    rewrite IH. destruct (mapM f l1); simpl; [| reflexivity].
    destruct (mapM f l2); reflexivity.
Qed.

Lemma mapM_Ok_Forall2 {A B : Type} (f : A -> result B) (l : list A) (out : list B) :
  mapM f l = Ok out <-> Forall2 (fun a b => f a = Ok b) l out.
Proof.
  revert out. induction l as [| a l IH]; intros out; simpl.
  - split.
    + intros [= <-]. constructor.
    + intros Hf. inversion Hf. reflexivity.
  - split.
    + intros Hm. apply bind_Ok in Hm. destruct Hm as (b & Hb & Hm).
      apply bind_Ok in Hm. destruct Hm as (bs & Hbs & [= <-]).
      constructor; [assumption | apply IH; assumption].
    + intros Hf. inversion Hf as [| ? b ? bs Hb Hbs]; subst.
      rewrite Hb. simpl. apply IH in Hbs. rewrite Hbs. reflexivity.
Qed.

Lemma token_induction (P : token -> Prop) :
  (forall ty attrs children, Forall P children -> P (Token ty attrs children)) ->
  forall t, P t.
Proof.
  intros step. fix IH 1. intros [ty attrs children]. apply step.
  induction children as [| c r IHr]; constructor; [apply IH | exact IHr].
Qed.

Section Extraction.
Context `{Host}.

Lemma preorder_unfold (ty : string) (attrs : list (string * string)) (children : list token) :
  Spec.preorder (Token ty attrs children) =
  Token ty attrs children :: Spec.preorderAll children.
Proof.
reflexivity. Qed.

Lemma targetsOf_app (l1 l2 : list token) :
  Spec.targetsOf (l1 ++ l2) = Spec.targetsOf l1 ++ Spec.targetsOf l2.
Proof. unfold Spec.targetsOf. apply flat_map_app. Qed.

(** The callback on one token: nothing for a token without target, a
    counter for a target that is not a file, one pushed link for a file. *)
Lemma extractCallback_links (baseDir : string) (t : token) (st : Parser.ExtractState) :
  Spec.linksOf (Parser.extractCallback baseDir t st) = Spec.pushed baseDir st (Spec.targetsOf [t]).
Proof.
  unfold Spec.linksOf, Spec.pushed, Spec.targetsOf, Spec.rawTarget, Parser.extractCallback. simpl.
  destruct ((token_type t =? "link_open")%string || (token_type t =? "image")%string);
    simpl; [| rewrite app_nil_r; reflexivity].
  destruct (orElse (attrGet t "href") (attrGet t "src")) as [href |];
    simpl; [| rewrite app_nil_r; reflexivity].
  destruct (href =? "")%string; simpl; [rewrite app_nil_r; reflexivity |].
  unfold Spec.isFileClass, Parser.classify.
  destruct (Parser.isUrlLink _); simpl; [rewrite app_nil_r; reflexivity |].
  destruct (JS.startsWith _ "#"); simpl; [rewrite app_nil_r; reflexivity |].
  destruct (JS.startsWith _ "mailto:"); simpl; [rewrite app_nil_r; reflexivity |].
  destruct (JS.startsWith _ "javascript:"); simpl; [rewrite app_nil_r; reflexivity |].
  destruct (Parser.normalizeLink _ baseDir); reflexivity.
Qed.

Lemma walk_step (baseDir : string) (l1 l2 : list string)
    (r : result Parser.ExtractState) (k : Parser.ExtractState -> result Parser.ExtractState)
    (st : Parser.ExtractState) :
  Spec.linksOf r = Spec.pushed baseDir st l1 ->
  (forall st', Spec.linksOf (k st') = Spec.pushed baseDir st' l2) ->
  Spec.linksOf (bind r k) = Spec.pushed baseDir st (l1 ++ l2).
Proof.
  intros H1 H2. unfold Spec.pushed in *. rewrite filter_app, mapM_app.
  destruct r as [st' | e]; simpl in *.
  - rewrite H2.
    destruct (mapM _ (filter Spec.isFileClass l1)) as [f1 |]; simpl in *; [| discriminate].
    injection H1 as H1. rewrite H1.
    destruct (mapM _ (filter Spec.isFileClass l2)); simpl; [| reflexivity].
    rewrite app_assoc. reflexivity.
  - destruct (mapM _ (filter Spec.isFileClass l1)); simpl in *; [discriminate |].
    assumption.
Qed.

Lemma walkToken_links (baseDir : string) (t : token) :
  forall st, Spec.linksOf (Parser.walkToken (Parser.extractCallback baseDir) t st) =
             Spec.pushed baseDir st (Spec.targetsOf (Spec.preorder t)).
Proof.
  induction t as [ty attrs children IH] using token_induction. intros st.
  rewrite preorder_unfold.
  change (Token ty attrs children :: Spec.preorderAll children)
    with ([Token ty attrs children] ++ Spec.preorderAll children).
  rewrite targetsOf_app. simpl Parser.walkToken.
  apply walk_step; [apply extractCallback_links |].
  clear st. induction IH as [| c r Hc Hr IHr]; intros st.
  - unfold Spec.pushed. simpl. rewrite app_nil_r. reflexivity.
  - unfold Spec.preorderAll. simpl flat_map. rewrite targetsOf_app.
    apply walk_step; [apply Hc | apply IHr].
Qed.

Lemma walkTokens_links (baseDir : string) (tokens : list token) :
  forall st, Spec.linksOf (Parser.walkTokens (Parser.extractCallback baseDir) tokens st) =
             Spec.pushed baseDir st (Spec.linkTargets tokens).
Proof.
  unfold Spec.linkTargets.
  induction tokens as [| t r IH]; intros st.
  - unfold Spec.pushed. simpl. rewrite app_nil_r. reflexivity.
  - unfold Spec.preorderAll. simpl flat_map. rewrite targetsOf_app.
    simpl Parser.walkTokens. apply walk_step; [apply walkToken_links | apply IH].
Qed.

(** The extractor is the normalization of the file targets, in encounter
    order; it throws what the first failing normalization throws. *)
Lemma extractFromTokens_mapM (tokens : list token) (baseDir : string) :
  Parser.extractFromTokens tokens baseDir =
  mapM (fun h => Parser.normalizeLink h baseDir) (Spec.fileTargets tokens).
Proof.
  unfold Parser.extractFromTokens.
  pose proof (walkTokens_links baseDir tokens
                {| Parser.links := []; Parser.urlCount := 0; Parser.unsupportedCount := 0 |}) as W.
  unfold Spec.linksOf, Spec.pushed in W. simpl in W. unfold Spec.fileTargets.
  rewrite W. destruct (mapM _ _); reflexivity.
Qed.

End Extraction.

Lemma startsWith_first (s p : string) (c : ascii) (r : string) :
  p = String c r -> JS.startsWith s p = true -> exists t, s = String c t.
Proof.
  intros -> Hp. unfold JS.startsWith in Hp. destruct s as [| d t]; simpl in Hp.
  - discriminate.
  - destruct (ascii_dec c d) as [-> | _]; [eauto | discriminate].
Qed.

Lemma classify_by_prefix (h : string) :
  (Parser.classify h = Parser.UrlLink <->
     JS.startsWith h "http://" = true \/ JS.startsWith h "https://" = true) /\
  (Parser.classify h = Parser.AnchorLink <-> JS.startsWith h "#" = true) /\
  (Parser.classify h = Parser.MailtoLink <-> JS.startsWith h "mailto:" = true) /\
  (Parser.classify h = Parser.ProtocolLink <-> JS.startsWith h "javascript:" = true) /\
  (Parser.classify h = Parser.FileLink <->
     JS.startsWith h "http://" = false /\ JS.startsWith h "https://" = false /\
     JS.startsWith h "#" = false /\ JS.startsWith h "mailto:" = false /\
     JS.startsWith h "javascript:" = false).
Proof.
  unfold Parser.classify, Parser.isUrlLink.
  destruct (JS.startsWith h "http://") eqn:E1, (JS.startsWith h "https://") eqn:E2,
    (JS.startsWith h "#") eqn:E3, (JS.startsWith h "mailto:") eqn:E4,
    (JS.startsWith h "javascript:") eqn:E5; simpl;
    repeat match goal with
      | Ha : JS.startsWith h (String ?a _) = true, Hb : JS.startsWith h (String ?b _) = true
        |- _ =>
          lazymatch a with
          | b => fail
          | _ => exfalso;
                 destruct (startsWith_first h _ a _ eq_refl Ha) as (ta & Ea);
                 destruct (startsWith_first h _ b _ eq_refl Hb) as (tb & Eb);
                 congruence
          end
      end;
    repeat split; intros; try discriminate; try reflexivity; try tauto;
    try (destruct H as [? | ?]; discriminate); intuition discriminate.
Qed.

Section Normalization.
Context `{Host}.

Lemma resolveLoop_absolute (cwd : string) (l : list string) (acc : string) :
  Path.isAbsolute cwd = true ->
  snd (Path.resolveLoop (l ++ [cwd]) acc) = true.
Proof.
  intros Habs. revert acc. induction l as [| p r IH]; intros acc; simpl.
  - destruct cwd as [| c t]; [discriminate |]. simpl. simpl in Habs.
    rewrite Habs. reflexivity.
  - destruct (p =? "")%string; [apply IH |].
    destruct (Path.isAbsolute p); [reflexivity | apply IH].
Qed.

Lemma resolve_isAbsolute (args : list string) :
  Path.isAbsolute (Path.resolve process_cwd args) = true.
Proof.
  unfold Path.resolve.
  pose proof (resolveLoop_absolute process_cwd (rev args) "" eq_refl) as Hs.
  change (rev (process_cwd :: args)) with (rev args ++ [process_cwd]).
  destruct (Path.resolveLoop (rev args ++ [process_cwd]) "") as [p a].
  simpl in Hs. subst a. reflexivity.
Qed.

Lemma isFileClass_not_url (h : string) :
  Spec.isFileClass h = true -> Parser.hasHttpProtocol h = false.
Proof.
  unfold Spec.isFileClass, Parser.classify, Parser.hasHttpProtocol, Parser.isUrlLink.
  destruct (JS.startsWith h "http://" || JS.startsWith h "https://");
    [discriminate | reflexivity].
Qed.

Lemma normalizeLink_file (baseDir target normalized : string) :
  Spec.isFileClass target = true ->
  Parser.normalizeLink target baseDir = Ok normalized ->
  Path.isAbsolute normalized = true /\ Spec.normalizedAs baseDir target normalized.
Proof.
  intros Hf. unfold Parser.normalizeLink, Spec.normalizedAs.
  rewrite (isFileClass_not_url _ Hf), orb_false_r.
  destruct (Path.isAbsolute target) eqn:Ha.
  - intros [= <-]. auto.
  - intros Hn. apply bind_Ok in Hn. destruct Hn as (decoded & Hd & [= <-]).
    split; [apply resolve_isAbsolute | eauto].
Qed.

(** C1 (amended): of every target classified [file], the extractor's output
    holds an absolute path: the target itself, as written, when the target
    is an absolute path, and otherwise the percent-decoded target resolved
    against the base directory; [Static%20Shock.md] under [/home/user/docs]
    gives [/home/user/docs/Static Shock.md]. *)
Theorem file_targets_normalized (text baseDir : string) (out : list string) :
  Parser.extractMarkdownLinks text baseDir = Ok out ->
  Forall2 (fun target normalized =>
             Path.isAbsolute normalized = true /\
             Spec.normalizedAs baseDir target normalized)
          (Spec.fileTargets (md_parse text)) out
  /\ Parser.extractFromTokens
       (Sample.paragraph (Sample.link "space" "Static%20Shock.md")) "/home/user/docs"
     = Ok ["/home/user/docs/Static Shock.md"].
Proof.
  intros Hx. split; [| reflexivity].
  unfold Parser.extractMarkdownLinks in Hx. rewrite extractFromTokens_mapM in Hx.
  apply mapM_Ok_Forall2 in Hx.
  assert (Hall : Forall (fun h => Spec.isFileClass h = true) (Spec.fileTargets (md_parse text))).
  { apply Forall_forall. intros h Hin. apply filter_In in Hin. tauto. }
  induction Hx as [| target normalized targets outs Hn Hrest IH]; [constructor |].
  inversion Hall; subst. constructor; [| apply IH; assumption].
  apply normalizeLink_file; assumption.
Qed.

(** C2 (amended): a target is of exactly one class, decided by its prefix
    once a pair of enclosing angle brackets is stripped: [url] for
    [http://] and [https://], [anchor] for [#], [mailto] for [mailto:],
    [protocol] for [javascript:], [file] for none of them.  When the
    extractor returns, its sequence holds one entry, the normalized form,
    for each target that is not empty and is of class [file], in encounter
    order and with duplicates kept; a target of another class, and a token
    whose target is empty or missing, contribute no entry. *)
Theorem only_file_targets_extracted (text baseDir : string) (out : list string) :
  Parser.extractMarkdownLinks text baseDir = Ok out ->
  Forall2 (fun target entry => Parser.normalizeLink target baseDir = Ok entry)
          (filter Spec.isFileClass (Spec.linkTargets (md_parse text))) out
  /\ forall target,
       (Parser.classify target = Parser.UrlLink <->
          JS.startsWith target "http://" = true \/ JS.startsWith target "https://" = true) /\
       (Parser.classify target = Parser.AnchorLink <-> JS.startsWith target "#" = true) /\
       (Parser.classify target = Parser.MailtoLink <->
          JS.startsWith target "mailto:" = true) /\
       (Parser.classify target = Parser.ProtocolLink <->
          JS.startsWith target "javascript:" = true) /\
       (Parser.classify target = Parser.FileLink <->
          JS.startsWith target "http://" = false /\ JS.startsWith target "https://" = false /\
          JS.startsWith target "#" = false /\ JS.startsWith target "mailto:" = false /\
          JS.startsWith target "javascript:" = false).
Proof.
  intros Hx. split; [| apply classify_by_prefix].
  unfold Parser.extractMarkdownLinks in Hx. rewrite extractFromTokens_mapM in Hx.
  apply mapM_Ok_Forall2 in Hx. exact Hx.
Qed.

End Normalization.

(** C1, the claim as stated fails on an absolute target: it is returned as
    written, neither decoded nor resolved. *)
Lemma absolute_target_kept_verbatim :
  Parser.extractMarkdownLinks (H := Sample.host)
    "[abs](/docs/Static%20Shock.md)" "/home/user/docs"
  = Ok ["/docs/Static%20Shock.md"]
  /\ URI.decodeURIComponent "/docs/Static%20Shock.md" = Ok "/docs/Static Shock.md"
  /\ Path.resolve (process_cwd (H := Sample.host))
       ["/home/user/docs"; "/docs/Static Shock.md"] = "/docs/Static Shock.md"
  /\ "/docs/Static%20Shock.md" <> "/docs/Static Shock.md".
Proof. repeat split; try reflexivity. discriminate. Qed.

(** C1, an instance of the amended statement. *)
Lemma file_targets_normalized_witness :
  Forall2 (fun target normalized =>
             Path.isAbsolute normalized = true /\
             Spec.normalizedAs (H := Sample.host) "/home/user/docs" target normalized)
          ["Static%20Shock.md"] ["/home/user/docs/Static Shock.md"].
Proof.
  exact (proj1 (file_targets_normalized (H := Sample.host)
                  "[space](Static%20Shock.md)" "/home/user/docs"
                  ["/home/user/docs/Static Shock.md"] eq_refl)).
Defined.

(** C2, the claim as stated fails on an empty target: it begins with none
    of the five prefixes and yields no entry. *)
Lemma empty_target_yields_no_entry :
  Parser.extractMarkdownLinks (H := Sample.host) "[empty]()" "/home/user/docs" = Ok []
  /\ Sample.parseMarkdown "[empty]()" = Sample.paragraph (Sample.link "empty" "")
  /\ Parser.classify "" = Parser.FileLink.
Proof. repeat split; reflexivity. Qed.

(** C2, an instance of the amended statement. *)
Lemma only_file_targets_extracted_witness :
  Forall2 (fun target entry =>
             Parser.normalizeLink (H := Sample.host) target "/home/user/docs" = Ok entry)
          ["Static%20Shock.md"] ["/home/user/docs/Static Shock.md"].
Proof.
  exact (proj1 (only_file_targets_extracted (H := Sample.host)
                  "[space](Static%20Shock.md)" "/home/user/docs"
                  ["/home/user/docs/Static Shock.md"] eq_refl)).
Defined.

(** C8: a relative target whose percent-encoding is malformed makes
    [decodeURIComponent] throw, and neither [normalizeLink] nor
    [extractMarkdownLinks] nor [updateMarkdownLinks] catches it. *)
Theorem malformed_escape_escapes `{Host} (baseDir : string) :
  Parser.extractFromTokens (Sample.paragraph (Sample.link "b" "%FF.md")) baseDir
  = Throw URIError
  /\ Parser.updateMarkdownLinks "[b](%FF.md)" "/docs/old" "/docs/new" = Throw URIError.
Proof. split; reflexivity. Qed.

(** C7: a notebook whose second markdown cell holds a target with a
    malformed percent-encoding: the link of the first cell is extracted by
    the Link Extractor and is missing from the notebook's result, which is
    empty. *)
Theorem notebook_drops_links_of_good_cells :
  Parser.extractLinksFromNotebook (H := Sample.host)
    Sample.badEscapeNotebookText "/home/user/docs" = []
  /\ Parser.extractMarkdownLinks (H := Sample.host) "[a](a.md)" "/home/user/docs"
     = Ok ["/home/user/docs/a.md"]
  /\ Parser.extractMarkdownLinks (H := Sample.host) "[b](%FF.md)" "/home/user/docs"
     = Throw URIError.
Proof. repeat split; reflexivity. Qed.

(* ================================================================= *)
(** ** Strings and path segments *)

Lemma append_assoc (a b c : string) : (a +++ b) +++ c = a +++ b +++ c.
Proof. induction a as [| x a IH]; simpl; [reflexivity | rewrite IH; reflexivity]. Qed.

Lemma append_nil_r (a : string) : a +++ "" = a.
Proof. induction a as [| x a IH]; simpl; [reflexivity | rewrite IH; reflexivity]. Qed.

Lemma split_nonempty (c : ascii) (s : string) : JS.split c s <> [].
Proof.
  destruct s as [| x s]; simpl; [discriminate |].
  destruct (Ascii.eqb x c); [discriminate |].
  destruct (JS.split c s); discriminate.
Qed.

Lemma split_app (c : ascii) (a b : string) :
  JS.split c (a +++ String c b) = JS.split c a ++ JS.split c b.
Proof.
  induction a as [| x a IH]; simpl.
  - rewrite Ascii.eqb_refl. reflexivity.
  - destruct (Ascii.eqb x c); [rewrite IH; reflexivity |].
    rewrite IH. pose proof (split_nonempty c a) as Hne.
    destruct (JS.split c a); [contradiction | reflexivity].
Qed.

Lemma containsChar_app (c : ascii) (a b : string) :
  JS.containsChar c (a +++ b) = JS.containsChar c a || JS.containsChar c b.
Proof.
  induction a as [| x a IH]; simpl; [reflexivity |].
  rewrite IH, orb_assoc. reflexivity.
Qed.

Lemma split_without_sep (c : ascii) (s : string) :
  JS.containsChar c s = false -> JS.split c s = [s].
Proof.
  induction s as [| x s IH]; simpl; [reflexivity |].
  intros Hc. apply orb_false_elim in Hc. destruct Hc as [Hx Hs].
  rewrite Hx, (IH Hs). reflexivity.
Qed.

Lemma split_parts_without (c d : ascii) (s : string) :
  (d = c \/ JS.containsChar d s = false) ->
  Forall (fun x => JS.containsChar d x = false) (JS.split c s).
Proof.
  induction s as [| x s IH]; intros Hd; simpl.
  - constructor; [reflexivity | constructor].
  - assert (Hs : d = c \/ JS.containsChar d s = false).
    { destruct Hd as [-> | Hd]; [left; reflexivity |].
      simpl in Hd. apply orb_false_elim in Hd. right. tauto. }
    specialize (IH Hs).
    destruct (Ascii.eqb x c) eqn:Exc.
    + constructor; [reflexivity | exact IH].
    + pose proof (split_nonempty c s) as Hne.
      destruct (JS.split c s) as [| h t]; [contradiction |].
      inversion IH; subst. constructor; [| assumption].
      simpl. destruct Hd as [-> | Hd].
      * rewrite Exc. assumption.
      * simpl in Hd. apply orb_false_elim in Hd. destruct Hd as [-> _]. assumption.
Qed.

Lemma join_cons (sep x y : string) (l : list string) :
  JS.join sep (x :: y :: l) = x +++ sep +++ JS.join sep (y :: l).
Proof. reflexivity. Qed.

Lemma split_join (c : ascii) (l : list string) :
  l <> [] ->
  Forall (fun x => JS.containsChar c x = false) l ->
  JS.split c (JS.join (String c "") l) = l.
Proof.
  induction l as [| x [| y l] IH]; intros Hne Hall.
  - contradiction.
  - simpl. inversion Hall; subst. apply split_without_sep. assumption.
  - rewrite join_cons. change (String c "" +++ JS.join (String c "") (y :: l))
      with (String c (JS.join (String c "") (y :: l))).
    inversion Hall; subst. rewrite split_app, IH; [| discriminate | assumption].
    rewrite split_without_sep by assumption. reflexivity.
Qed.

Lemma join_without (sep : string) (d : ascii) (l : list string) :
  JS.containsChar d sep = false ->
  Forall (fun x => JS.containsChar d x = false) l ->
  JS.containsChar d (JS.join sep l) = false.
Proof.
  intros Hsep. induction l as [| x [| y l] IH]; intros Hall.
  - reflexivity.
  - inversion Hall; subst. assumption.
  - rewrite join_cons, !containsChar_app. inversion Hall; subst.
    rewrite H1, Hsep, IH by assumption. reflexivity.
Qed.

Lemma replaceChar_absent (c d : ascii) (s : string) :
  JS.containsChar c s = false -> JS.replaceChar c d s = s.
Proof.
  induction s as [| x s IH]; simpl; [reflexivity |].
  intros Hc. apply orb_false_elim in Hc. destruct Hc as [Hx Hs].
  rewrite Hx, (IH Hs). reflexivity.
Qed.

Lemma plainSegment_eqb (s : string) :
  Spec.plainSegment s ->
  (s =? "")%string = false /\ (s =? ".")%string = false /\ (s =? "..")%string = false.
Proof. intros (H1 & H2 & H3). repeat split; apply String.eqb_neq; assumption. Qed.

Lemma normalizeSegments_app (allow : bool) (xs ys res : list string) :
  Path.normalizeSegments allow (xs ++ ys) res =
  Path.normalizeSegments allow ys (rev (Path.normalizeSegments allow xs res)).
Proof.
  revert res. induction xs as [| x xs IH]; intros res; simpl.
  - rewrite rev_involutive. reflexivity.
  - destruct (x =? "")%string; [apply IH |].
    destruct (x =? ".")%string; [apply IH |].
    destruct (x =? "..")%string; [| apply IH].
    destruct res as [| top res']; [apply IH |].
    destruct (top =? "..")%string; apply IH.
Qed.

Lemma normalizeSegments_plain (segs res : list string) :
  Forall Spec.plainSegment segs ->
  Path.normalizeSegments false segs res = rev res ++ segs.
Proof.
  revert res. induction segs as [| s segs IH]; intros res Hall; simpl.
  - rewrite app_nil_r. reflexivity.
  - inversion Hall as [| ? ? Hs Hrest]; subst.
    destruct (plainSegment_eqb s Hs) as (-> & -> & ->).
    rewrite (IH _ Hrest). simpl. rewrite <- app_assoc. reflexivity.
Qed.


(** What [normalizeSegments] keeps below the root are segments of its
    input. *)
Lemma normalizeSegments_keeps (P : string -> Prop) (segs res : list string) :
  Forall P segs -> Forall P res ->
  Forall P (Path.normalizeSegments false segs res).
Proof.
  revert res. induction segs as [| s segs IH]; intros res Hsegs Hres; simpl.
  - apply Forall_rev. assumption.
  - inversion Hsegs as [| ? ? Hs Hrest]; subst.
    destruct (s =? "")%string; [apply IH; auto |].
    destruct (s =? ".")%string; [apply IH; auto |].
    destruct (s =? "..")%string.
    + destruct res as [| top res']; [apply IH; auto |].
      inversion Hres; subst.
      destruct (top =? "..")%string; apply IH; auto.
    + apply IH; auto.
Qed.

Lemma normalizeSegments_plainOut (segs res : list string) :
  Forall Spec.plainSegment res ->
  Forall Spec.plainSegment (Path.normalizeSegments false segs res).
Proof.
  revert res. induction segs as [| s segs IH]; intros res Hres; simpl.
  - apply Forall_rev. assumption.
  - destruct (s =? "")%string eqn:E1; [apply IH; assumption |].
    destruct (s =? ".")%string eqn:E2; [apply IH; assumption |].
    destruct (s =? "..")%string eqn:E3.
    + destruct res as [| top res']; [apply IH; assumption |].
      inversion Hres; subst.
      destruct (top =? "..")%string; apply IH; assumption.
    + apply IH. constructor; [| assumption].
      repeat split; apply String.eqb_neq; assumption.
Qed.



Section RoundTrip.
Context `{Host}.


Lemma resolveLoop_one (p : string) :
  Path.resolveLoop [p; process_cwd] "" = (Spec.anchored p +++ "/", true).
Proof.
  unfold Spec.anchored. simpl.
  destruct (p =? "")%string; [reflexivity |].
  destruct (Path.isAbsolute p); [reflexivity |].
  simpl. rewrite !append_assoc. reflexivity.
Qed.

Lemma normalize_trailing (segs : list string) :
  Path.normalizeSegments false (segs ++ [""]) [] = Path.normalizeSegments false segs [].
Proof. rewrite normalizeSegments_app. simpl. apply rev_involutive. Qed.

Lemma resolve_one (p : string) :
  Path.resolve process_cwd [p] = "/" +++ JS.join "/" (Spec.resolvedSegments p).
Proof.
  unfold Path.resolve. change (rev [process_cwd; p]) with [p; process_cwd].
  rewrite resolveLoop_one. unfold Path.normalizeString, Spec.resolvedSegments.
  change (Spec.anchored p +++ "/") with (Spec.anchored p +++ String "/" "").
  rewrite split_app. change (JS.split "/" "") with [""].
  rewrite normalize_trailing. reflexivity.
Qed.






Lemma anchored_absolute (p : string) : Path.isAbsolute p = true -> Spec.anchored p = p.
Proof.
  intros Ha. unfold Spec.anchored. rewrite Ha.
  destruct p; [discriminate | reflexivity].
Qed.


Lemma filter_nonempty_plain (l : list string) :
  Forall Spec.plainSegment l -> filter (fun s => negb (s =? "")%string) l = l.
Proof.
  induction 1 as [| x l Hx Hl IH]; simpl; [reflexivity |].
  destruct (plainSegment_eqb x Hx) as (-> & _). simpl. rewrite IH. reflexivity.
Qed.

Lemma segments_resolved (segs : list string) :
  Forall Spec.plainSegment segs ->
  Forall (fun x => JS.containsChar "/" x = false) segs ->
  Path.segments ("/" +++ JS.join "/" segs) = segs.
Proof.
  intros Hp Hs. unfold Path.segments. simpl.
  destruct segs as [| x l]; [reflexivity |].
  rewrite (split_join "/" (x :: l)); [| discriminate | assumption].
  apply filter_nonempty_plain. assumption.
Qed.









End RoundTrip.

(* ================================================================= *)
(** ** Candidate search *)

Lemma substring_split (n : nat) (s : string) :
  n <= String.length s ->
  String.substring 0 n s +++ JS.substr_from n s = s.
Proof.
  unfold JS.substr_from. revert n. induction s as [| c s IH]; intros n Hn.
  - destruct n; [reflexivity | simpl in Hn; lia].
  - destruct n as [| n]; simpl.
    + f_equal. clear. induction s as [| d s IH]; simpl; [reflexivity |].
      f_equal. exact IH.
    + f_equal. apply IH. simpl in Hn. lia.
Qed.

Lemma parse_base_name_ext (p : string) :
  Path.base (Path.parse p) = Path.name (Path.parse p) +++ Path.ext (Path.parse p).
Proof.
  unfold Path.parse. destruct p as [| c0 t]; [reflexivity |].
  cbv zeta.
  destruct (JS.takeWhile Path.notSlash _) as [| b0 revBase] eqn:Eb; [reflexivity |].
  destruct (Path.extScan (b0 :: revBase) None 0 0) as [[k |] preDotState];
    cbn [Path.base Path.name Path.ext]; [| symmetry; apply append_nil_r].
  match goal with |- context [if ?b then _ else _] => destruct b end;
    cbn [Path.base Path.name Path.ext]; [symmetry; apply append_nil_r |].
  symmetry. apply substring_split. lia.
Qed.

Lemma lastChar_app (a b : string) :
  b <> "" -> Spec.lastChar (a +++ b) = Spec.lastChar b.
Proof.
  intros Hb. induction a as [| c a IH]; [reflexivity |].
  simpl. rewrite IH. destruct (a +++ b) eqn:E; [| reflexivity].
  destruct a; simpl in E; [contradiction | discriminate].
Qed.

Lemma includesStr_In (l : list string) (x : string) :
  Parser.includesStr l x = true <-> In x l.
Proof.
  unfold Parser.includesStr. rewrite existsb_exists. split.
  - intros (y & Hy & Heq). apply String.eqb_eq in Heq. subst. assumption.
  - intros Hx. exists x. split; [assumption | apply String.eqb_refl].
Qed.

Lemma includesStr_false (l : list string) (x : string) :
  Parser.includesStr l x = false -> ~ In x l.
Proof.
  intros Hf Hin. apply includesStr_In in Hin. congruence.
Qed.

Section Candidates.
Context `{Host}.

Lemma honest_lastChar (q query suffix : string) (n : nat) (found : list string)
    (p : string) :
  Spec.honestBackend ->
  suffix <> "" ->
  q = query +++ suffix ->
  findFiles ("**/" +++ q) n = Ok found ->
  In p found ->
  Spec.lastChar p = Spec.lastChar suffix.
Proof.
  intros Hh Hs -> Hf Hin. destruct (Hh _ _ _ _ Hf Hin) as (before & ->).
  rewrite <- append_assoc. apply lastChar_app. assumption.
Qed.

Lemma crossFormatStep_apart (brokenPath : Path.ParsedPath) (ends : list (option ascii))
    (st : list string * list string) (altExt : string) :
  Spec.honestBackend ->
  altExt <> "" ->
  ~ In (Spec.lastChar altExt) ends ->
  Spec.tiersApart ends st ->
  Spec.tiersApart (Spec.lastChar altExt :: ends) (Parser.crossFormatStep brokenPath st altExt).
Proof.
  intros Hh Hne Hfresh [Hdis Hends]. destruct st as [exact loose]. simpl in Hdis, Hends.
  unfold Parser.crossFormatStep.
  set (exactSearch := if (Path.dir brokenPath =? "")%string then Ok exact else _).
  assert (Hexact : forall exact', exactSearch = Ok exact' ->
            forall p, In p exact' -> In p exact \/ Spec.lastChar p = Spec.lastChar altExt).
  { intros exact' He p Hp. subst exactSearch.
    destruct (Path.dir brokenPath =? "")%string.
    - injection He as <-. left. assumption.
    - apply bind_Ok in He. destruct He as (found & Hf & [= <-]).
      apply in_app_or in Hp. destruct Hp as [Hp | Hp]; [left; assumption | right].
      eapply (honest_lastChar _
               (Path.basename (Path.dir brokenPath) +++ Path.sep +++ Path.name brokenPath)
               altExt 10 found p Hh Hne); [| exact Hf | exact Hp].
      rewrite !append_assoc. reflexivity. }
  destruct exactSearch as [exact' | e].
  - specialize (Hexact exact' eq_refl).
    assert (Hdis' : forall p, In p exact' -> In p loose -> False).
    { intros p Hp Hl. destruct (Hexact p Hp) as [Hp' | Hp']; [eauto |].
      apply Hfresh. rewrite <- Hp'. apply Hends. assumption. }
    destruct (findFiles ("**/" +++ Path.name brokenPath +++ altExt) 10)
      as [altFilenameMatches | e] eqn:Ef.
    + split; simpl.
      * intros p Hp Hl. apply in_app_or in Hl. destruct Hl as [Hl | Hl]; [eauto |].
        apply filter_In in Hl. destruct Hl as [_ Hl].
        apply andb_prop in Hl. destruct Hl as [Hl _].
        apply negb_true_iff, includesStr_false in Hl. contradiction.
      * intros p Hl. apply in_app_or in Hl. destruct Hl as [Hl | Hl]; [right; auto |].
        apply filter_In in Hl. destruct Hl as [Hl _]. left. symmetry.
        exact (honest_lastChar _ (Path.name brokenPath) altExt _ _ _ Hh Hne eq_refl Ef Hl).
    + split; simpl; [exact Hdis' | intros p Hl; right; auto].
  - split; simpl; [exact Hdis | intros p Hl; right; auto].
Qed.

Lemma looseSearch_disjoint (base : string) (exact1 : list string) (p : string) :
  In p exact1 -> In p (Parser.looseSearch base exact1) -> False.
Proof.
  unfold Parser.looseSearch. intros He Hl.
  destruct (findFiles _ 20) as [found | e]; simpl in Hl; [| contradiction].
  apply filter_In in Hl. destruct Hl as [_ Hl].
  apply negb_true_iff, includesStr_false in Hl. contradiction.
Qed.

Lemma looseSearch_apart (brokenLink : string) (exact1 : list string) :
  Spec.honestBackend ->
  Path.ext (Path.parse brokenLink) <> "" ->
  Spec.tiersApart [Spec.lastChar (Path.ext (Path.parse brokenLink))]
             (exact1, Parser.looseSearch (Path.base (Path.parse brokenLink)) exact1).
Proof.
  intros Hh Hext. split; simpl.
  - intros p. apply looseSearch_disjoint.
  - intros p Hl. left. symmetry. unfold Parser.looseSearch in Hl.
    destruct (findFiles _ 20) as [found | e] eqn:Ef; simpl in Hl; [| contradiction].
    apply filter_In in Hl. destruct Hl as [Hl _].
    exact (honest_lastChar _ _ _ _ _ _ Hh Hext (parse_base_name_ext brokenLink) Ef Hl).
Qed.

Lemma crossFormat_apart (brokenLink : string) (exact1 : list string) :
  Spec.honestBackend ->
  let brokenPath := Path.parse brokenLink in
  let st := fold_left (Parser.crossFormatStep brokenPath)
              (Parser.alternativeExtensions (Path.ext brokenPath))
              (exact1, Parser.looseSearch (Path.base brokenPath) exact1) in
  forall p, In p (fst st) -> In p (snd st) -> False.
Proof.
  intros Hh brokenPath st. subst st. unfold Parser.alternativeExtensions.
  destruct (String.eqb_spec (Path.ext brokenPath) ".md") as [Emd | _].
  - pose proof (looseSearch_apart brokenLink exact1 Hh) as H0. fold brokenPath in H0.
    rewrite Emd in H0. specialize (H0 ltac:(discriminate)).
    apply (crossFormatStep_apart brokenPath _ _ ".ipynb" Hh) in H0;
      [exact (proj1 H0) | discriminate |].
    simpl. intros [Hx | []]. discriminate.
  - destruct (String.eqb_spec (Path.ext brokenPath) ".ipynb") as [Enb | _].
    + pose proof (looseSearch_apart brokenLink exact1 Hh) as H0. fold brokenPath in H0.
      rewrite Enb in H0. specialize (H0 ltac:(discriminate)).
      apply (crossFormatStep_apart brokenPath _ _ ".md" Hh) in H0;
        [| discriminate | simpl; intros [Hx | []]; discriminate].
      apply (crossFormatStep_apart brokenPath _ _ ".markdown" Hh) in H0;
        [exact (proj1 H0) | discriminate |].
      simpl. intros [Hx | [Hx | []]]; discriminate.
    + simpl. intros p. apply looseSearch_disjoint.
Qed.

(** What the code does keep of the tiers: the broken path is in neither
    tier of the set [findSmartReplacementCandidates] returns, whatever the
    searches answer; and the two tiers hold no path in common as long as
    every search returns only paths that end with the text searched for,
    so that the push without a check is never put to the test. *)
Theorem candidate_tiers (brokenLink : string) :
  let found := Parser.findSmartReplacementCandidates brokenLink in
  ~ In brokenLink (Parser.exactFolderMatches found) /\
  ~ In brokenLink (Parser.looseMatches found) /\
  (Spec.honestBackend ->
   forall p, In p (Parser.exactFolderMatches found) ->
             In p (Parser.looseMatches found) -> False).
Proof.
  unfold Parser.findSmartReplacementCandidates.
  set (brokenPath := Path.parse brokenLink).
  set (exact1 := if (Path.dir brokenPath =? "")%string then [] else _).
  fold (Parser.looseSearch (Path.base brokenPath) exact1).
  assert (Hnot : forall l, ~ In brokenLink
                   (filter (fun c => negb (c =? brokenLink)%string) l)).
  { intros l Hin. apply filter_In in Hin. destruct Hin as [_ Hin].
    rewrite String.eqb_refl in Hin. discriminate. }
  pose proof (crossFormat_apart brokenLink exact1) as Hcross.
  cbv zeta in Hcross. fold brokenPath in Hcross.
  destruct (Path.ext brokenPath =? "")%string.
  - cbv zeta. cbn [Parser.exactFolderMatches Parser.looseMatches].
    split; [apply Hnot |]. split; [apply Hnot |].
    intros _ p He Hl. apply filter_In in He, Hl.
    destruct He as [He _], Hl as [Hl _]. exact (looseSearch_disjoint _ _ _ He Hl).
  - destruct (fold_left _ _ _) as [exact2 loose2].
    cbv zeta. cbn [Parser.exactFolderMatches Parser.looseMatches].
    split; [apply Hnot |]. split; [apply Hnot |].
    intros Hh p He Hl. apply filter_In in He, Hl.
    destruct He as [He _], Hl as [Hl _]. exact (Hcross Hh p He Hl).
Qed.

End Candidates.

(* ================================================================= *)
(** ** Notebook rewriting *)

(** The loop returned the value it was given. *)
Ltac unchanged := intros [= <-]; reflexivity.

Lemma setField_same (k : string) (v : json) (fields : list (string * json)) :
  Json.lookup k fields = Some v -> Json.setField k v fields = fields.
Proof.
  induction fields as [| [k' v'] r IH]; simpl; [discriminate |].
  destruct (String.eqb_spec k' k) as [-> | Hk].
  - intros [= ->]. reflexivity.
  - intros Hl. rewrite (IH Hl). reflexivity.
Qed.

Section NotebookRewrite.
Context `{Host}.

Lemma updateLine_rewritten (oldDir newDir : string) (lines lines' : list json) :
  mapM (Parser.updateLine oldDir newDir) lines = Ok lines' ->
  Spec.rewrittenLines oldDir newDir lines lines'.
Proof.
  intros Hm. apply mapM_Ok_Forall2 in Hm. unfold Spec.rewrittenLines.
  eapply Forall2_impl; [| exact Hm]. intros l l' Hl.
  destruct l; simpl in Hl; try discriminate.
  apply bind_Ok in Hl. destruct Hl as (s' & Hs & [= <-]). eauto.
Qed.

Lemma unchanged_lines (oldDir newDir : string) (lines lines' : list json) :
  Spec.rewrittenLines oldDir newDir lines lines' ->
  existsb (fun '(n, o) => Parser.lineChanged n o) (combine lines' lines) = false ->
  lines' = lines.
Proof.
  intros Hr. induction Hr as [| l l' ls ls' Hl _ IH]; [reflexivity |].
  destruct Hl as (s & s' & -> & -> & _).
  simpl. intros Hex. apply orb_false_elim in Hex. destruct Hex as [Hl Hr].
  apply negb_false_iff, String.eqb_eq in Hl. subst. rewrite (IH Hr). reflexivity.
Qed.

Lemma updateCell_rewritten (oldDir newDir : string) (cell cell' : json) :
  Parser.updateCell oldDir newDir cell = Ok cell' ->
  Spec.rewrittenCell oldDir newDir cell cell'.
Proof.
  unfold Parser.updateCell, Spec.rewrittenCell.
  destruct cell as [| b | n | s | items | fields]; simpl;
    try discriminate; try (unchanged).
  destruct (Parser.isMarkdownType (Json.lookup "cell_type" fields));
    simpl; [| unchanged].
  destruct (Json.lookup "source" fields) as [src |] eqn:Es;
    [| unchanged].
  destruct src as [| b | n | s | lines | fs]; simpl;
    try (destruct (Json.truthy _); simpl; [discriminate | unchanged]);
    try (unchanged).
  - destruct b; [discriminate | unchanged].
  - destruct (negb (num_zero n)); [discriminate | unchanged].
  - destruct (negb (s =? "")%string); [discriminate | unchanged].
  - destruct (mapM (Parser.updateLine oldDir newDir) lines) as [newSource |] eqn:Em;
      simpl; [| discriminate].
    pose proof (updateLine_rewritten _ _ _ _ Em) as Hr.
    destruct (existsb _ _) eqn:Ex; intros [= <-].
    + exists newSource. split; [assumption | reflexivity].
    + exists newSource. split; [assumption |].
      rewrite (unchanged_lines _ _ _ _ Hr Ex), (setField_same _ _ _ Es). reflexivity.
Qed.

Lemma mapM_id {A : Type} (f : A -> result A) (l : list A) :
  Forall (fun a => f a = Ok a) l -> mapM f l = Ok l.
Proof.
  induction 1 as [| a l Ha _ IH]; simpl; [reflexivity |].
  rewrite Ha. simpl. rewrite IH. reflexivity.
Qed.

Lemma updateNotebookData_rewritten (oldDir newDir : string) (data data' : json) :
  Parser.updateNotebookData data oldDir newDir = Ok data' ->
  Spec.rewrittenNotebook oldDir newDir data data'.
Proof.
  unfold Parser.updateNotebookData, Parser.cellsOf, Spec.rewrittenNotebook.
  destruct data as [| b | n | s | items | fields]; simpl;
    try discriminate; try (unchanged).
  destruct (Json.lookup "cells" fields) as [v |] eqn:Ev; simpl.
  - destruct v as [| b | n | s | cells | fs]; simpl.
    + unchanged.
    + destruct b; simpl; [discriminate | unchanged].
    + destruct (negb (num_zero n)); simpl; [discriminate | unchanged].
    + destruct (negb (s =? "")%string); simpl; [| unchanged].
      rewrite mapM_id.
      * simpl. unchanged.
      * apply Forall_forall. intros c Hc. apply in_map_iff in Hc.
        destruct Hc as (ch & <- & _). reflexivity.
    + destruct (mapM (Parser.updateCell oldDir newDir) cells) as [cells' |] eqn:Em;
        simpl; [| discriminate].
      intros [= <-]. exists cells'. split; [| reflexivity].
      apply mapM_Ok_Forall2 in Em. eapply Forall2_impl; [| exact Em].
      intros c c'. apply updateCell_rewritten.
    + discriminate.
  - unchanged.
Qed.

(** C10 (amended): when the directories differ and the content parses,
    [updateNotebookLinks] returns, whenever the loop over the cells
    returns, the serialization, with indent 1, of the parsed value in which
    every markdown cell that has a source array has each line rewritten,
    the arrays keeping their length and every other cell and field being
    the same value; and whenever the loop throws, whatever it throws, the
    content is returned as it is.  The loop throws a [TypeError] on a value
    of another structure and the [URIError] of [decodeURIComponent] on a
    well-formed notebook with a markdown line such as [[b](%FF.md)].  The
    serialization of an empty notebook already differs from the text
    [{"cells":[]}]. *)
Theorem notebook_rewrite_serialized (content oldDir newDir : string) (data : json) :
  (oldDir =? newDir)%string = false ->
  JSON_parse content = Ok data ->
  (forall data',
     Parser.updateNotebookData data oldDir newDir = Ok data' ->
     Parser.updateNotebookLinks content oldDir newDir = Json.stringify1 data' /\
     Spec.rewrittenNotebook oldDir newDir data data')
  /\ (forall e,
        Parser.updateNotebookData data oldDir newDir = Throw e ->
        Parser.updateNotebookLinks content oldDir newDir = content)
  /\ Parser.updateNotebookData (Sample.notebook [Sample.cell "markdown" ["[b](%FF.md)"]])
        oldDir newDir = Throw URIError
  /\ Parser.updateNotebookData (Sample.notebook []) oldDir newDir = Ok (Sample.notebook [])
  /\ Json.stringify1 (Sample.notebook []) <> Sample.emptyNotebookText.
Proof.
  intros Hdirs Hparse. unfold Parser.updateNotebookLinks. rewrite Hdirs, Hparse. simpl.
  split; [| split; [| split; [| split]]].
  - intros data' Hd. rewrite Hd. simpl. split; [reflexivity |].
    apply updateNotebookData_rewritten. assumption.
  - intros e Hd. rewrite Hd. reflexivity.
  - unfold Parser.updateNotebookData, Parser.updateCell, Parser.updateLine,
      Parser.updateMarkdownLinks. simpl. rewrite Hdirs. reflexivity.
  - reflexivity.
  - discriminate.
Qed.

End NotebookRewrite.

(* ================================================================= *)
(** ** Notebook extraction *)

Section NotebookExtraction.
Context `{Host}.

Lemma extractCell_acc (baseDir : string) (acc : list string) (cell : json) :
  Parser.extractCell baseDir acc cell =
  (found <- Parser.extractCell baseDir [] cell ;; Ok (acc ++ found)).
Proof.
  unfold Parser.extractCell.
  destruct (Json.getProp cell "cell_type") as [cell_type |]; simpl; [| reflexivity].
  destruct (Parser.isMarkdownType cell_type); simpl; [| rewrite app_nil_r; reflexivity].
  destruct (Json.getProp cell "source") as [source |]; simpl; [| reflexivity].
  destruct (Json.callJoin source ""); simpl; [| reflexivity].
  destruct (Parser.extractMarkdownLinks _ baseDir); reflexivity.
Qed.

Lemma foldM_extractCell (baseDir : string) (cells : list json) (outs : list (list string)) :
  Forall2 (fun cell out => Parser.extractCell baseDir [] cell = Ok out) cells outs ->
  forall acc, Parser.foldM (Parser.extractCell baseDir) cells acc = Ok (acc ++ List.concat outs).
Proof.
  induction 1 as [| cell out cells outs Hc _ IH]; intros acc; simpl.
  - rewrite app_nil_r. reflexivity.
  - rewrite extractCell_acc, Hc. simpl. rewrite IH, app_assoc. reflexivity.
Qed.

(** A cell that is not of the markdown type contributes nothing. *)
Lemma extractCell_other_type (baseDir : string) (cell : json) (cell_type : option json) :
  Json.getProp cell "cell_type" = Ok cell_type ->
  Parser.isMarkdownType cell_type = false ->
  Parser.extractCell baseDir [] cell = Ok [].
Proof.
  intros Ht Hm. unfold Parser.extractCell. rewrite Ht. simpl. rewrite Hm. reflexivity.
Qed.

(** A markdown cell contributes what the Link Extractor finds in its
    source lines joined without separator. *)
Lemma extractCell_markdown (baseDir : string) (cell : json) (lines : list json)
    (text : string) :
  Json.getProp cell "cell_type" = Ok (Some (JString "markdown")) ->
  Json.getProp cell "source" = Ok (Some (JArray lines)) ->
  Json.joinWith Json.toStringJS "" lines = Ok text ->
  Parser.extractCell baseDir [] cell = Parser.extractMarkdownLinks text baseDir.
Proof.
  intros Ht Hs Hj. unfold Parser.extractCell. rewrite Ht. simpl. rewrite Hs. simpl.
  rewrite Hj. simpl. destruct (Parser.extractMarkdownLinks text baseDir); reflexivity.
Qed.

(** Where every cell can be read, the notebook's links are the
    concatenation, in order, of what each cell contributes; where the
    content does not parse, or a cell cannot be read, there are none. *)
Lemma extractLinksFromNotebook_concat (content baseDir : string) :
  (forall data cells outs,
     JSON_parse content = Ok data ->
     Parser.cellsOf data = Ok cells ->
     Forall2 (fun cell out => Parser.extractCell baseDir [] cell = Ok out) cells outs ->
     Parser.extractLinksFromNotebook content baseDir = List.concat outs)
  /\ (forall e, Parser.extractNotebookBody content baseDir = Throw e ->
                Parser.extractLinksFromNotebook content baseDir = []).
Proof.
  unfold Parser.extractLinksFromNotebook, Parser.extractNotebookBody. split.
  - intros data cells outs Hp Hc Hall. rewrite Hp. simpl. rewrite Hc. simpl.
    rewrite (foldM_extractCell _ _ _ Hall). reflexivity.
  - intros e He. rewrite He. reflexivity.
Qed.

End NotebookExtraction.

(* ================================================================= *)
(** ** Instances *)

Lemma sample_backend_honest : Spec.honestBackend (H := Sample.host).
Proof.
  intros query maxResults found p Hf Hin.
  change (Sample.workspaceSearch ("**/" +++ query) maxResults = Ok found) in Hf.
  unfold Sample.workspaceSearch in Hf. simpl in Hf.
  destruct (String.eqb_spec query "folder/name.md") as [-> | _].
  { injection Hf as <-. destruct Hin as [<- | []]. exists "/w/docs/". reflexivity. }
  destruct (String.eqb_spec query "name.md") as [-> | _].
  { injection Hf as <-. destruct Hin as [<- | []]. exists "/w/docs/folder/". reflexivity. }
  destruct (String.eqb_spec query "name.ipynb") as [-> | _].
  { injection Hf as <-. destruct Hin as [<- | []]. exists "/w/nb/". reflexivity. }
  injection Hf as <-. destruct Hin.
Qed.


(** The tiers of the broken path [/x/folder/name.md] in the workspace of
    the examples, whose search answers with paths that end as asked. *)
Lemma candidate_tiers_witness :
  ~ In "/x/folder/name.md" ["/w/docs/folder/name.md"] /\
  ~ In "/x/folder/name.md" ["/w/nb/name.ipynb"] /\
  (forall p, In p ["/w/docs/folder/name.md"] -> In p ["/w/nb/name.ipynb"] -> False).
Proof.
  pose proof (candidate_tiers (H := Sample.host) "/x/folder/name.md") as T.
  destruct T as (Te & Tl & Td).
  exact (conj Te (conj Tl (Td sample_backend_honest))).
Defined.

(** One round on the workspace of the examples: the exact-tier match is
    applied to the record of the broken path and no question is asked. *)
Lemma selection_policy_witness :
  Extension.events
    (Extension.processBrokenPath (H := Sample.host) Extension.initialState
       ("/x/folder/name.md", [Sample.brokenRecord]))
  = [Extension.RepairCall Sample.brokenRecord "/w/docs/folder/name.md"].
Proof.
  exact (selection_policy (H := Sample.host) Extension.initialState
           "/x/folder/name.md" [Sample.brokenRecord] eq_refl).
Defined.



(** C10, the claim as stated fails for a notebook whose markdown cell gives
    its source as one string: the content parses, the loop throws, and the
    content is returned as it is, which is not the serialization of the
    parsed value. *)
Lemma string_source_notebook_unchanged :
  JSON_parse (Host := Sample.host) Sample.stringSourceNotebookText
  = Ok Sample.stringSourceNotebook
  /\ Parser.updateNotebookLinks (H := Sample.host)
       Sample.stringSourceNotebookText "/docs/old" "/docs/new"
     = Sample.stringSourceNotebookText
  /\ Sample.stringSourceNotebookText <> Json.stringify1 Sample.stringSourceNotebook.
Proof. repeat split; try reflexivity. discriminate. Qed.

(** C10, an instance of the amended statement: the link of the markdown
    cell is rewritten, the code cell is the same, and the text is the
    serialization with indent 1. *)
Lemma notebook_rewrite_serialized_witness :
  Parser.updateNotebookLinks (H := Sample.host)
    Sample.mixedNotebookText "/docs/old" "/docs/new"
  = Json.stringify1
      (Sample.notebook [Sample.cell "markdown" ["[link](../old/file.md)"];
                        Sample.cell "code" ["print('x')"]]).
Proof.
  exact (proj1 (proj1 (notebook_rewrite_serialized (H := Sample.host)
                         Sample.mixedNotebookText "/docs/old" "/docs/new"
                         Sample.mixedNotebook eq_refl eq_refl)
                  _ eq_refl)).
Defined.

(** Scenario 3: the notebook of one markdown and one code cell. *)
Example scenario_notebook_mixed :
  Parser.extractLinksFromNotebook (H := Sample.host) Sample.mixedNotebookText "/home/user/docs"
  = ["/home/user/docs/file.md"].
Proof. reflexivity. Qed.

(** Scenario 6: malformed notebook text. *)
Example scenario_notebook_malformed :
  Parser.extractLinksFromNotebook (H := Sample.host) "{" "/home/user/docs" = [].
Proof. reflexivity. Qed.

(** Scenario 5, the whole repair run on the workspace of the examples. *)
Example scenario_auto_select :
  let st := Extension.fixBrokenLinks (H := Sample.host)
              (Some [("/w/docs/index.md", ["/x/folder/name.md"; "/w/docs/folder/name.md"])]) in
  Extension.events st
  = [Extension.RepairCall Sample.brokenRecord "/w/docs/folder/name.md";
     Extension.SummaryMessage 1 0].
Proof. reflexivity. Qed.

(** The images of a document are rewritten by both passes of
    [updateMarkdownLinks]: the link expression matches inside an image. *)
Example image_rewritten_twice :
  Parser.updateMarkdownLinks (H := Sample.host) "![i](img/x.png)" "/docs/tutorials" "/archive"
  = Ok "![i](../docs/docs/tutorials/img/x.png)"
  /\ Parser.updateMarkdownLinks (H := Sample.host) "[i](img/x.png)" "/docs/tutorials" "/archive"
     = Ok "[i](../docs/tutorials/img/x.png)".
Proof. split; reflexivity. Qed.

(** Scenario 1: the URL is dropped, the image and the relative link are
    resolved. *)
Example scenario_url_dropped `{Host} :
  Parser.extractFromTokens Sample.threeTargets "/home/user/docs"
  = Ok ["/home/user/docs/image.png"; "/home/user/file.md"].
Proof. reflexivity. Qed.

(** The earlier copy of the parser keeps the URL, as its test expects. *)
Example legacy_parser_keeps_url (cwd : result string) :
  LegacyParser.extractFromTokens cwd Sample.threeTargets "/home/user/docs"
  = Ok ["https://example.com"; "/home/user/docs/image.png"; "/home/user/file.md"].
Proof. reflexivity. Qed.

Section Throwing.
Context `{Host}.

Lemma mapM_is_ok {A B : Type} (f : A -> result B) (l : list A) :
  is_ok (mapM f l) = forallb (fun a => is_ok (f a)) l.
Proof.
  induction l as [| a l IH]; simpl; [reflexivity |].
  destruct (f a); simpl; [| reflexivity].
  rewrite <- IH. destruct (mapM f l); reflexivity.
Qed.

Lemma forallb_agree {A : Type} (f g : A -> bool) (l : list A) :
  (forall a, In a l -> f a = g a) -> forallb f l = forallb g l.
Proof.
  induction l as [| a l IH]; intros Hfg; simpl; [reflexivity |].
  rewrite (Hfg a (or_introl eq_refl)), IH; [reflexivity |].
  intros b Hb. apply Hfg. right. assumption.
Qed.

(** Where the working directory can be read, the extractor returns exactly
    when every file target that is not an absolute path can be
    percent-decoded. *)
Lemma extractFromTokens_returns_iff (tokens : list token) (baseDir : string) :
  is_ok (Parser.extractFromTokens tokens baseDir) =
  forallb (fun h => Path.isAbsolute h || is_ok (URI.decodeURIComponent h))
          (Spec.fileTargets tokens).
Proof.
  rewrite extractFromTokens_mapM, mapM_is_ok.
  apply forallb_agree. intros h Hin.
  apply filter_In in Hin. destruct Hin as [_ Hf].
  unfold Parser.normalizeLink. rewrite (isFileClass_not_url h Hf), orb_false_r.
  destruct (Path.isAbsolute h); [reflexivity |].
  destruct (URI.decodeURIComponent h); reflexivity.
Qed.

End Throwing.

Section Rounds.
Context `{Host}.

Lemma addToGroup_keys (b : BrokenLinkInfo) (groups : list (string * list BrokenLinkInfo)) :
  map fst (Extension.addToGroup b groups) =
  if Parser.includesStr (map fst groups) (brokenLink b) then map fst groups
  else map fst groups ++ [brokenLink b].
Proof.
  induction groups as [| [k l] r IH]; simpl; [reflexivity |].
  destruct (k =? brokenLink b)%string; simpl; [reflexivity |].
  rewrite IH. unfold Parser.includesStr.
  destruct (existsb _ (map fst r)); reflexivity.
Qed.

Lemma groupByPath_keys_NoDup (l : list BrokenLinkInfo) :
  NoDup (map fst (Extension.groupByPath l)).
Proof.
  unfold Extension.groupByPath.
  assert (Hgen : forall groups, NoDup (map fst groups) ->
            NoDup (map fst (fold_left (fun g b => Extension.addToGroup b g) l groups))).
  { induction l as [| b l IH]; intros groups Hnd; simpl; [assumption |].
    apply IH. rewrite addToGroup_keys.
    destruct (Parser.includesStr (map fst groups) (brokenLink b)) eqn:E; [assumption |].
    apply NoDup_app; [assumption | repeat constructor; intros [] | ].
    intros k Hk [<- | []]. apply includesStr_In in Hk. congruence. }
  apply Hgen. constructor.
Qed.

Lemma processBrokenPath_processed (st : Extension.RepairState)
    (entry : string * list BrokenLinkInfo) :
  Parser.includesStr (Extension.processed st) (fst entry) = false ->
  Extension.processed (Extension.processBrokenPath st entry) =
  Extension.processed st ++ [fst entry].
Proof.
  destruct entry as [brokenPath associatedLinks]. simpl. intros Hnew.
  unfold Extension.processBrokenPath. rewrite Hnew.
  repeat match goal with
         | |- context [if ?b then _ else _] => destruct b
         | |- context [match showReplacementSelection ?a ?b ?c with _ => _ end] =>
             destruct (showReplacementSelection a b c)
         end;
    unfold Extension.recordFix, Extension.recordSkip, Extension.applyToAll; reflexivity.
Qed.

(** Every round of the loop of [fixBrokenLinks] meets a broken path the
    loop has not processed. *)
Lemma rounds_fresh (groups : list (string * list BrokenLinkInfo)) :
  NoDup (map fst groups) ->
  forall st,
    (forall k, In k (map fst groups) -> ~ In k (Extension.processed st)) ->
    Forall (fun round =>
              Parser.includesStr (Extension.processed (fst round)) (fst (snd round)) = false)
           (Extension.rounds groups st).
Proof.
  induction groups as [| entry r IH]; intros Hnd st Hfresh; simpl; [constructor |].
  inversion Hnd as [| ? ? Hhead Htail]; subst.
  assert (Hnew : Parser.includesStr (Extension.processed st) (fst entry) = false).
  { destruct (Parser.includesStr _ _) eqn:E; [| reflexivity].
    apply includesStr_In in E. exfalso. apply (Hfresh (fst entry)); [left; reflexivity | exact E]. }
  constructor; [exact Hnew |].
  apply IH; [assumption |].
  intros k Hk Hin. rewrite (processBrokenPath_processed _ _ Hnew) in Hin.
  apply in_app_or in Hin. destruct Hin as [Hin | [<- | []]].
  - apply (Hfresh k); [right; assumption | assumption].
  - contradiction.
Qed.

(** The guard [processed.has(brokenPath)] of the loop of [fixBrokenLinks]
    never fires: the keys of the grouping are distinct, so every round
    meets a broken path that no earlier round has processed. *)
Lemma fixBrokenLinks_rounds_fresh (brokenLinks : list BrokenLinkInfo) :
  Forall (fun round =>
            Parser.includesStr (Extension.processed (fst round)) (fst (snd round)) = false)
         (Extension.rounds (Extension.groupByPath brokenLinks) Extension.initialState).
Proof.
  apply rounds_fresh; [apply groupByPath_keys_NoDup |].
  intros k _ [].
Qed.

End Rounds.

(* ================================================================= *)
(** ** The selection policy in the repair flow *)

Section SelectionFlow.
Context `{Host}.

Lemma processBrokenPath_policy (st : Extension.RepairState) (brokenPath : string)
    (records : list BrokenLinkInfo) :
  Parser.includesStr (Extension.processed st) brokenPath = false ->
  let st' := Extension.processBrokenPath st (brokenPath, records) in
  Extension.events st' = Extension.events st ++ Spec.policyEvents (brokenPath, records) /\
  Extension.totalSkipped st' =
    Extension.totalSkipped st + Spec.policySkipped (brokenPath, records).
Proof.
  intros Hnew. cbv zeta.
  unfold Extension.processBrokenPath, Spec.policyEvents, Spec.policySkipped, Spec.policy.
  rewrite Hnew.
  destruct (Parser.exactFolderMatches (Parser.findSmartReplacementCandidates brokenPath))
    as [| e1 [| e2 er]];
    destruct (Parser.looseMatches (Parser.findSmartReplacementCandidates brokenPath))
      as [| l1 [| l2 lr]]; simpl;
    try (destruct (showReplacementSelection _ _ _));
    unfold Extension.recordFix, Extension.recordSkip, Extension.applyToAll; simpl;
    rewrite ?app_nil_r; split; (reflexivity || lia).
Qed.

Lemma rounds_policy (groups : list (string * list BrokenLinkInfo)) :
  NoDup (map fst groups) ->
  forall st,
    (forall k, In k (map fst groups) -> ~ In k (Extension.processed st)) ->
    let st' := fold_left Extension.processBrokenPath groups st in
    Extension.processed st' = Extension.processed st ++ map fst groups /\
    Extension.events st' = Extension.events st ++ flat_map Spec.policyEvents groups /\
    Extension.totalSkipped st' =
      Extension.totalSkipped st + list_sum (map Spec.policySkipped groups).
Proof.
  induction groups as [| [k g] r IH]; intros Hnd st Hfresh; cbv zeta.
  - simpl. rewrite !app_nil_r. repeat split. lia.
  - cbn [fold_left map fst flat_map list_sum].
    inversion Hnd as [| ? ? Hhead Htail]; subst.
    assert (Hnew : Parser.includesStr (Extension.processed st) k = false).
    { destruct (Parser.includesStr _ _) eqn:E; [| reflexivity].
      apply includesStr_In in E. exfalso. apply (Hfresh k); [left; reflexivity | exact E]. }
    destruct (processBrokenPath_policy st k g Hnew) as [He Hs].
    pose proof (processBrokenPath_processed st (k, g) Hnew) as Hp. cbn [fst] in Hp.
    destruct (IH Htail (Extension.processBrokenPath st (k, g))) as (I1 & I2 & I3).
    { intros k' Hk' Hin. rewrite Hp in Hin.
      apply in_app_or in Hin. destruct Hin as [Hin | [<- | []]].
      - apply (Hfresh k'); [right; assumption | assumption].
      - contradiction. }
    rewrite I1, I2, I3, Hp, He, Hs, <- !app_assoc. repeat split.
    change (list_sum (Spec.policySkipped (k, g) :: map Spec.policySkipped r))
      with (Spec.policySkipped (k, g) + list_sum (map Spec.policySkipped r)). lia.
Qed.

(** C5: [fixBrokenLinks], on an index with broken links, processes every
    distinct broken path once, in the order of the grouping, and does for
    each what the selection policy says: with exactly one exact-tier match
    it calls the repair of every record of the path with that match and
    asks nothing; with no exact-tier match and exactly one loose-tier match
    likewise; with no candidate at all it calls no repair and counts the
    records as skipped; in every other combination it opens the quick pick
    first and repairs only with what the user selected, counting the
    records as skipped when the user selects nothing.  Its events are those
    of the policy, path after path, and then the summary. *)
Theorem fixBrokenLinks_selection_policy (index : list (string * list string)) :
  Parser.findBrokenLinks index <> [] ->
  let groups := Extension.groupByPath (Parser.findBrokenLinks index) in
  let st := Extension.fixBrokenLinks (Some index) in
  Extension.processed st = map fst groups /\
  Extension.events st =
    flat_map Spec.policyEvents groups ++
    [Extension.SummaryMessage (Extension.totalFixed st) (Extension.totalSkipped st)] /\
  Extension.totalSkipped st = list_sum (map Spec.policySkipped groups).
Proof.
  intros Hbroken. cbv zeta. unfold Extension.fixBrokenLinks.
  destruct (Parser.findBrokenLinks index) as [| b l]; [contradiction |].
  destruct (rounds_policy (Extension.groupByPath (b :: l))
              (groupByPath_keys_NoDup (b :: l)) Extension.initialState
              (fun k _ Hin => Hin)) as (P1 & P2 & P3).
  cbn [Extension.processed Extension.events Extension.totalFixed Extension.totalSkipped].
  rewrite P1, P2, P3. repeat split.
Qed.

End SelectionFlow.

(** C5, Scenario 5: in the workspace of the examples the broken path
    [/x/folder/name.md] has one exact-tier match, and the flow applies it
    to the record of the path without asking. *)
Lemma fixBrokenLinks_selection_policy_witness :
  Parser.findBrokenLinks (H := Sample.host)
    [("/w/docs/index.md", ["/x/folder/name.md"; "/w/docs/folder/name.md"])] <> [] /\
  Extension.events
    (Extension.fixBrokenLinks (H := Sample.host)
       (Some [("/w/docs/index.md", ["/x/folder/name.md"; "/w/docs/folder/name.md"])]))
  = [Extension.RepairCall Sample.brokenRecord "/w/docs/folder/name.md";
     Extension.SummaryMessage 1 0].
Proof.
  assert (Hbroken : Parser.findBrokenLinks (H := Sample.host)
            [("/w/docs/index.md", ["/x/folder/name.md"; "/w/docs/folder/name.md"])] <> [])
    by (vm_compute; discriminate).
  split; [exact Hbroken |].
  exact (proj1 (proj2 (fixBrokenLinks_selection_policy (H := Sample.host)
                         [("/w/docs/index.md", ["/x/folder/name.md"; "/w/docs/folder/name.md"])]
                         Hbroken))).
Defined.


(* ================================================================= *)
(** * Further properties of the code *)

(** ** Extraction: targets without escapes, canonical entries *)

Section PlainTargets.
Context `{Host}.

Lemma str_chars (s : string) : JS.str (JS.chars s) = s.
Proof. apply string_of_list_ascii_of_string. Qed.

Lemma chars_str (l : list ascii) : JS.chars (JS.str l) = l.
Proof. apply list_ascii_of_string_of_list_ascii. Qed.

Lemma chars_app (a b : string) : JS.chars (a +++ b) = JS.chars a ++ JS.chars b.
Proof. induction a as [| c a IH]; simpl; [reflexivity | f_equal; exact IH]. Qed.

Lemma decodeFrom_plain (s : string) :
  JS.containsChar "%" s = false -> URI.decodeFrom (JS.chars s) 0 = Ok (JS.chars s).
Proof.
  induction s as [| c s IH]; simpl; [reflexivity |].
  intros Hc. apply orb_false_elim in Hc. destruct Hc as [Hx Hs].
  rewrite Hx, (IH Hs). reflexivity.
Qed.

Lemma decodeURIComponent_plain (s : string) :
  JS.containsChar "%" s = false -> URI.decodeURIComponent s = Ok s.
Proof.
  intros Hc. unfold URI.decodeURIComponent. rewrite (decodeFrom_plain s Hc). simpl.
  rewrite str_chars. reflexivity.
Qed.

Lemma mapM_pure {A B : Type} (f : A -> result B) (g : A -> B) (l : list A) :
  (forall a, In a l -> f a = Ok (g a)) -> mapM f l = Ok (map g l).
Proof.
  induction l as [| a l IH]; intros Hf; simpl; [reflexivity |].
  rewrite (Hf a (or_introl eq_refl)), IH; [reflexivity |].
  intros b Hb. apply Hf. right. assumption.
Qed.

Lemma foldM_app {A B : Type} (f : A -> B -> result A) (l1 l2 : list B) (a : A) :
  Parser.foldM f (l1 ++ l2) a = (a' <- Parser.foldM f l1 a ;; Parser.foldM f l2 a').
Proof.
  revert a. induction l1 as [| b l1 IH]; intros a; simpl; [reflexivity |].
  destruct (f a b); simpl; [apply IH | reflexivity].
Qed.

(** [walkTokens] calls the callback on the tokens in the order of
    [preorderAll] and stops at the first exception. *)
Lemma walkTokens_foldM {S : Type} (callback : token -> S -> result S)
    (tokens : list token) (s : S) :
  Parser.walkTokens callback tokens s =
  Parser.foldM (fun s t => callback t s) (Spec.preorderAll tokens) s.
Proof.
  assert (Htok : forall t s,
            Parser.walkToken callback t s =
            Parser.foldM (fun s t => callback t s) (Spec.preorder t) s).
  { induction t as [ty attrs children IH] using token_induction. intros s0.
    rewrite preorder_unfold. simpl Parser.walkToken. cbn [Parser.foldM].
    destruct (callback (Token ty attrs children) s0) as [s1 |]; simpl; [| reflexivity].
    clear s0. revert s1. induction IH as [| c r Hc Hr IHr]; intros s1; [reflexivity |].
    unfold Spec.preorderAll. simpl flat_map. rewrite foldM_app, Hc.
    destruct (Parser.foldM _ (Spec.preorder c) s1); simpl; [apply IHr | reflexivity]. }
  revert s. unfold Spec.preorderAll.
  induction tokens as [| t r IH]; intros s; simpl; [reflexivity |].
  rewrite foldM_app, Htok.
  destruct (Parser.foldM _ (Spec.preorder t) s); simpl; [apply IH | reflexivity].
Qed.

Lemma resolveLoop_app (l1 l2 : list string) (acc : string) :
  Path.resolveLoop (l1 ++ l2) acc =
  if snd (Path.resolveLoop l1 acc) then (fst (Path.resolveLoop l1 acc), true)
  else Path.resolveLoop l2 (fst (Path.resolveLoop l1 acc)).
Proof.
  revert acc. induction l1 as [| p r IH]; intros acc; simpl; [reflexivity |].
  destruct (p =? "")%string; [apply IH |].
  destruct (Path.isAbsolute p); [reflexivity | apply IH].
Qed.

(** [Path.resolve] is [path.resolve] where [process.cwd()] returns. *)
Lemma resolveIn_Ok (c : string) (args : list string) :
  Path.resolveIn (Ok c) args = Ok (Path.resolve c args).
Proof.
  unfold Path.resolveIn, Path.resolve.
  change (rev (c :: args)) with (rev args ++ [c]). rewrite resolveLoop_app.
  destruct (Path.resolveLoop (rev args) "") as [p a]. cbn [fst snd bind].
  destruct a; [reflexivity |].
  destruct (Path.resolveLoop [c] p) as [p' a']. reflexivity.
Qed.

(** [path.resolve] reads the working directory exactly when none of its
    arguments is absolute. *)
Lemma resolveIn_is_ok (cwd : result string) (args : list string) :
  is_ok (Path.resolveIn cwd args) = snd (Path.resolveLoop (rev args) "") || is_ok cwd.
Proof.
  unfold Path.resolveIn. destruct (Path.resolveLoop (rev args) "") as [p a]. cbn [snd].
  destruct a; [reflexivity |]. destruct cwd as [c |]; [| reflexivity].
  cbn [bind]. destruct (Path.resolveLoop [c] p). reflexivity.
Qed.


Lemma resolveIn_anchored (cwd : result string) (c : string) (args : list string) :
  snd (Path.resolveLoop (rev args) "") = true ->
  Path.resolveIn cwd args = Ok (Path.resolve c args).
Proof.
  intros Habs. rewrite <- resolveIn_Ok. unfold Path.resolveIn.
  destruct (Path.resolveLoop (rev args) "") as [p a]. cbn [snd] in Habs. subst a.
  reflexivity.
Qed.

Lemma resolveLoop_base (baseDir target : string) :
  snd (Path.resolveLoop (rev [baseDir; target]) "") =
  Path.isAbsolute target || Path.isAbsolute baseDir.
Proof.
  simpl. destruct (String.eqb_spec target "") as [-> | _].
  - destruct (String.eqb_spec baseDir "") as [-> | _]; [reflexivity |].
    simpl. destruct (Path.isAbsolute baseDir); reflexivity.
  - destruct (Path.isAbsolute target); [reflexivity |].
    destruct (String.eqb_spec baseDir "") as [-> | _]; [reflexivity |].
    simpl. destruct (Path.isAbsolute baseDir); reflexivity.
Qed.

Section WorkingDirectory.
Variable cwd : result string.

Lemma cwd_callback (baseDir : string) (t : token) (st : Parser.ExtractState) :
  (st' <- WithCwd.extractCallback cwd baseDir t st ;; Ok (Parser.links st')) =
  (found <- mapM (fun h => WithCwd.normalizeLink cwd h baseDir)
                 (filter Spec.isFileClass (Spec.targetsOf [t])) ;;
   Ok (Parser.links st ++ found)).
Proof.
  unfold Spec.targetsOf, Spec.rawTarget, WithCwd.extractCallback. simpl.
  destruct ((token_type t =? "link_open")%string || (token_type t =? "image")%string);
    simpl; [| rewrite app_nil_r; reflexivity].
  destruct (orElse (attrGet t "href") (attrGet t "src")) as [href |];
    simpl; [| rewrite app_nil_r; reflexivity].
  destruct (href =? "")%string; simpl; [rewrite app_nil_r; reflexivity |].
  unfold Spec.isFileClass, Parser.classify.
  destruct (Parser.isUrlLink _); simpl; [rewrite app_nil_r; reflexivity |].
  destruct (JS.startsWith _ "#"); simpl; [rewrite app_nil_r; reflexivity |].
  destruct (JS.startsWith _ "mailto:"); simpl; [rewrite app_nil_r; reflexivity |].
  destruct (JS.startsWith _ "javascript:"); simpl; [rewrite app_nil_r; reflexivity |].
  destruct (WithCwd.normalizeLink cwd _ baseDir); reflexivity.
Qed.

Lemma cwd_fold (baseDir : string) (tokens : list token) :
  forall st,
    (st' <- Parser.foldM (fun s t => WithCwd.extractCallback cwd baseDir t s) tokens st ;;
     Ok (Parser.links st')) =
    (found <- mapM (fun h => WithCwd.normalizeLink cwd h baseDir)
                   (filter Spec.isFileClass (Spec.targetsOf tokens)) ;;
     Ok (Parser.links st ++ found)).
Proof.
  induction tokens as [| t r IH]; intros st.
  - simpl. rewrite app_nil_r. reflexivity.
  - change (t :: r) with ([t] ++ r). rewrite targetsOf_app, filter_app, mapM_app.
    cbn [app Parser.foldM]. pose proof (cwd_callback baseDir t st) as Ht.
    destruct (WithCwd.extractCallback cwd baseDir t st) as [st1 |]; cbn [bind] in *.
    + destruct (mapM _ (filter Spec.isFileClass (Spec.targetsOf [t]))) as [f1 |];
        cbn [bind] in *; [| discriminate].
      injection Ht as Ht. rewrite IH, Ht.
      destruct (mapM _ (filter Spec.isFileClass (Spec.targetsOf r))); cbn [bind];
        [rewrite app_assoc |]; reflexivity.
    + destruct (mapM _ (filter Spec.isFileClass (Spec.targetsOf [t]))) as [f1 |];
        cbn [bind] in *; [discriminate | exact Ht].
Qed.

(** The extractor is the normalization of the file targets, in encounter
    order, whatever becomes of the working directory. *)
Lemma cwd_extractFromTokens_mapM (tokens : list token) (baseDir : string) :
  WithCwd.extractFromTokens cwd tokens baseDir =
  mapM (fun h => WithCwd.normalizeLink cwd h baseDir) (Spec.fileTargets tokens).
Proof.
  unfold WithCwd.extractFromTokens. rewrite walkTokens_foldM, cwd_fold.
  unfold Spec.fileTargets, Spec.linkTargets.
  destruct (mapM _ _); reflexivity.
Qed.

Lemma cwd_normalizeLink_is_ok (h baseDir : string) :
  Spec.isFileClass h = true ->
  is_ok (WithCwd.normalizeLink cwd h baseDir) =
  Path.isAbsolute h ||
  match URI.decodeURIComponent h with
  | Ok decoded => Path.isAbsolute decoded || Path.isAbsolute baseDir || is_ok cwd
  | Throw _ => false
  end.
Proof.
  intros Hf. unfold WithCwd.normalizeLink.
  rewrite (isFileClass_not_url h Hf), orb_false_r.
  destruct (Path.isAbsolute h); [reflexivity |].
  destruct (URI.decodeURIComponent h) as [decoded |]; [| reflexivity].
  cbn [bind orb]. rewrite resolveIn_is_ok, resolveLoop_base. reflexivity.
Qed.

End WorkingDirectory.

(** [Parser] is the extractor of a process whose working directory can be
    read. *)
Lemma extractFromTokens_cwd_returns (tokens : list token) (baseDir : string) :
  WithCwd.extractFromTokens (Ok process_cwd) tokens baseDir =
  Parser.extractFromTokens tokens baseDir.
Proof.
  rewrite cwd_extractFromTokens_mapM, extractFromTokens_mapM.
  assert (Hn : forall h, WithCwd.normalizeLink (Ok process_cwd) h baseDir =
                         Parser.normalizeLink h baseDir).
  { intros h. unfold WithCwd.normalizeLink, Parser.normalizeLink.
    destruct (Path.isAbsolute h || Parser.hasHttpProtocol h); [reflexivity |].
    destruct (URI.decodeURIComponent h); simpl; [apply resolveIn_Ok | reflexivity]. }
  induction (Spec.fileTargets tokens) as [| h r IH]; [reflexivity |].
  simpl. rewrite Hn, IH. reflexivity.
Qed.

(** With an absolute base directory, a document whose file targets hold no
    percent sign is extracted without an exception, whatever becomes of the
    working directory, which is not read: every file target gives one
    entry, the target itself when it is an absolute path and otherwise the
    target resolved against the base directory, character for character. *)
Theorem percent_free_targets_resolved (cwd : result string) (c : string)
    (tokens : list token) (baseDir : string) :
  Path.isAbsolute baseDir = true ->
  (forall h, In h (Spec.fileTargets tokens) -> JS.containsChar "%" h = false) ->
  WithCwd.extractFromTokens cwd tokens baseDir =
  Ok (map (fun h => if Path.isAbsolute h then h else Path.resolve c [baseDir; h])
          (Spec.fileTargets tokens)).
Proof.
  intros Hbase Hplain. rewrite cwd_extractFromTokens_mapM. apply mapM_pure.
  intros h Hin. unfold WithCwd.normalizeLink.
  assert (Hf : Spec.isFileClass h = true) by (apply filter_In in Hin; tauto).
  rewrite (isFileClass_not_url h Hf), orb_false_r.
  destruct (Path.isAbsolute h); [reflexivity |].
  rewrite (decodeURIComponent_plain h (Hplain h Hin)). cbn [bind].
  apply resolveIn_anchored. rewrite resolveLoop_base, Hbase. apply orb_true_r.
Qed.

(** The extractor returns exactly when every file target that is not an
    absolute path can be percent-decoded and, where neither the decoded
    target nor the base directory is absolute, the working directory can
    be read. *)
Theorem extractor_returns_iff (cwd : result string) (tokens : list token)
    (baseDir : string) :
  is_ok (WithCwd.extractFromTokens cwd tokens baseDir) =
  forallb (fun h =>
             Path.isAbsolute h ||
             match URI.decodeURIComponent h with
             | Ok decoded => Path.isAbsolute decoded || Path.isAbsolute baseDir || is_ok cwd
             | Throw _ => false
             end)
          (Spec.fileTargets tokens).
Proof.
  rewrite cwd_extractFromTokens_mapM, mapM_is_ok.
  apply forallb_agree. intros h Hin.
  apply cwd_normalizeLink_is_ok. apply filter_In in Hin. tauto.
Qed.




Lemma resolve_segments (args : list string) :
  exists segs,
    Path.resolve process_cwd args = "/" +++ JS.join "/" segs /\
    Forall Spec.plainSegment segs /\
    Forall (fun x => JS.containsChar "/" x = false) segs.
Proof.
  unfold Path.resolve.
  pose proof (resolveLoop_absolute process_cwd (rev args) "" eq_refl) as Hs.
  change (rev (process_cwd :: args)) with (rev args ++ [process_cwd]).
  destruct (Path.resolveLoop (rev args ++ [process_cwd]) "") as [p a].
  simpl in Hs. subst a. cbn [negb]. unfold Path.normalizeString.
  exists (Path.normalizeSegments false (JS.split "/" p) []). split; [reflexivity |]. split.
  - apply normalizeSegments_plainOut. constructor.
  - apply normalizeSegments_keeps; [| constructor].
    apply split_parts_without. left. reflexivity.
Qed.

Lemma resolve_of_segments (segs : list string) :
  Forall Spec.plainSegment segs ->
  Forall (fun x => JS.containsChar "/" x = false) segs ->
  Path.resolve process_cwd ["/" +++ JS.join "/" segs] = "/" +++ JS.join "/" segs.
Proof.
  intros Hp Hs. rewrite resolve_one. f_equal. f_equal.
  unfold Spec.resolvedSegments. rewrite anchored_absolute; [| reflexivity].
  simpl JS.split.
  change (Path.normalizeSegments false (JS.split "/" (JS.join "/" segs)) [] = segs).
  destruct segs as [| x l]; [reflexivity |].
  rewrite (split_join "/" (x :: l)); [| discriminate | assumption].
  apply (normalizeSegments_plain (x :: l) []). assumption.
Qed.

Lemma resolve_idempotent (args : list string) :
  Path.resolve process_cwd [Path.resolve process_cwd args] = Path.resolve process_cwd args.
Proof.
  destruct (resolve_segments args) as (segs & -> & Hp & Hs).
  apply resolve_of_segments; assumption.
Qed.

Lemma Forall2_impl_In {A B : Type} (R Q : A -> B -> Prop) (l : list A) (l' : list B) :
  Forall2 R l l' ->
  (forall a b, In a l -> R a b -> Q a b) ->
  Forall2 Q l l'.
Proof.
  induction 1 as [| a b l l' Hab Hl IH]; intros Himp; constructor.
  - apply Himp; [left; reflexivity | assumption].
  - apply IH. intros x y Hx. apply Himp. right. assumption.
Qed.

(** The entries the extractor computes are canonical: every entry that
    comes from a target not written as an absolute path is an absolute path
    that [path.resolve] leaves as it is (no empty, [.] or [..] component is
    left in it). *)
Theorem extracted_entries_canonical (tokens : list token) (baseDir : string)
    (found : list string) :
  Parser.extractFromTokens tokens baseDir = Ok found ->
  Forall2 (fun target entry =>
             Path.isAbsolute target = false ->
             Path.isAbsolute entry = true /\
             Path.resolve process_cwd [entry] = entry)
          (Spec.fileTargets tokens) found.
Proof.
  rewrite extractFromTokens_mapM. intros Hm.
  apply mapM_Ok_Forall2 in Hm.
  apply (Forall2_impl_In _ _ _ _ Hm).
  intros target entry Hin Hn Hrel. unfold Parser.normalizeLink in Hn.
  assert (Hf : Spec.isFileClass target = true) by (apply filter_In in Hin; tauto).
  rewrite (isFileClass_not_url target Hf), Hrel in Hn. simpl in Hn.
  apply bind_Ok in Hn. destruct Hn as (decoded & _ & [= <-]).
  split; [apply resolve_isAbsolute | apply resolve_idempotent].
Qed.

End PlainTargets.

(** ** The earlier parser and the caller [parseFile] *)

Section Callers.
Context `{Host}.

Lemma legacy_fold (cwd : result string) (baseDir : string) (tokens : list token) :
  forall links,
    Parser.foldM (fun s t => LegacyParser.extractCallback cwd baseDir t s) tokens links =
    (found <- mapM (fun h => LegacyParser.normalizeLink cwd h baseDir)
                   (flat_map (fun t => match Spec.rawHref t with
                                       | Some h => [h] | None => [] end) tokens) ;;
     Ok (links ++ found)).
Proof.
  induction tokens as [| t r IH]; intros links; simpl.
  - rewrite app_nil_r. reflexivity.
  - unfold LegacyParser.extractCallback, Spec.rawHref.
    destruct ((token_type t =? "link_open")%string || (token_type t =? "image")%string);
      simpl; [| apply IH].
    destruct (orElse (attrGet t "href") (attrGet t "src")) as [href |]; simpl; [| apply IH].
    destruct (href =? "")%string; simpl; [apply IH |].
    destruct (LegacyParser.normalizeLink cwd href baseDir); simpl; [| reflexivity].
    rewrite IH. destruct (mapM _ _); simpl; [rewrite <- app_assoc |]; reflexivity.
Qed.

(** With an absolute base directory the earlier copy of the parser
    (src/src/parser.ts), which has no [try], throws nothing, whatever
    becomes of the working directory, and drops nothing: it returns one
    entry for every link or image token with a non-empty target, in
    encounter order, an absolute path or a URL exactly as written and any
    other target resolved against the base directory. *)
Theorem legacy_extractor_keeps_every_target (cwd : result string) (c : string)
    (tokens : list token) (baseDir : string) :
  Path.isAbsolute baseDir = true ->
  LegacyParser.extractFromTokens cwd tokens baseDir =
  Ok (map (fun h => if Path.isAbsolute h || Parser.hasHttpProtocol h then h
                    else Path.resolve c [baseDir; h])
          (Spec.rawHrefs tokens)).
Proof.
  intros Hbase. unfold LegacyParser.extractFromTokens.
  rewrite walkTokens_foldM, legacy_fold. fold (Spec.rawHrefs tokens).
  rewrite (mapM_pure _ (fun h => if Path.isAbsolute h || Parser.hasHttpProtocol h then h
                                 else Path.resolve c [baseDir; h])); [reflexivity |].
  intros h _. unfold LegacyParser.normalizeLink.
  destruct (Path.isAbsolute h || Parser.hasHttpProtocol h); [reflexivity |].
  apply resolveIn_anchored. rewrite resolveLoop_base, Hbase. apply orb_true_r.
Qed.

Lemma mapM_throws {A B : Type} (f : A -> result B) (l : list A) (a : A) :
  In a l -> is_ok (f a) = false -> exists e, mapM f l = Throw e.
Proof.
  intros Hin Hbad.
  assert (Hno : is_ok (mapM f l) = false).
  { rewrite mapM_is_ok. apply not_true_is_false. intros Hall.
    rewrite forallb_forall in Hall. rewrite (Hall a Hin) in Hbad. discriminate. }
  destruct (mapM f l) as [out | e]; [discriminate | eauto].
Qed.

(** [parseFile] on a Markdown file that can be read: the links of the
    extractor when it returns; and no link at all, not even those of the
    well-formed targets, as soon as one file target that is not an absolute
    path has a malformed percent-encoding. *)
Theorem parseFile_markdown (fsPath text : string) :
  JS.endsWith fsPath ".md" = true ->
  readFile fsPath = Ok text ->
  (forall found,
     Parser.extractMarkdownLinks text (Path.dirname fsPath) = Ok found ->
     Extension.parseFile fsPath = found) /\
  (forall h,
     In h (Spec.fileTargets (md_parse text)) ->
     Path.isAbsolute h = false ->
     is_ok (URI.decodeURIComponent h) = false ->
     Extension.parseFile fsPath = []).
Proof.
  intros Hmd Hread. unfold Extension.parseFile. rewrite Hread. cbn [bind]. rewrite Hmd.
  split.
  - intros found ->. reflexivity.
  - intros h Hin Hrel Hbad.
    unfold Parser.extractMarkdownLinks. rewrite extractFromTokens_mapM.
    destruct (mapM_throws (fun h => Parser.normalizeLink h (Path.dirname fsPath))
                          _ h Hin) as [e ->]; [| reflexivity].
    unfold Parser.normalizeLink.
    assert (Hf : Spec.isFileClass h = true) by (apply filter_In in Hin; tauto).
    rewrite (isFileClass_not_url h Hf), Hrel. simpl.
    destruct (URI.decodeURIComponent h); [discriminate | reflexivity].
Qed.

Lemma endsWith_app (s suffix : string) : JS.endsWith (s +++ suffix) suffix = true.
Proof.
  unfold JS.endsWith. rewrite chars_app, rev_app_distr.
  generalize (rev (JS.chars suffix)) (rev (JS.chars s)). intros a b.
  induction a as [| c a IH]; simpl.
  - destruct (JS.str b); reflexivity.
  - destruct (ascii_dec c c) as [_ | Hn]; [exact IH | contradiction].
Qed.

Lemma endsWith_lastChar (s p : string) (c : ascii) :
  JS.endsWith s p = true -> Spec.lastChar p = Some c -> Spec.lastChar s = Some c.
Proof.
  unfold JS.endsWith. intros He Hp.
  assert (Hrev : forall x, Spec.lastChar x = hd_error (rev (JS.chars x))).
  { induction x as [| a x IH]; [reflexivity |]. simpl.
    rewrite IH. destruct x as [| b x]; [reflexivity |].
    simpl. destruct (rev (JS.chars x) ++ [b]) eqn:E; [| reflexivity].
    apply app_eq_nil in E. destruct E as [_ E]. discriminate. }
  rewrite Hrev in *. destruct (rev (JS.chars p)) as [| d r]; [discriminate |].
  injection Hp as ->. simpl in He.
  destruct (rev (JS.chars s)) as [| d' r']; simpl in He; [discriminate |].
  destruct (ascii_dec c d') as [-> | _]; [reflexivity | discriminate].
Qed.

(** The cross-format search proposes [.markdown] files as replacements of
    a notebook, but [parseFile] reads only paths that end in [.md] or
    [.ipynb]: a [.markdown] file is never parsed, whatever it contains, so
    the links of a file chosen as such a replacement are never indexed. *)
Theorem markdown_extension_never_parsed (stem : string) :
  In ".markdown" (Parser.alternativeExtensions ".ipynb") /\
  Extension.parseFile (stem +++ ".markdown") = [].
Proof.
  split; [right; left; reflexivity |].
  unfold Extension.parseFile.
  destruct (readFile (stem +++ ".markdown")) as [text | e]; [| reflexivity].
  cbn [bind].
  pose proof (endsWith_app stem ".markdown") as Hend.
  destruct (JS.endsWith (stem +++ ".markdown") ".md") eqn:E1.
  { pose proof (endsWith_lastChar _ _ "d" E1 eq_refl) as L1.
    pose proof (endsWith_lastChar _ _ "n" Hend eq_refl) as L2.
    rewrite L1 in L2. discriminate. }
  destruct (JS.endsWith (stem +++ ".markdown") ".ipynb") eqn:E2.
  { pose proof (endsWith_lastChar _ _ "b" E2 eq_refl) as L1.
    pose proof (endsWith_lastChar _ _ "n" Hend eq_refl) as L2.
    rewrite L1 in L2. discriminate. }
  reflexivity.
Qed.

End Callers.

(** ** The registry and the detector *)

Section RegistryLaws.
Context `{Host}.

Lemma update_keys (doc : string) (links : list string) (index : Registry.LinkIndex) (k : string) :
  In k (map fst (Registry.update doc links index)) <-> k = doc \/ In k (map fst index).
Proof.
  induction index as [| [d v] r IH]; simpl.
  - intuition.
  - destruct (String.eqb_spec d doc) as [-> | Hne]; simpl; [intuition |].
    rewrite IH. intuition.
Qed.

Lemma records_of (doc d : string) (links : list string) :
  filter (fun b => (filePath b =? doc)%string)
         (map (fun link => {| filePath := d; brokenLink := link; originalLink := link |}) links) =
  if (d =? doc)%string
  then map (fun link => {| filePath := d; brokenLink := link; originalLink := link |}) links
  else [].
Proof.
  induction links as [| l r IH]; simpl.
  - destruct (d =? doc)%string; reflexivity.
  - rewrite IH. destruct (d =? doc)%string; reflexivity.
Qed.

Lemma records_not_of (doc d : string) (links : list string) :
  filter (fun b => negb (filePath b =? doc)%string)
         (map (fun link => {| filePath := d; brokenLink := link; originalLink := link |}) links) =
  if (d =? doc)%string then []
  else map (fun link => {| filePath := d; brokenLink := link; originalLink := link |}) links.
Proof.
  induction links as [| l r IH]; simpl.
  - destruct (d =? doc)%string; reflexivity.
  - rewrite IH. destruct (d =? doc)%string; reflexivity.
Qed.

Lemma findBrokenLinks_cons (d : string) (v : list string) (index : list (string * list string)) :
  Parser.findBrokenLinks ((d, v) :: index) =
  map (fun link => {| filePath := d; brokenLink := link; originalLink := link |})
      (filter Parser.isLinkBroken v) ++ Parser.findBrokenLinks index.
Proof. reflexivity. Qed.

Lemma no_records_of_absent (doc : string) (index : list (string * list string)) :
  ~ In doc (map fst index) ->
  filter (fun b => (filePath b =? doc)%string) (Parser.findBrokenLinks index) = [].
Proof.
  induction index as [| [d v] r IH]; intros Hno; [reflexivity |].
  rewrite findBrokenLinks_cons, filter_app, records_of.
  destruct (String.eqb_spec d doc) as [-> | Hne].
  - exfalso. apply Hno. left. reflexivity.
  - apply IH. intros Hin. apply Hno. right. assumption.
Qed.

(** After [registry.update(uri, links)] on an index, the detector reports
    for that document exactly the broken ones among [links], in their
    order (what the index held for it before is gone), and reports about
    every other document what it reported before; the paths of the index
    stay distinct and the entry of the document reads [links]. *)
Theorem registry_update_detected (doc : string) (links : list string)
    (index : Registry.LinkIndex) :
  NoDup (map fst index) ->
  let index' := Registry.update doc links index in
  NoDup (map fst index') /\
  Registry.lookup doc index' = Some links /\
  filter (fun b => (filePath b =? doc)%string) (Parser.findBrokenLinks index') =
    map (Spec.brokenRecord doc) (filter Parser.isLinkBroken links) /\
  filter (fun b => negb (filePath b =? doc)%string) (Parser.findBrokenLinks index') =
    filter (fun b => negb (filePath b =? doc)%string) (Parser.findBrokenLinks index).
Proof.
  unfold Spec.brokenRecord.
  induction index as [| [d v] r IH]; intros Hnd; cbn zeta.
  - simpl Registry.update. rewrite findBrokenLinks_cons, !filter_app, records_of, records_not_of.
    simpl. rewrite String.eqb_refl, app_nil_r.
    repeat split. repeat constructor. intros [].
  - inversion Hnd as [| ? ? Hd Hr]; subst. specialize (IH Hr). cbn zeta in IH.
    destruct IH as (IH1 & IH2 & IH3 & IH4).
    simpl Registry.update. destruct (String.eqb_spec d doc) as [-> | Hne].
    + rewrite !findBrokenLinks_cons, !filter_app, !records_of, !records_not_of.
      simpl. rewrite String.eqb_refl.
      rewrite (no_records_of_absent doc r Hd), app_nil_r.
      repeat split; assumption.
    + rewrite !findBrokenLinks_cons, !filter_app, !records_of, !records_not_of.
      simpl. apply String.eqb_neq in Hne. rewrite Hne. simpl.
      rewrite IH3, IH4. repeat split; try assumption.
      constructor; [| assumption].
      rewrite update_keys. intros [-> | Hin]; [| contradiction].
      rewrite String.eqb_refl in Hne. discriminate.
Qed.

Lemma remove_cons (doc d : string) (v : list string) (index : Registry.LinkIndex) :
  Registry.remove doc ((d, v) :: index) =
  if (d =? doc)%string then Registry.remove doc index
  else (d, v) :: Registry.remove doc index.
Proof.
  unfold Registry.remove. simpl. destruct (d =? doc)%string; reflexivity.
Qed.

(** After [registry.remove(uri)] the detector reports nothing about that
    document and, about the other documents, what it reported before, in
    the same order; the entries of the other documents read as before, and
    removing a document the index does not hold changes nothing. *)
Theorem registry_remove_forgets (doc : string) (index : Registry.LinkIndex) :
  Parser.findBrokenLinks (Registry.remove doc index) =
    filter (fun b => negb (filePath b =? doc)%string) (Parser.findBrokenLinks index) /\
  Registry.lookup doc (Registry.remove doc index) = None /\
  (forall other, other <> doc ->
     Registry.lookup other (Registry.remove doc index) = Registry.lookup other index) /\
  (Registry.lookup doc index = None -> Registry.remove doc index = index).
Proof.
  induction index as [| [d v] r (IH1 & IH2 & IH3 & IH4)]; [repeat split; reflexivity |].
  rewrite remove_cons, findBrokenLinks_cons, filter_app, records_not_of.
  simpl Registry.lookup.
  destruct (String.eqb_spec d doc) as [-> | Hne].
  - repeat split; try assumption.
    + intros other Ho. rewrite (IH3 other Ho).
      destruct (String.eqb_spec doc other) as [<- | _]; [contradiction | reflexivity].
    + discriminate.
  - rewrite findBrokenLinks_cons, IH1. simpl Registry.lookup.
    apply String.eqb_neq in Hne. rewrite Hne.
    repeat split; try assumption.
    + intros other Ho. rewrite (IH3 other Ho). reflexivity.
    + intros Hl. rewrite (IH4 Hl). reflexivity.
Qed.

End RegistryLaws.

(** ** The two candidate searches *)

Section Searches.
Context `{Host}.

Ltac case_search :=
  match goal with
  | |- context [findFiles ?pattern ?n] =>
      let E := fresh "Esearch" in destruct (findFiles pattern n) eqn:E
  end.

Lemma addAll_In (items set : list string) (x : string) :
  In x (Parser.addAll set items) <-> In x set \/ In x items.
Proof.
  revert set. induction items as [| y r IH]; intros set; simpl; [tauto |].
  rewrite IH. destruct (Parser.includesStr set y) eqn:E.
  - apply includesStr_In in E. split; [tauto |].
    intros [Hs | [<- | Hr]]; auto.
  - rewrite in_app_iff. simpl. tauto.
Qed.

Lemma addAll_NoDup (items set : list string) :
  NoDup set -> NoDup (Parser.addAll set items).
Proof.
  revert set. induction items as [| y r IH]; intros set Hnd; simpl; [assumption |].
  apply IH. destruct (Parser.includesStr set y) eqn:E; [assumption |].
  apply includesStr_false in E.
  apply NoDup_app; [assumption | repeat constructor; intros [] |].
  intros x Hx [<- | []]. contradiction.
Qed.

Lemma search_caught (pattern : string) (maxResults : nat) (p : string) :
  In p (try_catch (found <- findFiles pattern maxResults ;; Ok found) (fun _ => [])) ->
  exists found, findFiles pattern maxResults = Ok found /\ In p found.
Proof.
  destruct (findFiles pattern maxResults) as [found | e]; simpl; [eauto | contradiction].
Qed.

(** The candidates of the plain search [findReplacementCandidates] are
    distinct paths, each returned by a workspace search, and the broken
    path itself is not among them. *)
Theorem plain_candidates_sound (brokenLink : string) :
  NoDup (Parser.findReplacementCandidates brokenLink) /\
  ~ In brokenLink (Parser.findReplacementCandidates brokenLink) /\
  Forall Spec.searchResult (Parser.findReplacementCandidates brokenLink).
Proof.
  unfold Parser.findReplacementCandidates. cbv zeta.
  set (brokenPath := Path.parse brokenLink).
  set (candidates2 := if (Path.dir brokenPath =? "")%string then _ else _).
  split; [| split].
  - apply NoDup_filter. apply addAll_NoDup. constructor.
  - intros Hin. apply filter_In in Hin. destruct Hin as [_ Hin].
    rewrite String.eqb_refl in Hin. discriminate.
  - apply Forall_forall. intros p Hin. apply filter_In in Hin. destruct Hin as [Hin _].
    apply addAll_In in Hin. destruct Hin as [[] | Hin].
    subst candidates2. unfold Spec.searchResult.
    destruct (Path.dir brokenPath =? "")%string.
    + apply search_caught in Hin. destruct Hin as (found & Hf & Hp). eauto.
    + destruct (findFiles ("**/" +++ Path.basename (Path.dir brokenPath) +++ Path.sep
                             +++ Path.base brokenPath) 20) as [two |] eqn:Etwo; simpl in Hin.
      * apply in_app_or in Hin. destruct Hin as [Hin | Hin]; [| eauto].
        apply search_caught in Hin. destruct Hin as (found & Hf & Hp). eauto.
      * apply search_caught in Hin. destruct Hin as (found & Hf & Hp). eauto.
Qed.

Lemma crossFormatStep_grows (brokenPath : Path.ParsedPath) (st : list string * list string)
    (altExt : string) :
  incl (fst st) (fst (Parser.crossFormatStep brokenPath st altExt)) /\
  incl (snd st) (snd (Parser.crossFormatStep brokenPath st altExt)).
Proof.
  destruct st as [exact loose]. unfold Parser.crossFormatStep.
  destruct (Path.dir brokenPath =? "")%string;
    repeat case_search; simpl; split;
    try apply incl_refl; apply incl_appl, incl_refl.
Qed.

Lemma crossFormat_grows (brokenPath : Path.ParsedPath) (alts : list string)
    (st : list string * list string) :
  incl (fst st) (fst (fold_left (Parser.crossFormatStep brokenPath) alts st)) /\
  incl (snd st) (snd (fold_left (Parser.crossFormatStep brokenPath) alts st)).
Proof.
  revert st. induction alts as [| a r IH]; intros st; simpl; [split; apply incl_refl |].
  destruct (IH (Parser.crossFormatStep brokenPath st a)) as [I1 I2].
  destruct (crossFormatStep_grows brokenPath st a) as [S1 S2].
  split; eapply incl_tran; eassumption.
Qed.

(** The tiered search finds whatever the plain search finds: every
    candidate of [findReplacementCandidates] is in one of the two tiers of
    [findSmartReplacementCandidates]; and for a broken path whose extension
    has no cross-format alternative the two searches return the same
    paths. *)
Theorem smart_search_covers_plain (brokenLink : string) :
  let found := Parser.findSmartReplacementCandidates brokenLink in
  let tiers := Parser.exactFolderMatches found ++ Parser.looseMatches found in
  incl (Parser.findReplacementCandidates brokenLink) tiers /\
  (Parser.alternativeExtensions (Path.ext (Path.parse brokenLink)) = [] ->
   incl tiers (Parser.findReplacementCandidates brokenLink)).
Proof.
  unfold Parser.findSmartReplacementCandidates, Parser.findReplacementCandidates.
  set (brokenPath := Path.parse brokenLink).
  set (exact1 := if (Path.dir brokenPath =? "")%string then [] else _).
  fold (Parser.looseSearch (Path.base brokenPath) exact1).
  set (loose1 := Parser.looseSearch (Path.base brokenPath) exact1).
  set (keep := fun c => negb (c =? brokenLink)%string).
  set (candidates2 := if (Path.dir brokenPath =? "")%string then _ else _).
  assert (Hsame : forall p, In p candidates2 <-> In p exact1 \/ In p loose1).
  { intros p. subst candidates2 exact1 loose1. unfold Parser.looseSearch.
    destruct (Path.dir brokenPath =? "")%string; repeat case_search; simpl;
      rewrite ?in_app_iff, ?filter_In, ?negb_true_iff;
      try match goal with
          | |- context [Parser.includesStr ?l p] =>
              let E := fresh in
              destruct (Parser.includesStr l p) eqn:E;
              [apply includesStr_In in E | apply includesStr_false in E]
          end; simpl; intuition congruence. }
  assert (Hplain : forall p, In p (filter keep (Parser.newSet candidates2)) <->
                             keep p = true /\ (In p exact1 \/ In p loose1)).
  { intros p. rewrite filter_In. unfold Parser.newSet. rewrite addAll_In, <- Hsame.
    simpl. tauto. }
  cbv zeta.
  destruct (Path.ext brokenPath =? "")%string eqn:Eext.
  - cbn [Parser.exactFolderMatches Parser.looseMatches]. split.
    + intros p Hp. apply Hplain in Hp. rewrite in_app_iff, !filter_In. tauto.
    + intros _ p Hp. apply Hplain. rewrite in_app_iff, !filter_In in Hp. tauto.
  - pose proof (crossFormat_grows brokenPath
                  (Parser.alternativeExtensions (Path.ext brokenPath)) (exact1, loose1)) as Hg.
    destruct (fold_left _ (Parser.alternativeExtensions (Path.ext brokenPath)) (exact1, loose1))
      as [exact2 loose2] eqn:Ef.
    cbn [Parser.exactFolderMatches Parser.looseMatches fst snd] in *.
    destruct Hg as [G1 G2]. split.
    + intros p Hp. apply Hplain in Hp. rewrite in_app_iff, !filter_In.
      destruct Hp as [Hk [Hp | Hp]]; [left | right]; split; auto.
    + intros Hnone p Hp. rewrite Hnone in Ef. simpl in Ef. injection Ef as <- <-.
      apply Hplain. rewrite in_app_iff, !filter_In in Hp. tauto.
Qed.

Lemma crossFormatStep_results (brokenPath : Path.ParsedPath) (st : list string * list string)
    (altExt : string) :
  Forall Spec.searchResult (fst st) -> Forall Spec.searchResult (snd st) ->
  Forall Spec.searchResult (fst (Parser.crossFormatStep brokenPath st altExt)) /\
  Forall Spec.searchResult (snd (Parser.crossFormatStep brokenPath st altExt)).
Proof.
  destruct st as [exact loose]. simpl. intros He Hl. unfold Parser.crossFormatStep.
  assert (Hfound : forall pattern n found,
            findFiles pattern n = Ok found -> Forall Spec.searchResult found).
  { intros pattern n found Hf. apply Forall_forall. intros p Hp.
    exists pattern, n, found. auto. }
  assert (Hkeep : forall (f : string -> bool) l,
            Forall Spec.searchResult l -> Forall Spec.searchResult (filter f l)).
  { intros f l Hall. rewrite Forall_forall in *. intros p Hp.
    apply filter_In in Hp. apply Hall. tauto. }
  destruct (Path.dir brokenPath =? "")%string;
    repeat case_search; simpl; split; try assumption;
    apply Forall_app; (split; [assumption |]); try apply Hkeep; eapply Hfound; eassumption.
Qed.

Lemma crossFormatStep_lengths (brokenPath : Path.ParsedPath) (st : list string * list string)
    (altExt : string) :
  Spec.boundedBackend ->
  List.length (fst (Parser.crossFormatStep brokenPath st altExt)) <= List.length (fst st) + 10 /\
  List.length (snd (Parser.crossFormatStep brokenPath st altExt)) <= List.length (snd st) + 10.
Proof.
  intros Hb. destruct st as [exact loose]. simpl. unfold Parser.crossFormatStep.
  assert (Hfilter : forall (f : string -> bool) pattern found,
            findFiles pattern 10 = Ok found -> List.length (filter f found) <= 10).
  { intros f pattern found Hf. pose proof (Hb _ _ _ Hf). pose proof (filter_length_le f found).
    lia. }
  destruct (Path.dir brokenPath =? "")%string;
    repeat case_search; simpl; rewrite ?length_app;
    repeat match goal with
           | E : findFiles _ 10 = Ok ?found |- _ =>
               pose proof (Hb _ _ _ E); revert E
           end; intros;
    try match goal with
        | |- context [filter ?f ?l] => pose proof (filter_length_le f l)
        end; lia.
Qed.

Lemma alternativeExtensions_length (ext : string) :
  List.length (Parser.alternativeExtensions ext) <= 2.
Proof.
  unfold Parser.alternativeExtensions.
  destruct (ext =? ".md")%string; [simpl; lia |].
  destruct (ext =? ".ipynb")%string; simpl; lia.
Qed.

Lemma smart_results_found (brokenLink : string) :
  Forall Spec.searchResult
    (Parser.exactFolderMatches (Parser.findSmartReplacementCandidates brokenLink)) /\
  Forall Spec.searchResult
    (Parser.looseMatches (Parser.findSmartReplacementCandidates brokenLink)).
Proof.
  unfold Parser.findSmartReplacementCandidates.
  set (brokenPath := Path.parse brokenLink).
  set (exact1 := if (Path.dir brokenPath =? "")%string then [] else _).
  fold (Parser.looseSearch (Path.base brokenPath) exact1).
  set (loose1 := Parser.looseSearch (Path.base brokenPath) exact1).
  assert (Hkeep : forall (f : string -> bool) l,
            Forall Spec.searchResult l -> Forall Spec.searchResult (filter f l)).
  { intros f l Hall. rewrite Forall_forall in *. intros p Hp.
    apply filter_In in Hp. apply Hall. tauto. }
  assert (H1 : Forall Spec.searchResult exact1).
  { subst exact1. destruct (Path.dir brokenPath =? "")%string; [constructor |].
    apply Forall_forall. intros p Hp. apply search_caught in Hp.
    destruct Hp as (found & Hf & Hp). unfold Spec.searchResult. eauto. }
  assert (H2 : Forall Spec.searchResult loose1).
  { subst loose1. unfold Parser.looseSearch.
    destruct (findFiles ("**/" +++ Path.base brokenPath) 20) as [names |] eqn:E; simpl;
      [| constructor].
    apply Hkeep. apply Forall_forall. intros p Hp. unfold Spec.searchResult. eauto. }
  assert (Hfold : forall alts st,
            Forall Spec.searchResult (fst st) -> Forall Spec.searchResult (snd st) ->
            Forall Spec.searchResult
              (fst (fold_left (Parser.crossFormatStep brokenPath) alts st)) /\
            Forall Spec.searchResult
              (snd (fold_left (Parser.crossFormatStep brokenPath) alts st))).
  { induction alts as [| a r IH]; intros st Ha Hb; simpl; [auto |].
    destruct (crossFormatStep_results brokenPath st a Ha Hb). apply IH; assumption. }
  destruct (Path.ext brokenPath =? "")%string.
  - cbn [Parser.exactFolderMatches Parser.looseMatches]. split; apply Hkeep; assumption.
  - destruct (Hfold (Parser.alternativeExtensions (Path.ext brokenPath)) (exact1, loose1) H1 H2)
      as [F1 F2].
    destruct (fold_left _ _ _) as [exact2 loose2].
    cbn [Parser.exactFolderMatches Parser.looseMatches fst snd] in *.
    split; apply Hkeep; assumption.
Qed.

Lemma smart_excludes_broken (brokenLink : string) :
  ~ In brokenLink
      (Parser.exactFolderMatches (Parser.findSmartReplacementCandidates brokenLink) ++
       Parser.looseMatches (Parser.findSmartReplacementCandidates brokenLink)).
Proof.
  unfold Parser.findSmartReplacementCandidates. cbv zeta.
  match goal with
  | |- context [let '(a, b) := ?p in _] => destruct p as [exact2 loose2]
  end.
  cbn [Parser.exactFolderMatches Parser.looseMatches].
  rewrite in_app_iff, !filter_In, String.eqb_refl. simpl. intuition discriminate.
Qed.

(** Every candidate of the tiered search is a path some workspace search
    returned: the search invents no path, and where every search throws
    both tiers are empty. *)
Theorem smart_candidates_are_search_results (brokenLink : string) :
  let found := Parser.findSmartReplacementCandidates brokenLink in
  Forall Spec.searchResult (Parser.exactFolderMatches found) /\
  Forall Spec.searchResult (Parser.looseMatches found) /\
  ((forall pattern maxResults, is_ok (findFiles pattern maxResults) = false) ->
   Parser.exactFolderMatches found = [] /\ Parser.looseMatches found = []).
Proof.
  cbv zeta. destruct (smart_results_found brokenLink) as [M1 M2].
  split; [exact M1 |]. split; [exact M2 |].
  intros Hthrow.
  assert (Hnone : forall l, Forall Spec.searchResult l -> l = []).
  { intros [| p l] Hall; [reflexivity |].
    inversion Hall as [| ? ? (pattern & n & found & Hf & _) _].
    specialize (Hthrow pattern n). rewrite Hf in Hthrow. discriminate. }
  split; apply Hnone; assumption.
Qed.

(** With a search that honours its result limit, the quick pick is never
    offered more than 40 candidates of the exact tier and 40 of the loose
    tier: 20 of the search for the path as written and 10 for each of the
    at most two alternative extensions. *)
Theorem smart_candidates_bounded (brokenLink : string) :
  Spec.boundedBackend ->
  let found := Parser.findSmartReplacementCandidates brokenLink in
  let alternatives := Parser.alternativeExtensions (Path.ext (Path.parse brokenLink)) in
  List.length (Parser.exactFolderMatches found) <= 20 + 10 * List.length alternatives /\
  List.length (Parser.looseMatches found) <= 20 + 10 * List.length alternatives /\
  List.length alternatives <= 2.
Proof.
  intros Hb. cbv zeta. split; [| split; [| apply alternativeExtensions_length]];
  unfold Parser.findSmartReplacementCandidates;
  set (brokenPath := Path.parse brokenLink);
  set (exact1 := if (Path.dir brokenPath =? "")%string then [] else _);
  fold (Parser.looseSearch (Path.base brokenPath) exact1);
  set (loose1 := Parser.looseSearch (Path.base brokenPath) exact1);
  assert (H1 : List.length exact1 <= 20)
    by (subst exact1; destruct (Path.dir brokenPath =? "")%string; [simpl; lia |];
        match goal with |- context [findFiles ?p ?n] =>
          destruct (findFiles p n) as [two |] eqn:E end; simpl; [| lia];
        exact (Hb _ _ _ E));
  assert (H2 : List.length loose1 <= 20)
    by (subst loose1; unfold Parser.looseSearch;
        destruct (findFiles ("**/" +++ Path.base brokenPath) 20) as [names |] eqn:E; simpl;
        [| lia];
        pose proof (Hb _ _ _ E);
        pose proof (filter_length_le (fun c => negb (Parser.includesStr exact1 c)) names); lia);
  assert (Hfold : forall alts st,
            List.length (fst (fold_left (Parser.crossFormatStep brokenPath) alts st))
              <= List.length (fst st) + 10 * List.length alts /\
            List.length (snd (fold_left (Parser.crossFormatStep brokenPath) alts st))
              <= List.length (snd st) + 10 * List.length alts)
    by (induction alts as [| a r IH]; intros st; simpl; [lia |];
        destruct (IH (Parser.crossFormatStep brokenPath st a)) as [I1 I2];
        destruct (crossFormatStep_lengths brokenPath st a Hb) as [S1 S2]; lia);
  (destruct (Path.ext brokenPath =? "")%string;
   [ cbn [Parser.exactFolderMatches Parser.looseMatches];
     match goal with |- List.length (filter ?f ?l) <= _ =>
       pose proof (filter_length_le f l) end; lia
   | destruct (Hfold (Parser.alternativeExtensions (Path.ext brokenPath)) (exact1, loose1))
       as [F1 F2];
     destruct (fold_left _ _ _) as [exact2 loose2];
     cbn [Parser.exactFolderMatches Parser.looseMatches fst snd] in *;
     match goal with |- List.length (filter ?f ?l) <= _ =>
       pose proof (filter_length_le f l) end; lia ]).
Qed.

End Searches.

(** ** The repair flow: grouping, accounting, what is written *)

Section RepairFlow.
Context `{Host}.

Lemma addAll_app (a b set : list string) :
  Parser.addAll set (a ++ b) = Parser.addAll (Parser.addAll set a) b.
Proof.
  revert set. induction a as [| x a IH]; intros set; simpl; [reflexivity | apply IH].
Qed.

Lemma addToGroup_map (b : BrokenLinkInfo) (f : string -> list BrokenLinkInfo)
    (keys : list string) :
  NoDup keys ->
  Extension.addToGroup b (map (fun k => (k, f k)) keys) =
  if Parser.includesStr keys (brokenLink b)
  then map (fun k => (k, if (k =? brokenLink b)%string then f k ++ [b] else f k)) keys
  else map (fun k => (k, f k)) keys ++ [(brokenLink b, [b])].
Proof.
  induction keys as [| a keys IH]; intros Hnd; [reflexivity |].
  inversion Hnd as [| ? ? Ha Hkeys]; subst.
  unfold Parser.includesStr. simpl.
  destruct (String.eqb_spec a (brokenLink b)) as [-> | Hne]; simpl.
  - f_equal. apply map_ext_in. intros k Hk.
    destruct (String.eqb_spec k (brokenLink b)) as [-> | _]; [contradiction | reflexivity].
  - rewrite (IH Hkeys). unfold Parser.includesStr.
    destruct (existsb _ keys); reflexivity.
Qed.

Lemma filter_none {A : Type} (p : A -> bool) (l : list A) :
  (forall x, In x l -> p x = false) -> filter p l = [].
Proof.
  induction l as [| x l IH]; intros Hp; simpl; [reflexivity |].
  rewrite (Hp x (or_introl eq_refl)). apply IH. intros y Hy. apply Hp. right. assumption.
Qed.

Lemma groupByPath_groups (l : list BrokenLinkInfo) :
  Extension.groupByPath l =
  map (fun k => (k, filter (fun b => (brokenLink b =? k)%string) l))
      (Parser.newSet (map brokenLink l)).
Proof.
  unfold Extension.groupByPath.
  set (G := fun l => map (fun k => (k, filter (fun b => (brokenLink b =? k)%string) l))
                         (Parser.newSet (map brokenLink l))).
  assert (Hstep : forall l1 b, Extension.addToGroup b (G l1) = G (l1 ++ [b])).
  { intros l1 b. unfold G.
    rewrite addToGroup_map; [| apply addAll_NoDup; constructor].
    unfold Parser.newSet. rewrite map_app, addAll_app. simpl Parser.addAll.
    fold (Parser.newSet (map brokenLink l1)).
    destruct (Parser.includesStr (Parser.newSet (map brokenLink l1)) (brokenLink b)) eqn:E.
    - apply map_ext. intros k. rewrite filter_app. simpl.
      rewrite (String.eqb_sym (brokenLink b) k).
      destruct (k =? brokenLink b)%string; [reflexivity | rewrite app_nil_r; reflexivity].
    - apply includesStr_false in E. rewrite map_app. f_equal.
      + apply map_ext_in. intros k Hk. rewrite filter_app. simpl.
        destruct (String.eqb_spec (brokenLink b) k) as [<- | _]; [contradiction |].
        rewrite app_nil_r. reflexivity.
      + simpl. rewrite filter_app. simpl. rewrite String.eqb_refl.
        rewrite filter_none; [reflexivity |].
        intros x Hx. apply String.eqb_neq. intros Heq. apply E.
        unfold Parser.newSet. apply addAll_In. right. rewrite <- Heq.
        apply in_map. assumption. }
  assert (Hfold : forall l2 l1,
            fold_left (fun groups b => Extension.addToGroup b groups) l2 (G l1) = G (l1 ++ l2)).
  { induction l2 as [| b l2 IH]; intros l1; simpl.
    - rewrite app_nil_r. reflexivity.
    - rewrite Hstep, IH, <- app_assoc. reflexivity. }
  exact (Hfold l []).
Qed.

Lemma addToGroup_count (b : BrokenLinkInfo) (groups : list (string * list BrokenLinkInfo)) :
  List.length (List.concat (map snd (Extension.addToGroup b groups))) =
  S (List.length (List.concat (map snd groups))).
Proof.
  induction groups as [| [k g] r IH]; simpl; [reflexivity |].
  destruct (k =? brokenLink b)%string; simpl; rewrite !length_app.
  - simpl. lia.
  - rewrite IH. lia.
Qed.

Lemma groupByPath_count (l : list BrokenLinkInfo) :
  List.length (List.concat (map snd (Extension.groupByPath l))) = List.length l.
Proof.
  unfold Extension.groupByPath.
  assert (Hgen : forall groups,
            List.length (List.concat (map snd
              (fold_left (fun g b => Extension.addToGroup b g) l groups))) =
            List.length (List.concat (map snd groups)) + List.length l).
  { induction l as [| b l IH]; intros groups; simpl; [lia |].
    rewrite IH, addToGroup_count. lia. }
  apply Hgen.
Qed.

(** The grouping of [fixBrokenLinks] loses and repeats no record: the keys
    of [brokenLinksByPath] are the distinct broken paths in the order they
    are first met, the group of a path holds exactly the records of that
    path, in their order, and the groups together hold as many records as
    were detected. *)
Theorem grouping_by_broken_path (brokenLinks : list BrokenLinkInfo) :
  Extension.groupByPath brokenLinks =
    map (fun k => (k, filter (fun b => (brokenLink b =? k)%string) brokenLinks))
        (Parser.newSet (map brokenLink brokenLinks)) /\
  NoDup (map fst (Extension.groupByPath brokenLinks)) /\
  List.length (List.concat (map snd (Extension.groupByPath brokenLinks))) =
    List.length brokenLinks.
Proof.
  split; [apply groupByPath_groups |].
  split; [apply groupByPath_keys_NoDup | apply groupByPath_count].
Qed.

Lemma failedCalls_app (a b : list Extension.repair_event) :
  Spec.failedCalls (a ++ b) = Spec.failedCalls a + Spec.failedCalls b.
Proof. unfold Spec.failedCalls. rewrite filter_app, length_app. reflexivity. Qed.

Lemma calls_split (selected : string) (g : list BrokenLinkInfo) :
  List.length (filter (fun info => is_ok (applyLinkRepair info selected)) g) +
  Spec.failedCalls (map (fun info => Extension.RepairCall info selected) g) =
  List.length g.
Proof.
  unfold Spec.failedCalls. induction g as [| b g IH]; simpl; [reflexivity |].
  destruct (is_ok (applyLinkRepair b selected)); simpl; lia.
Qed.

Lemma processBrokenPath_accounts (st : Extension.RepairState) (brokenPath : string)
    (g : list BrokenLinkInfo) :
  Parser.includesStr (Extension.processed st) brokenPath = false ->
  let st' := Extension.processBrokenPath st (brokenPath, g) in
  Extension.totalFixed st' + Extension.totalSkipped st' + Spec.failedCalls (Extension.events st') =
  Extension.totalFixed st + Extension.totalSkipped st + Spec.failedCalls (Extension.events st)
  + List.length g.
Proof.
  intros Hnew. cbv zeta. unfold Extension.processBrokenPath. rewrite Hnew.
  repeat match goal with
         | |- context [if ?b then _ else _] => destruct b
         | |- context [match showReplacementSelection ?a ?b ?c with _ => _ end] =>
             destruct (showReplacementSelection a b c)
         end;
    unfold Extension.recordFix, Extension.recordSkip, Extension.applyToAll;
    cbn [Extension.totalFixed Extension.totalSkipped Extension.events];
    rewrite ?failedCalls_app;
    try match goal with
        | |- context [map (fun info => Extension.RepairCall info ?sel) g] =>
            pose proof (calls_split sel g)
        end;
    cbn [Spec.failedCalls Spec.callFailed filter List.length]; lia.
Qed.

Lemma rounds_account (groups : list (string * list BrokenLinkInfo)) :
  NoDup (map fst groups) ->
  forall st,
    (forall k, In k (map fst groups) -> ~ In k (Extension.processed st)) ->
    let st' := fold_left Extension.processBrokenPath groups st in
    Extension.totalFixed st' + Extension.totalSkipped st' + Spec.failedCalls (Extension.events st') =
    Extension.totalFixed st + Extension.totalSkipped st + Spec.failedCalls (Extension.events st)
    + List.length (List.concat (map snd groups)).
Proof.
  induction groups as [| [k g] r IH]; intros Hnd st Hfresh; cbv zeta; [simpl; lia |].
  cbn [fold_left map snd List.concat].
  inversion Hnd as [| ? ? Hhead Htail]; subst.
  assert (Hnew : Parser.includesStr (Extension.processed st) k = false).
  { destruct (Parser.includesStr _ _) eqn:E; [| reflexivity].
    apply includesStr_In in E. exfalso. apply (Hfresh k); [left; reflexivity | exact E]. }
  specialize (IH Htail (Extension.processBrokenPath st (k, g))). cbv zeta in IH.
  rewrite IH.
  - pose proof (processBrokenPath_accounts st k g Hnew) as Hstep. cbv zeta in Hstep.
    rewrite length_app. lia.
  - intros k' Hk' Hin.
    rewrite (processBrokenPath_processed st (k, g) Hnew) in Hin.
    apply in_app_or in Hin. destruct Hin as [Hin | [<- | []]].
    + apply (Hfresh k'); [right; assumption | assumption].
    + contradiction.
Qed.

(** The counters of [fixBrokenLinks] account for every detected record
    exactly once: the records counted as fixed, the records counted as
    skipped and the repair calls that threw add up to the number of broken
    links found. *)
Theorem repair_accounting (index : list (string * list string)) :
  let st := Extension.fixBrokenLinks (Some index) in
  Extension.totalFixed st + Extension.totalSkipped st + Spec.failedCalls (Extension.events st) =
  List.length (Parser.findBrokenLinks index).
Proof.
  cbv zeta. unfold Extension.fixBrokenLinks.
  destruct (Parser.findBrokenLinks index) as [| b l] eqn:E; [reflexivity |].
  cbn [Extension.totalFixed Extension.totalSkipped Extension.events].
  rewrite failedCalls_app.
  pose proof (rounds_account (Extension.groupByPath (b :: l))
                (groupByPath_keys_NoDup (b :: l)) Extension.initialState
                (fun k _ Hin => Hin)) as Hr.
  cbv zeta in Hr. rewrite groupByPath_count in Hr.
  change (Spec.failedCalls [Extension.SummaryMessage _ _]) with 0.
  simpl in Hr |- *. lia.
Qed.

Lemma single_In (l : list string) :
  Nat.eqb (List.length l) 1 = true -> In (hd "" l) l.
Proof. destruct l as [| x [| y r]]; try discriminate. intros _. left. reflexivity. Qed.

Lemma processBrokenPath_calls (st : Extension.RepairState) (brokenPath : string)
    (g : list BrokenLinkInfo) (info : BrokenLinkInfo) (replacement : string) :
  Spec.pickIsOffered ->
  In (Extension.RepairCall info replacement)
     (Extension.events (Extension.processBrokenPath st (brokenPath, g))) ->
  In (Extension.RepairCall info replacement) (Extension.events st) \/
  (In info g /\
   In replacement
      (Parser.exactFolderMatches (Parser.findSmartReplacementCandidates brokenPath) ++
       Parser.looseMatches (Parser.findSmartReplacementCandidates brokenPath))).
Proof.
  intros Hpick. unfold Extension.processBrokenPath.
  assert (Hcalls : forall sel before,
            In sel (Parser.exactFolderMatches (Parser.findSmartReplacementCandidates brokenPath) ++
                    Parser.looseMatches (Parser.findSmartReplacementCandidates brokenPath)) ->
            (forall e, In e before -> e <> Extension.RepairCall info replacement) ->
            In (Extension.RepairCall info replacement)
               (Extension.events (Extension.recordFix st brokenPath before sel g)) ->
            In (Extension.RepairCall info replacement) (Extension.events st) \/
            (In info g /\
             In replacement
               (Parser.exactFolderMatches (Parser.findSmartReplacementCandidates brokenPath) ++
                Parser.looseMatches (Parser.findSmartReplacementCandidates brokenPath)))).
  { intros sel before Hsel Hbefore. unfold Extension.recordFix, Extension.applyToAll.
    cbn [Extension.events]. intros Hin.
    apply in_app_or in Hin. destruct Hin as [Hin | Hin]; [left; assumption |].
    apply in_app_or in Hin. destruct Hin as [Hin | Hin].
    - exfalso. exact (Hbefore _ Hin eq_refl).
    - apply in_map_iff in Hin. destruct Hin as (x & [= -> ->] & Hx).
      right. split; assumption. }
  assert (Hskip : forall before why reported,
            (forall e, In e before -> e <> Extension.RepairCall info replacement) ->
            In (Extension.RepairCall info replacement)
               (Extension.events (Extension.recordSkip st brokenPath before why reported g)) ->
            In (Extension.RepairCall info replacement) (Extension.events st)).
  { intros before why reported Hbefore. unfold Extension.recordSkip. cbn [Extension.events].
    intros Hin. apply in_app_or in Hin. destruct Hin as [Hin | Hin]; [assumption |].
    exfalso. exact (Hbefore _ Hin eq_refl). }
  destruct (Parser.includesStr (Extension.processed st) brokenPath); [auto |].
  destruct (Nat.eqb (List.length (Parser.exactFolderMatches _)) 1) eqn:E1.
  { apply Hcalls; [apply in_or_app; left; apply single_In; assumption | intros e []]. }
  destruct (Nat.eqb (List.length (Parser.exactFolderMatches _)) 0
            && Nat.eqb (List.length (Parser.looseMatches _)) 1) eqn:E2.
  { apply andb_prop in E2. destruct E2 as [_ E2].
    apply Hcalls; [apply in_or_app; right; apply single_In; assumption | intros e []]. }
  match goal with |- context [if ?b then _ else _] => destruct b end.
  - destruct (showReplacementSelection _ _ _) as [sel |] eqn:Es.
    + apply Hcalls; [exact (Hpick _ _ _ _ Es) |].
      intros e [<- | []]. discriminate.
    + intros Hin. left. revert Hin. apply Hskip. intros e [<- | []]. discriminate.
  - intros Hin. left. revert Hin. apply Hskip. intros e [].
Qed.

(** What the repair flow writes: every call of [applyLinkRepair] made by
    [fixBrokenLinks] is for a record the detector reported, with a
    replacement that a workspace search returned and that differs from the
    broken path of the record, provided the quick pick answers with one of
    the candidates it was given. *)
Theorem repair_calls_sound (index : list (string * list string))
    (info : BrokenLinkInfo) (replacement : string) :
  Spec.pickIsOffered ->
  In (Extension.RepairCall info replacement)
     (Extension.events (Extension.fixBrokenLinks (Some index))) ->
  In info (Parser.findBrokenLinks index) /\
  replacement <> brokenLink info /\
  Spec.searchResult replacement.
Proof.
  intros Hpick. unfold Extension.fixBrokenLinks.
  set (l := Parser.findBrokenLinks index).
  assert (Hfold : forall groups st,
            (forall k g b, In (k, g) groups -> In b g -> In b l /\ brokenLink b = k) ->
            In (Extension.RepairCall info replacement)
               (Extension.events (fold_left Extension.processBrokenPath groups st)) ->
            In (Extension.RepairCall info replacement) (Extension.events st) \/
            (In info l /\ replacement <> brokenLink info /\ Spec.searchResult replacement)).
  { induction groups as [| [k g] r IH]; intros st Hg; simpl; [auto |].
    intros Hin. apply IH in Hin; [| intros k' g' b Hk; apply (Hg k' g' b); right; assumption].
    destruct Hin as [Hin | Hin]; [| right; assumption].
    apply (processBrokenPath_calls st k g info replacement Hpick) in Hin.
    destruct Hin as [Hin | [Hinfo Hrep]]; [left; assumption | right].
    destruct (Hg k g info (or_introl eq_refl) Hinfo) as [Hl Hk].
    split; [assumption |]. split.
    - rewrite Hk. intros ->. exact (smart_excludes_broken k Hrep).
    - destruct (smart_results_found k) as [F1 F2].
      rewrite Forall_forall in F1, F2. apply in_app_or in Hrep.
      destruct Hrep; auto. }
  destruct l as [| b0 l0] eqn:El.
  - cbn [Extension.events]. intros [Hin | []]. discriminate.
  - cbn [Extension.events]. intros Hin. apply in_app_or in Hin.
    destruct Hin as [Hin | [Hin | []]]; [| discriminate].
    apply Hfold in Hin.
    + destruct Hin as [[] | Hin]. exact Hin.
    + intros k g b Hk Hb. rewrite groupByPath_groups in Hk. apply in_map_iff in Hk.
      destruct Hk as (k' & [= <- <-] & _).
      apply (proj1 (filter_In (fun x => (brokenLink x =? k')%string) b (b0 :: l0))) in Hb.
      destruct Hb as [Hb Hkey]. apply String.eqb_eq in Hkey. auto.
Qed.

End RepairFlow.

(** ** Rewriting: what is left untouched *)

Section Rewriting.
Context `{Host}.

Lemma takeWhile_dropWhile {A : Type} (p : A -> bool) (l : list A) :
  JS.takeWhile p l ++ JS.dropWhile p l = l.
Proof.
  induction l as [| a l IH]; simpl; [reflexivity |].
  destruct (p a); simpl; [rewrite IH |]; reflexivity.
Qed.

Lemma str_app (a b : list ascii) : JS.str (a ++ b) = JS.str a +++ JS.str b.
Proof. induction a as [| c a IH]; simpl; [reflexivity | rewrite IH; reflexivity]. Qed.

Lemma matchLinkTail_prefix (l link : list ascii) (close : bool) :
  Parser.matchLinkTail l = Some (link, close) ->
  exists rest, l = link ++ JS.chars (if close then ">" else "") ++ ")"%char :: rest.
Proof.
  unfold Parser.matchLinkTail. pose proof (takeWhile_dropWhile Parser.linkChar l) as Hl.
  destruct (JS.takeWhile Parser.linkChar l) as [| c t]; [discriminate |].
  destruct (JS.dropWhile Parser.linkChar l) as [| d [| d' rest]]; [discriminate | |].
  - destruct d as [[] [] [] [] [] [] [] []]; try discriminate.
    intros [= <- <-]. exists []. symmetry. exact Hl.
  - destruct d as [[] [] [] [] [] [] [] []]; try discriminate.
    + intros [= <- <-]. exists (d' :: rest). symmetry. exact Hl.
    + destruct d' as [[] [] [] [] [] [] [] []]; try discriminate.
      intros [= <- <-]. exists rest. symmetry. exact Hl.
Qed.

Lemma matchText_chars (prefix : string) (m : Parser.InlineMatch) :
  JS.chars (Parser.matchText prefix m) =
  JS.chars prefix ++ "["%char :: Parser.m_alt m ++ "]"%char :: "("%char ::
    JS.chars (if Parser.m_open m then "<" else "") ++ Parser.m_link m ++
    JS.chars (if Parser.m_close m then ">" else "") ++ [")"%char].
Proof.
  unfold Parser.matchText, Parser.linkPartOf.
  rewrite chars_app. f_equal.
  change ("[" +++ JS.str (Parser.m_alt m) +++ ?x) with (String "[" (JS.str (Parser.m_alt m) +++ x)).
  cbn [JS.chars list_ascii_of_string]. f_equal.
  fold JS.chars. rewrite chars_app, chars_str. f_equal.
  change ("](" +++ ?x) with (String "]" (String "(" x)).
  cbn [JS.chars list_ascii_of_string]. f_equal. f_equal. fold JS.chars.
  rewrite !chars_app, chars_str, <- !app_assoc. reflexivity.
Qed.

Lemma matchInlineAt_prefix (l : list ascii) (m : Parser.InlineMatch) :
  Parser.matchInlineAt l = Some m ->
  exists rest, l = JS.chars (Parser.matchText "" m) ++ rest.
Proof.
  unfold Parser.matchInlineAt.
  destruct l as [| c r1]; [discriminate |].
  destruct c as [[] [] [] [] [] [] [] []]; try discriminate.
  pose proof (takeWhile_dropWhile Parser.notRBracket r1) as Hr1.
  destruct (JS.dropWhile Parser.notRBracket r1) as [| d [| d' r3]]; try discriminate.
  { destruct d as [[] [] [] [] [] [] [] []]; discriminate. }
  destruct d as [[] [] [] [] [] [] [] []]; try discriminate.
  destruct d' as [[] [] [] [] [] [] [] []]; try discriminate.
  assert (Hplain : forall link close,
            Parser.matchLinkTail r3 = Some (link, close) ->
            exists rest,
              "["%char :: r1 =
              JS.chars (Parser.matchText ""
                {| Parser.m_alt := JS.takeWhile Parser.notRBracket r1; Parser.m_open := false;
                   Parser.m_link := link; Parser.m_close := close |}) ++ rest).
  { intros link close Ht. apply matchLinkTail_prefix in Ht. destruct Ht as (rest & Ht).
    exists rest. rewrite matchText_chars. cbn [Parser.m_alt Parser.m_open Parser.m_link Parser.m_close].
    rewrite <- Hr1 at 1. rewrite Ht. simpl.
      repeat (rewrite <- app_assoc; simpl). reflexivity. }
  destruct r3 as [| c3 r4].
  { destruct (Parser.matchLinkTail []) as [[link close] |] eqn:Et; [| discriminate].
    intros [= <-]. exact (Hplain _ _ eq_refl). }
  destruct (Ascii.eqb c3 "<") eqn:Ec3.
  - apply Ascii.eqb_eq in Ec3. subst c3.
    destruct (Parser.matchLinkTail r4) as [[link close] |] eqn:Et4.
    + intros [= <-]. apply matchLinkTail_prefix in Et4. destruct Et4 as (rest & Ht).
      exists rest. rewrite matchText_chars.
      cbn [Parser.m_alt Parser.m_open Parser.m_link Parser.m_close].
      rewrite <- Hr1 at 1. rewrite Ht. simpl.
      repeat (rewrite <- app_assoc; simpl). reflexivity.
    + destruct (Parser.matchLinkTail ("<"%char :: r4)) as [[link close] |] eqn:Et;
        [| discriminate].
      intros [= <-]. exact (Hplain _ _ eq_refl).
  - assert (Hno : forall (X : Type) (a b : X),
              match c3 with "<"%char => a | _ => b end = b).
    { intros X a b. destruct c3 as [[] [] [] [] [] [] [] []]; try reflexivity. discriminate. }
    rewrite Hno.
    destruct (Parser.matchLinkTail (c3 :: r4)) as [[link close] |] eqn:Et; [| discriminate].
    intros [= <-]. exact (Hplain _ _ eq_refl).
Qed.

Lemma matchImageAt_prefix (l : list ascii) (m : Parser.InlineMatch) :
  Parser.matchImageAt l = Some m ->
  exists rest, l = JS.chars (Parser.matchText "!" m) ++ rest.
Proof.
  unfold Parser.matchImageAt. destruct l as [| c r]; [discriminate |].
  destruct c as [[] [] [] [] [] [] [] []]; try discriminate.
  intros Hm. apply matchInlineAt_prefix in Hm. destruct Hm as (rest & ->).
  exists rest. rewrite !matchText_chars. reflexivity.
Qed.

Lemma chars_length (s : string) : List.length (JS.chars s) = String.length s.
Proof. induction s as [| c s IH]; simpl; [reflexivity | rewrite IH; reflexivity]. Qed.

Lemma replaceMatches_identity (matchAt : list ascii -> option Parser.InlineMatch)
    (prefix : string) (replacer : string -> Parser.InlineMatch -> result string) :
  (forall l m, matchAt l = Some m ->
               exists rest, l = JS.chars (Parser.matchText prefix m) ++ rest) ->
  forall l skip,
    skip <= List.length l ->
    (forall m, In m (Spec.matchesIn matchAt prefix l skip) ->
               replacer (Parser.matchText prefix m) m = Ok (Parser.matchText prefix m)) ->
    Parser.replaceMatches matchAt prefix replacer l skip = Ok (JS.str (skipn skip l)).
Proof.
  intros Hprefix. induction l as [| c r IH]; intros skip Hle Hid.
  - destruct skip; reflexivity.
  - cbn [Parser.replaceMatches Spec.matchesIn] in *. destruct skip as [| k].
    + destruct (matchAt (c :: r)) as [m |] eqn:Em.
      * rewrite (Hid m (or_introl eq_refl)). cbn [bind].
        destruct (Hprefix _ _ Em) as (rest & Hl).
        pose proof (matchText_chars prefix m) as Hc.
        destruct (JS.chars (Parser.matchText prefix m)) as [| c' t] eqn:Et.
        { exfalso. destruct (JS.chars prefix); discriminate. }
        simpl in Hl. injection Hl as <- ->.
        assert (Hlen : String.length (Parser.matchText prefix m) - 1 = List.length t).
        { rewrite <- chars_length, Et. simpl. lia. }
        rewrite Hlen in *. rewrite IH.
        -- cbn [bind]. f_equal. rewrite skipn_app, skipn_all, Nat.sub_diag. simpl.
           rewrite <- (str_chars (Parser.matchText prefix m)), Et. simpl.
           rewrite str_app. reflexivity.
        -- rewrite length_app. lia.
        -- intros m' Hm'. apply Hid. right. assumption.
      * rewrite IH; [reflexivity | lia | assumption].
    + apply IH; [simpl in Hle; lia | assumption].
Qed.

(** A text in which no link matched by the two expressions of
    [updateMarkdownLinks] is a relative file link (every target is a URL,
    an anchor, a [mailto:] or [javascript:] target or an absolute path, or
    there is no link at all) is returned character for character, whatever
    the two directories. *)
Theorem non_relative_links_untouched (text oldDir newDir : string) :
  forallb (fun m => negb (Parser.isRelativeLink (JS.str (Parser.m_link m))))
          (Spec.matchesIn Parser.matchInlineAt "" (JS.chars text) 0) = true ->
  forallb (fun m => negb (Parser.isRelativeLink (JS.str (Parser.m_link m))))
          (Spec.matchesIn Parser.matchImageAt "!" (JS.chars text) 0) = true ->
  Parser.updateMarkdownLinks text oldDir newDir = Ok text.
Proof.
  intros H1 H2. unfold Parser.updateMarkdownLinks, Parser.updateInlineLinks.
  destruct (oldDir =? newDir)%string; [reflexivity |].
  rewrite forallb_forall in H1, H2.
  assert (Hsame : forall m matched,
            negb (Parser.isRelativeLink (JS.str (Parser.m_link m))) = true ->
            Parser.rewriteMatch oldDir (Path.join [newDir; "dummy.md"]) matched m = Ok matched).
  { intros m matched Hm. unfold Parser.rewriteMatch.
    apply negb_true_iff in Hm. rewrite Hm. reflexivity. }
  rewrite (replaceMatches_identity _ _ _ matchInlineAt_prefix); [| lia | auto].
  cbn [bind skipn]. rewrite str_chars.
  rewrite (replaceMatches_identity _ _ _ matchImageAt_prefix); [| lia | auto].
  cbn [skipn]. rewrite str_chars. reflexivity.
Qed.

End Rewriting.

(** ** Relative paths towards the document's own directory *)

Section Descendants.
Context `{Host}.

Lemma plainName_facts (s : string) :
  Spec.plainName s = true ->
  Spec.plainSegment s /\ JS.containsChar "/" s = false /\ JS.containsChar "\" s = false.
Proof.
  unfold Spec.plainName, Spec.plainSegment. intros Hp.
  repeat (apply andb_prop in Hp; destruct Hp as [Hp ?]).
  repeat match goal with
         | Hn : negb _ = true |- _ => apply negb_true_iff in Hn
         end.
  repeat split; try (apply String.eqb_neq); assumption.
Qed.

Lemma plainNames_facts (l : list string) :
  forallb Spec.plainName l = true ->
  Forall Spec.plainSegment l /\
  Forall (fun x => JS.containsChar "/" x = false) l /\
  Forall (fun x => JS.containsChar "\" x = false) l.
Proof.
  induction l as [| x l IH]; simpl; intros Hl; [repeat split; constructor |].
  apply andb_prop in Hl. destruct Hl as [Hx Hl].
  destruct (plainName_facts x Hx) as (P1 & P2 & P3).
  destruct (IH Hl) as (I1 & I2 & I3). repeat split; constructor; assumption.
Qed.

Lemma join_snoc (l : list string) (x : string) :
  l <> [] -> JS.join "/" (l ++ [x]) = JS.join "/" l +++ "/" +++ x.
Proof.
  induction l as [| a [| b l] IH]; intros Hne; [contradiction | reflexivity |].
  change (JS.join "/" ((a :: b :: l) ++ [x])) with (a +++ "/" +++ JS.join "/" ((b :: l) ++ [x])).
  rewrite IH by discriminate. rewrite join_cons, !append_assoc. reflexivity.
Qed.

Lemma dropWhile_none {A : Type} (p : A -> bool) (l : list A) :
  Forall (fun a => p a = true) l -> JS.dropWhile p l = [].
Proof. induction 1 as [| a l Ha _ IH]; simpl; [reflexivity | rewrite Ha; exact IH]. Qed.

Lemma dropWhile_until {A : Type} (p : A -> bool) (l : list A) (c : A) (r : list A) :
  Forall (fun a => p a = true) l -> p c = false -> JS.dropWhile p (l ++ c :: r) = c :: r.
Proof.
  induction 1 as [| a l Ha _ IH]; simpl; intros Hc; [rewrite Hc; reflexivity |].
  rewrite Ha. apply IH. assumption.
Qed.

Lemma dropWhile_head {A : Type} (p : A -> bool) (c : A) (t : list A) :
  p c = false -> JS.dropWhile p (c :: t) = c :: t.
Proof. intros Hc. simpl. rewrite Hc. reflexivity. Qed.

Lemma noSlash_chars (s : string) :
  JS.containsChar "/" s = false -> Forall (fun a => Path.notSlash a = true) (JS.chars s).
Proof.
  induction s as [| c s IH]; simpl; intros Hs; constructor.
  - apply orb_false_elim in Hs. unfold Path.notSlash, Path.isSlash. destruct Hs as [-> _].
    reflexivity.
  - apply IH. apply orb_false_elim in Hs. tauto.
Qed.

Lemma dirname_pathOf (dirSegs : list string) (name : string) :
  Forall Spec.plainSegment dirSegs ->
  Spec.plainSegment name -> JS.containsChar "/" name = false ->
  Path.dirname (Spec.pathOf (dirSegs ++ [name])) = Spec.pathOf dirSegs.
Proof.
  intros Hd Hn Hs. unfold Spec.pathOf, Path.dirname.
  change ("/" +++ ?x) with (String "/" x). cbv iota beta zeta.
  change (Path.isSlash "/") with true. cbv iota.
  pose proof (noSlash_chars name Hs) as Hchars. apply Forall_rev in Hchars.
  assert (Hrev : exists c t, rev (JS.chars name) = c :: t).
  { destruct (rev (JS.chars name)) as [| c t] eqn:E; [| eauto].
    exfalso. destruct Hn as [Hn _]. apply Hn.
    rewrite <- (str_chars name), <- (rev_involutive (JS.chars name)), E. reflexivity. }
  destruct Hrev as (c & t & Hrev).
  assert (Hc : Path.isSlash c = false).
  { rewrite Hrev in Hchars. inversion Hchars as [| ? ? Hc _]; subst.
    unfold Path.notSlash in Hc. apply negb_true_iff in Hc. exact Hc. }
  destruct dirSegs as [| d ds].
  - simpl app. change (JS.join "/" [name]) with name.
    rewrite Hrev, (dropWhile_head Path.isSlash c t Hc), <- Hrev.
    rewrite (dropWhile_none _ _ Hchars). reflexivity.
  - rewrite join_snoc by discriminate.
    rewrite chars_app. change (JS.chars ("/" +++ name)) with ("/"%char :: JS.chars name).
    rewrite rev_app_distr.
    change (rev ("/"%char :: JS.chars name)) with (rev (JS.chars name) ++ ["/"%char]).
    rewrite <- app_assoc.
    change (["/"%char] ++ ?x) with ("/"%char :: x).
    rewrite Hrev at 1.
    change ((c :: t) ++ ?x) with (c :: (t ++ x)).
    rewrite (dropWhile_head Path.isSlash c _ Hc).
    change (c :: (t ++ ?x)) with ((c :: t) ++ x). rewrite <- Hrev.
    rewrite (dropWhile_until Path.notSlash _ "/"%char _ Hchars eq_refl).
    destruct (rev (JS.chars (JS.join "/" (d :: ds)))) as [| x r3] eqn:E3.
    + exfalso. inversion Hd as [| ? ? [Hne _] _]; subst.
      assert (Hj : JS.join "/" (d :: ds) = "").
      { rewrite <- (str_chars (JS.join "/" (d :: ds))),
                <- (rev_involutive (JS.chars (JS.join "/" (d :: ds)))), E3. reflexivity. }
      destruct d; [contradiction |]. destruct ds; discriminate.
    + rewrite <- E3, rev_involutive, str_chars. reflexivity.
Qed.

Lemma commonPrefixLength_app (a b : list string) :
  Path.commonPrefixLength a (a ++ b) = List.length a.
Proof.
  induction a as [| x a IH]; simpl; [destruct b; reflexivity |].
  rewrite String.eqb_refl, IH. reflexivity.
Qed.

(** A target in the directory of the document or below it is written as
    the bare descending path: no leading [./], no [..] and no absolute
    part; for a file beside the document this is its name alone. *)
Theorem descendant_target_path (dirSegs below : list string) (name : string) :
  forallb Spec.plainName dirSegs = true ->
  Spec.plainName name = true ->
  forallb Spec.plainName below = true ->
  below <> [] ->
  Parser.calculateRelativePath (Spec.pathOf (dirSegs ++ [name])) (Spec.pathOf (dirSegs ++ below))
  = JS.join "/" below.
Proof.
  intros Hd Hn Hb Hne.
  destruct (plainNames_facts _ Hd) as (Dp & Ds & _).
  destruct (plainName_facts _ Hn) as (Np & Ns & _).
  destruct (plainNames_facts _ Hb) as (Bp & Bs & Bb).
  unfold Parser.calculateRelativePath. rewrite (dirname_pathOf _ _ Dp Np Ns).
  assert (Tp : Forall Spec.plainSegment (dirSegs ++ below)) by (apply Forall_app; auto).
  assert (Ts : Forall (fun x => JS.containsChar "/" x = false) (dirSegs ++ below))
    by (apply Forall_app; auto).
  assert (Hdiff : Spec.pathOf dirSegs <> Spec.pathOf (dirSegs ++ below)).
  { intros Heq. apply (f_equal Path.segments) in Heq. unfold Spec.pathOf in Heq.
    rewrite !segments_resolved in Heq by assumption.
    apply (f_equal (@List.length string)) in Heq. rewrite length_app in Heq.
    destruct below; [contradiction | simpl in Heq; lia]. }
  unfold Path.relative. apply String.eqb_neq in Hdiff. rewrite Hdiff.
  unfold Spec.pathOf in *. rewrite !resolve_of_segments by assumption. rewrite Hdiff.
  rewrite !segments_resolved by assumption.
  rewrite commonPrefixLength_app, Nat.sub_diag, skipn_app, skipn_all, Nat.sub_diag.
  simpl. apply replaceChar_absent. apply join_without; [reflexivity | assumption].
Qed.

End Descendants.

(** ** Escaping a path for a regular expression *)

Section Escaping.

(** The class of [escapeRegExp] holds the syntax characters of the grammar
    and nothing else. *)
Lemma escaped_class_is_syntax (c : ascii) :
  Extension.isSyntaxChar c = Spec.syntaxCharacter c.
Proof. destruct c as [[] [] [] [] [] [] [] []]; reflexivity. Qed.

(** [escapeRegExp] makes a pattern that stands for the string itself: read
    by the grammar of regular expressions, the escaped text is a sequence
    of pattern characters and identity escapes that matches exactly the
    string that was escaped, so no character of a path is left with a
    special meaning in the expression. *)
Theorem escapeRegExp_literal (s : string) :
  Spec.patternLiteral (Extension.escapeRegExp s) = Some s.
Proof.
  induction s as [| c s IH]; [reflexivity |].
  cbn [Extension.escapeRegExp]. rewrite escaped_class_is_syntax.
  destruct (Spec.syntaxCharacter c) eqn:Ec.
  - cbn [Spec.patternLiteral]. rewrite Ascii.eqb_refl, Ec, IH. reflexivity.
  - cbn [Spec.patternLiteral].
    assert (Hb : Ascii.eqb c "\" = false).
    { destruct (Ascii.eqb c "\") eqn:E; [| reflexivity].
      apply Ascii.eqb_eq in E. subst c. discriminate. }
    rewrite Hb, Ec, IH. reflexivity.
Qed.

End Escaping.

(** ** Instances of the further properties *)

Lemma twin_backend_bounded : Spec.boundedBackend (H := Sample.twinHost).
Proof.
  intros pattern maxResults found [= <-]. apply firstn_le_length.
Qed.

Lemma twin_pick_offered : Spec.pickIsOffered (H := Sample.twinHost).
Proof.
  intros brokenPath [| c r] sourceFile selected; [discriminate |].
  intros [= <-]. left. reflexivity.
Qed.

(** The three targets of the example in a process whose working
    directory is gone: the URL gives no entry, the two relative targets are
    resolved against the absolute base directory as written. *)
Lemma percent_free_targets_resolved_witness :
  WithCwd.extractFromTokens (Throw (HostError "ENOENT")) Sample.threeTargets "/home/user/docs"
  = Ok ["/home/user/docs/image.png"; "/home/user/file.md"].
Proof.
  apply (percent_free_targets_resolved (Throw (HostError "ENOENT")) "/gone"
           Sample.threeTargets "/home/user/docs"); [reflexivity |].
  intros h [<- | [<- | []]]; reflexivity.
Defined.

(** The earlier copy on the same tokens keeps the URL. *)
Lemma legacy_extractor_keeps_every_target_witness :
  LegacyParser.extractFromTokens (Throw (HostError "ENOENT")) Sample.threeTargets
    "/home/user/docs"
  = Ok ["https://example.com"; "/home/user/docs/image.png"; "/home/user/file.md"].
Proof.
  exact (legacy_extractor_keeps_every_target (Throw (HostError "ENOENT")) "/gone"
           Sample.threeTargets "/home/user/docs" eq_refl).
Defined.

(** The entries of the two relative targets of the example are resolved
    paths. *)
Lemma extracted_entries_canonical_witness :
  Forall2 (fun target entry =>
             Path.isAbsolute target = false ->
             Path.isAbsolute entry = true /\
             Path.resolve (process_cwd (H := Sample.host)) [entry] = entry)
          ["image.png"; "../file.md"]
          ["/home/user/docs/image.png"; "/home/user/file.md"].
Proof.
  exact (extracted_entries_canonical (H := Sample.host) Sample.threeTargets
           "/home/user/docs" ["/home/user/docs/image.png"; "/home/user/file.md"] eq_refl).
Defined.

(** A file with a well-formed and a malformed target is indexed as having
    no link. *)
Lemma parseFile_markdown_witness :
  readFile (Host := Sample.twinHost) "/w/docs/bad.md" = Ok "[a](a.md) [b](%FF.md)" /\
  Spec.fileTargets (md_parse (Host := Sample.twinHost) "[a](a.md) [b](%FF.md)")
    = ["a.md"; "%FF.md"] /\
  Extension.parseFile (H := Sample.twinHost) "/w/docs/bad.md" = [].
Proof.
  split; [reflexivity |]. split; [reflexivity |].
  exact (proj2 (parseFile_markdown (H := Sample.twinHost) "/w/docs/bad.md"
                  "[a](a.md) [b](%FF.md)" eq_refl eq_refl)
               "%FF.md" (or_intror (or_introl eq_refl)) eq_refl eq_refl).
Defined.

(** The index of one document, updated with a directory that exists and
    a file that does not. *)
Lemma registry_update_detected_witness :
  filter (fun b => (filePath b =? "/w/docs/index.md")%string)
         (Parser.findBrokenLinks (H := Sample.host)
            (Registry.update "/w/docs/index.md" ["/w/docs"; "/x/gone.md"]
               [("/w/docs/index.md", ["/x/folder/name.md"])]))
  = [Spec.brokenRecord "/w/docs/index.md" "/x/gone.md"].
Proof.
  apply (registry_update_detected (H := Sample.host) "/w/docs/index.md"
           ["/w/docs"; "/x/gone.md"] [("/w/docs/index.md", ["/x/folder/name.md"])]).
  repeat constructor. intros [].
Defined.

(** The two files named [name.md] are offered for [/x/name.md]. *)
Lemma smart_candidates_bounded_witness :
  List.length (Parser.looseMatches
                 (Parser.findSmartReplacementCandidates (H := Sample.twinHost) "/x/name.md"))
  <= 20 + 10 * List.length (Parser.alternativeExtensions ".md").
Proof.
  exact (proj1 (proj2 (smart_candidates_bounded (H := Sample.twinHost) "/x/name.md"
                         twin_backend_bounded))).
Defined.

(** The user's choice among the two files is what the repair writes. *)
Lemma repair_calls_sound_witness :
  In (Spec.brokenRecord "/w/docs/index.md" "/x/name.md")
     (Parser.findBrokenLinks (H := Sample.twinHost) Sample.twinIndex) /\
  "/w/a/name.md" <> "/x/name.md" /\
  Spec.searchResult (H := Sample.twinHost) "/w/a/name.md".
Proof.
  apply (repair_calls_sound (H := Sample.twinHost) Sample.twinIndex
           (Spec.brokenRecord "/w/docs/index.md" "/x/name.md") "/w/a/name.md"
           twin_pick_offered).
  right. left. reflexivity.
Defined.


(** A URL, an image with an absolute path and an anchor stay as written. *)
Lemma non_relative_links_untouched_witness :
  Parser.updateMarkdownLinks (H := Sample.host)
    "[site](https://example.com) ![logo](/img/logo.png) [top](#top)" "/docs/old" "/docs/new"
  = Ok "[site](https://example.com) ![logo](/img/logo.png) [top](#top)".
Proof.
  exact (non_relative_links_untouched (H := Sample.host)
           "[site](https://example.com) ![logo](/img/logo.png) [top](#top)"
           "/docs/old" "/docs/new" eq_refl eq_refl).
Defined.

(** An image below the directory of the document. *)
Lemma descendant_target_path_witness :
  Parser.calculateRelativePath (H := Sample.host)
    "/docs/guide/intro.md" "/docs/guide/img/a.png" = "img/a.png".
Proof.
  apply (descendant_target_path (H := Sample.host) ["docs"; "guide"] ["img"; "a.png"] "intro.md");
    [reflexivity | reflexivity | reflexivity | discriminate].
Defined.

(** The run on the index of the two documents: the user's choice is
    written to the first, the repair of the second throws, and nothing is
    skipped. *)
Example scenario_repair_counts :
  let st := Extension.fixBrokenLinks (H := Sample.twinHost) (Some Sample.twinIndex) in
  Extension.totalFixed st = 1 /\ Extension.totalSkipped st = 0 /\
  Spec.failedCalls (H := Sample.twinHost) (Extension.events st) = 1 /\
  List.length (Parser.findBrokenLinks (H := Sample.twinHost) Sample.twinIndex) = 2.
Proof. repeat split; reflexivity. Qed.

(** The two searches on [/x/name.md] in the workspace of the two files. *)
Example scenario_plain_and_smart_search :
  Parser.findReplacementCandidates (H := Sample.twinHost) "/x/name.md"
    = ["/w/a/name.md"; "/w/b/name.md"] /\
  Parser.looseMatches (Parser.findSmartReplacementCandidates (H := Sample.twinHost) "/x/name.md")
    = ["/w/a/name.md"; "/w/b/name.md"].
Proof. split; reflexivity. Qed.

(** A path with the characters of a regular expression, escaped. *)
Example scenario_escape :
  Extension.escapeRegExp "a.b/c(1)+[x].md" = "a\.b/c\(1\)\+\[x\]\.md".
Proof. reflexivity. Qed.
